(** * dotnope: per-package environment-variable firewall

    A shallow embedding of the JavaScript sources of dotnope
    (lib/preload-generator.js, lib/proxy.js, lib/native-bridge.js and
    lib/stack-parser.js) together with the properties that its
    specification states about them.

    Conventions of the embedding:
    - a JavaScript string is a [string]; the default ordering of
      [Array.prototype.sort] (by code unit) is [String.le];
    - a value that may be [undefined]/[null] is an [option];
    - a function that may throw returns a [Completion];
    - module-level [let] variables are fields of a state record that is
      threaded through the functions of that module. *)

From Stdlib Require Import Ascii String List ZArith Lia.
From stdpp Require Import base list strings sorting gmap pretty.

Set Warnings "-clear-no-such-hyp".

(** ** JavaScript built-ins used by the sources *)
Module Js.

(** [Set.prototype.add]: a [Set] iterates in insertion order and holds
    each element once. *)
Definition set_add (v : string) (s : list string) : list string :=
  if decide (v ∈ s) then s else s ++ [v].

(** [arr.sort()] without comparator, on strings: ascending code-unit
    order, by a stable merge sort. *)
Definition array_sort (l : list string) : list string :=
  merge_sort String.le l.

(** [arr.join(sep)]. *)
Definition array_join (sep : string) (l : list string) : string :=
  String.concat sep l.

(** *** Strings *)

(** [s.startsWith(p)] *)
Definition startsWith (p s : string) : bool := String.prefix p s.

(** [s.slice(n)], for [0 <= n]. *)
Fixpoint slice (n : nat) (s : string) : string :=
  match n, s with
  | O, _ => s
  | S n', String _ s' => slice n' s'
  | S _, EmptyString => EmptyString
  end.

(** [s.endsWith(p)] *)
Definition endsWith (p s : string) : bool :=
  String.eqb (slice (String.length s - String.length p) s) p
  && (String.length p <=? String.length s)%nat.

(** [s.includes(p)] *)
Fixpoint includes (p s : string) : bool :=
  String.prefix p s ||
  match s with
  | EmptyString => false
  | String _ s' => includes p s'
  end.

(** [s.lastIndexOf(p)]; [None] stands for [-1]. *)
Fixpoint lastIndexOf (p s : string) : option nat :=
  match s with
  | EmptyString => if String.prefix p s then Some 0 else None
  | String _ s' =>
      match lastIndexOf p s' with
      | Some i => Some (S i)
      | None => if String.prefix p s then Some 0 else None
      end
  end.

(** [s.split(sep)] for a separator of one character. *)
Fixpoint split (sep : ascii) (s : string) : list string :=
  match s with
  | EmptyString => [EmptyString]
  | String c s' =>
      if Ascii.eqb c sep then EmptyString :: split sep s'
      else match split sep s' with
           | part :: parts => String c part :: parts
           | [] => [String c EmptyString]
           end
  end.

(** *** Completions and stateful computations

    A call either returns a value or throws.  A JavaScript function
    that reads and writes module-level variables is a function from
    the state before the call to its completion and the state after. *)

(** An [Error] object: its constructor name, its message and the
    [code] property when one was attached. *)
Record JsError := mkError {
  error_name : string;
  error_message : string;
  error_code : option string
}.

(** [new Error(message)] *)
Definition new_Error (message : string) : JsError :=
  mkError "Error" message None.

(** The [TypeError] the engine raises itself. *)
Definition new_TypeError (message : string) : JsError :=
  mkError "TypeError" message None.

Inductive Completion (A : Type) : Type :=
| Normal (value : A)
| Throw (error : JsError).
Global Arguments Normal {A} value.
Global Arguments Throw {A} error.

Definition M (S A : Type) : Type := S → Completion A * S.

Definition ret {S A} (a : A) : M S A := λ s, (Normal a, s).

Definition throw {S A} (e : JsError) : M S A := λ s, (Throw e, s).

Definition bind {S A B} (m : M S A) (k : A → M S B) : M S B :=
  λ s, match m s with
       | (Normal a, s') => k a s'
       | (Throw e, s') => (Throw e, s')
       end.

Definition gets {S A} (f : S → A) : M S A := λ s, (Normal (f s), s).

Definition modify {S} (f : S → S) : M S unit := λ s, (Normal tt, f s).

(** [try { body } finally { cleanup }]: the cleanup runs after the
    body however the body completes; when the cleanup throws, its
    exception replaces the completion of the body. *)
Definition try_finally {S A} (body : M S A) (cleanup : M S unit) : M S A :=
  λ s, let '(r, s1) := body s in
       match cleanup s1 with
       | (Normal _, s2) => (r, s2)
       | (Throw e, s2) => (Throw e, s2)
       end.

(** [try { body } catch (err) { handler(err) }] *)
Definition try_catch {S A} (body : M S A) (handler : JsError → M S A) : M S A :=
  λ s, match body s with
       | (Normal a, s1) => (Normal a, s1)
       | (Throw e, s1) => handler e s1
       end.

End Js.

Notation "'let*' x := m 'in' k" := (Js.bind m (λ x, k))
  (at level 10, x name, m at level 100, k at level 200, only parsing).
Notation "m ;;; k" := (Js.bind m (λ _, k))
  (at level 100, k at level 200, right associativity, only parsing).

(** ** The [path] module of the runtime (POSIX flavour)

    [path.sep] is ["/"].  [normalize] resolves ["."] and [".."]
    segments and repeated separators, [dirname] is the path without its
    last segment. *)
Module Path.

Definition sep : string := "/".
Definition sep_char : ascii := "/"%char.

(** The segments that remain after resolving ["."], [".."] and empty
    segments, last one first.  Above the root of an absolute path
    [".."] is dropped; in a relative path it is kept. *)
Fixpoint resolve_segments (allowAboveRoot : bool) (segments : list string)
    (resolved : list string) : list string :=
  match segments with
  | [] => resolved
  | segment :: rest =>
      if decide (segment = "" ∨ segment = ".") then
        resolve_segments allowAboveRoot rest resolved
      else if decide (segment = "..") then
        match resolved with
        | last :: before =>
            if decide (last = "..") then
              resolve_segments allowAboveRoot rest (".." :: resolved)
            else resolve_segments allowAboveRoot rest before
        | [] =>
            resolve_segments allowAboveRoot rest
              (if allowAboveRoot then [".."] else [])
        end
      else resolve_segments allowAboveRoot rest (segment :: resolved)
  end.

Definition normalizeString (path : string) (allowAboveRoot : bool) : string :=
  Js.array_join sep
    (reverse (resolve_segments allowAboveRoot (Js.split sep_char path) [])).

(** [path.normalize(path)] *)
Definition normalize (path : string) : string :=
  if decide (path = "") then "."
  else
    let isAbsolute := Js.startsWith sep path in
    let trailingSeparator := Js.endsWith sep path in
    let res := normalizeString path (negb isAbsolute) in
    if decide (res = "") then
      if isAbsolute then "/" else if trailingSeparator then "./" else "."
    else
      let res := if trailingSeparator then res +:+ "/" else res in
      if isAbsolute then "/" +:+ res else res.

Fixpoint drop_while (f : ascii → bool) (l : list ascii) : list ascii :=
  match l with
  | [] => []
  | c :: rest => if f c then drop_while f rest else l
  end.

(** [path.dirname(path)]: scanning from the end (down to index 1),
    trailing separators are skipped, then the last segment; the
    separator found next ends the directory name. *)
Definition dirname (path : string) : string :=
  match path with
  | EmptyString => "."
  | String first rest =>
      let hasRoot := Ascii.eqb first sep_char in
      let backwards := reverse (String.list_ascii_of_string rest) in
      let no_trailing := drop_while (λ c, Ascii.eqb c sep_char) backwards in
      let no_segment := drop_while (λ c, negb (Ascii.eqb c sep_char)) no_trailing in
      match no_segment with
      | [] => if hasRoot then "/" else "."
      | _ :: before =>
          if hasRoot && bool_decide (before = []) then "//"
          else String first (String.string_of_list_ascii (reverse before))
      end
  end.

(** [path.join(...args)]: the arguments that are not empty, joined by
    the separator and normalized; ["."] when nothing is left. *)
Definition join (args : list string) : string :=
  match filter (λ arg, arg ≠ "") args with
  | [] => "."
  | first :: rest =>
      normalize (foldl (λ joined arg, joined +:+ "/" +:+ arg) first rest)
  end.

End Path.

(** ** lib/preload-generator.js *)
Module PreloadGenerator.

(** A package entry of the whitelist configuration.  A field is [None]
    when the property is absent (falsy), so the corresponding [if] of
    [generatePolicy] is skipped. *)
Record PackageConfig := mkPackageConfig {
  allowed : option (list string);
  canWrite : option (list string);
  canDelete : option (list string)
}.

(** [Object.entries(config)]: the entries in the object's key order. *)
Abbreviation Config := (list (string * PackageConfig)).

(** State of the body of [generatePolicy]: either a [return] was
    executed, or the loops go on with the current [allowedVars]. *)
Inductive LoopState :=
| Returned (result : string)
| Running (allowedVars : list string).

(** [for (const envVar of arr) { if (envVar === '*') return '*';
    allowedVars.add(envVar); }] *)
Fixpoint addVars (arr : list string) (allowedVars : list string) : LoopState :=
  match arr with
  | [] => Running allowedVars
  | envVar :: rest =>
      if decide (envVar = "*") then Returned "*"
      else addVars rest (Js.set_add envVar allowedVars)
  end.

(** [if (field) { for ... }] *)
Definition addField (field : option (list string)) (allowedVars : list string)
  : LoopState :=
  match field with
  | Some arr => addVars arr allowedVars
  | None => Running allowedVars
  end.

(** The outer loop over [Object.entries(config)]. *)
Fixpoint collect (entries : Config) (allowedVars : list string) : LoopState :=
  match entries with
  | [] => Running allowedVars
  | (packageName, packageConfig) :: rest =>
      if decide (packageName = "__options__") then collect rest allowedVars
      else
        match addField (allowed packageConfig) allowedVars with
        | Returned r => Returned r
        | Running vars1 =>
            match addField (canWrite packageConfig) vars1 with
            | Returned r => Returned r
            | Running vars2 => collect rest vars2
            end
        end
  end.

Definition generatePolicy (config : Config) : string :=
  match collect config [] with
  | Returned r => r
  | Running allowedVars => Js.array_join "," (Js.array_sort allowedVars)
  end.

(** *** Reference descriptions of the policy string *)

Definition field_vars (field : option (list string)) : list string :=
  default [] field.

(** The variables a package lists in [allowed] and [canWrite]. *)
Definition read_write_vars (pc : PackageConfig) : list string :=
  field_vars (allowed pc) ++ field_vars (canWrite pc).

(** The variables a package lists in any of its three sets. *)
Definition all_vars (pc : PackageConfig) : list string :=
  field_vars (allowed pc) ++ field_vars (canWrite pc) ++ field_vars (canDelete pc).

(** The entries that are packages (the reserved key is not one). *)
Definition packages (config : Config) : Config :=
  filter (λ e, e.1 ≠ "__options__") config.

Definition union_over (vars_of : PackageConfig → list string) (config : Config)
  : list string :=
  mbind (λ e : string * PackageConfig, vars_of e.2) (packages config).

(** The policy string as a function of a union of variables: the
    wildcard when the union holds it, else the sorted CSV of the union. *)
Definition policy_of_union (vars : list string) : string :=
  if decide ("*" ∈ vars) then "*"
  else Js.array_join "," (Js.array_sort (remove_dups vars)).

(** The policy as the specification words it: the union of [allowed],
    [canWrite] and [canDelete] over all packages. *)
Definition spec_policy (config : Config) : string :=
  policy_of_union (union_over all_vars config).

(** The policy over [allowed] and [canWrite] only. *)
Definition read_write_policy (config : Config) : string :=
  policy_of_union (union_over read_write_vars config).

(** *** The policy of a package.json, and the preload library *)

(** A value under a key of [environmentWhitelist]: an object that is
    not an array (with its [allowed], [canWrite] and [canDelete], each
    an array of strings when present), an array of strings, or
    anything else (a string, a number, a boolean, [null]). *)
Inductive RawConfig :=
| RawObject (fields : PackageConfig)
| RawArray (vars : list string)
| RawOther.

(** [Object.entries(whitelist)] *)
Abbreviation Whitelist := (list (string * RawConfig)).

(** The surroundings of the module. *)
Record Host := mkHost {
  (** [__dirname] *)
  lib_dirname : string;
  (** [fs.existsSync(path)] *)
  existsSync : string → bool;
  (** [Object.entries(JSON.parse(fs.readFileSync(pkgPath, 'utf8'))
      .environmentWhitelist || {})]; reading the file, parsing it, and
      reading a property of a document that is [null] may throw. *)
  read_whitelist : string → Js.Completion Whitelist;
  (** [process.env.LD_PRELOAD] *)
  LD_PRELOAD : option string
}.

(** The accesses to the file system. *)
Inductive Event :=
| ExistsSync (path : string)
| ReadPackageJson (path : string).

(** [config[packageName] = value] on a plain object: an own property
    is replaced where it is and a new one is added last; the key
    [__proto__] is the accessor of [Object.prototype], which sets the
    prototype and creates no own property. *)
Fixpoint object_set (packageName : string) (value : PackageConfig)
    (config : Config) : Config :=
  match config with
  | [] => [(packageName, value)]
  | (key, old) :: rest =>
      if decide (key = packageName) then (key, value) :: rest
      else (key, old) :: object_set packageName value rest
  end.

(** The normalisation loop of [generatePolicyFromPackageJson]. *)
Fixpoint normalizeConfig (whitelist : Whitelist) (config : Config) : Config :=
  match whitelist with
  | [] => config
  | (packageName, rawConfig) :: rest =>
      if decide (packageName = "__options__") then normalizeConfig rest config
      else
        match rawConfig with
        | RawObject raw =>
            let value :=
              mkPackageConfig (Some (default [] (allowed raw)))
                (Some (default [] (canWrite raw))) None in
            normalizeConfig rest
              (if decide (packageName = "__proto__") then config
               else object_set packageName value config)
        | RawArray vars =>
            let value := mkPackageConfig (Some vars) (Some []) None in
            normalizeConfig rest
              (if decide (packageName = "__proto__") then config
               else object_set packageName value config)
        | RawOther => normalizeConfig rest config
        end
  end.

Definition generatePolicyFromPackageJson (h : Host) (pkgPath : string)
  : Js.M (list Event) string :=
  Js.modify (λ t, t ++ [ReadPackageJson pkgPath]) ;;;
  let* whitelist := (λ t, (read_whitelist h pkgPath, t)) in
  Js.ret (generatePolicy (normalizeConfig whitelist [])).

Definition possiblePaths (h : Host) : list string :=
  [ Path.join [lib_dirname h; "../build/Release/libdotnope_preload.so"];
    Path.join [lib_dirname h; "../native/preload/libdotnope_preload.so"];
    "/usr/local/lib/libdotnope_preload.so";
    "/usr/lib/libdotnope_preload.so" ].

(** The loop of [findPreloadLibrary]. *)
Fixpoint first_existing (h : Host) (paths : list string)
  : Js.M (list Event) (option string) :=
  match paths with
  | [] => Js.ret None
  | libPath :: rest =>
      Js.modify (λ t, t ++ [ExistsSync libPath]) ;;;
      if existsSync h libPath then Js.ret (Some libPath)
      else first_existing h rest
  end.

Definition findPreloadLibrary (h : Host) : Js.M (list Event) (option string) :=
  first_existing h (possiblePaths h).

Definition isPreloadActive (h : Host) : bool :=
  let preload :=
    match LD_PRELOAD h with
    | Some v => if decide (v = "") then "" else v
    | None => ""
    end in
  Js.includes "libdotnope_preload.so" preload
  || Js.includes "dotnope_preload" preload.

(** The object that [generatePreloadEnv] returns. *)
Record PreloadEnv := mkPreloadEnv {
  env_LD_PRELOAD : string;
  env_DOTNOPE_POLICY : string
}.

Definition library_not_found : Js.JsError :=
  Js.new_Error
    ("dotnope: libdotnope_preload.so not found!" +:+ String "010"%char "" +:+
     "Build with: make -C native/preload").

Definition generatePreloadEnv (h : Host) (pkgPath : string)
  : Js.M (list Event) PreloadEnv :=
  let* preloadPath := findPreloadLibrary h in
  match preloadPath with
  | Some libPath =>
      if decide (libPath = "") then Js.throw library_not_found
      else
        let* policy := generatePolicyFromPackageJson h pkgPath in
        Js.ret (mkPreloadEnv libPath policy)
  | None => Js.throw library_not_found
  end.

End PreloadGenerator.

(** ** bin/dotnope-run.js

    The launcher, from the arguments to the call that starts the
    child.  What it prints is left out, and so is what follows the call
    of [spawn] (the forwarding of the child's exit status). *)
Module DotnopeRun.
Import Js.

(** The surroundings of the script. *)
Record Host := mkHost {
  preload_host : PreloadGenerator.Host;
  (** [process.platform] *)
  platform : string;
  (** [process.cwd()], which is taken to succeed *)
  cwd : string;
  (** [process.execPath] *)
  execPath : string;
  (** [process.env] *)
  env : gmap string string
}.

(** How far the script gets: [process.exit(code)], or the call
    [spawn(command, commandArgs, {env})]. *)
Inductive Outcome :=
| Exit (code : Z)
| Spawn (command : string) (commandArgs : list string)
    (childEnv : gmap string string).

(** The variables of the flag-parsing loop. *)
Record Flags := mkFlags {
  verbose : bool;
  logFile : option string;
  filteredArgs : list string
}.

(** The flag-parsing loop, from index [i] on ([args] is [args.slice(i)]).
    [--log] takes the next argument only when there is one that is not
    empty; otherwise it is an argument like any other. *)
Fixpoint parse_flags (args : list string) (flags : Flags) : Flags :=
  match args with
  | [] => flags
  | arg :: rest =>
      let push :=
        mkFlags (verbose flags) (logFile flags) (filteredArgs flags ++ [arg]) in
      if decide (arg = "--verbose" ∨ arg = "-v") then
        parse_flags rest (mkFlags true (logFile flags) (filteredArgs flags))
      else if decide (arg = "--log") then
        match rest with
        | next :: rest' =>
            if decide (next = "") then parse_flags rest push
            else parse_flags rest'
                   (mkFlags (verbose flags) (Some next) (filteredArgs flags))
        | [] => parse_flags rest push
        end
      else if decide (arg = "--") then
        mkFlags (verbose flags) (logFile flags) (filteredArgs flags ++ rest)
      else parse_flags rest push
  end.

(** The loop of [findPackageJson], from the directory [dir]; [fuel]
    bounds the number of rounds. *)
Fixpoint findPackageJson_from (fuel : nat) (h : Host) (dir : string)
  : M (list PreloadGenerator.Event) (option string) :=
  match fuel with
  | O => ret None
  | S fuel' =>
      if decide (dir = Path.dirname dir) then ret None
      else
        let pkgPath := Path.join [dir; "package.json"] in
        modify (λ t, t ++ [PreloadGenerator.ExistsSync pkgPath]) ;;;
        if PreloadGenerator.existsSync (preload_host h) pkgPath
        then ret (Some pkgPath)
        else findPackageJson_from fuel' h (Path.dirname dir)
  end.

(** [findPackageJson()]: the rounds are fewer than twice the length of
    the working directory plus four. *)
Definition findPackageJson (h : Host)
  : M (list PreloadGenerator.Event) (option string) :=
  findPackageJson_from (2 * String.length (cwd h) + 4) h (cwd h).

(** [{...process.env, ...preloadEnv}], with [DOTNOPE_LOG] when a log
    file was asked for. *)
Definition child_env (h : Host) (preloadEnv : PreloadGenerator.PreloadEnv)
    (logFile : option string) : gmap string string :=
  let withPreload :=
    <["DOTNOPE_POLICY" := PreloadGenerator.env_DOTNOPE_POLICY preloadEnv]>
      (<["LD_PRELOAD" := PreloadGenerator.env_LD_PRELOAD preloadEnv]> (env h)) in
  match logFile with
  | Some file =>
      if decide (file = "") then withPreload
      else <["DOTNOPE_LOG" := file]> withPreload
  | None => withPreload
  end.

(** The whole script, on [process.argv.slice(2)]. *)
Definition main (h : Host) (args : list string)
  : M (list PreloadGenerator.Event) Outcome :=
  if bool_decide (args = []) || bool_decide ("--help" ∈ args)
     || bool_decide ("-h" ∈ args)
  then ret (Exit 0)
  else if bool_decide ("--check" ∈ args) then
    let* preloadPath := PreloadGenerator.findPreloadLibrary (preload_host h) in
    match preloadPath with
    | Some libPath => if decide (libPath = "") then ret (Exit 1) else ret (Exit 0)
    | None => ret (Exit 1)
    end
  else if bool_decide ("--status" ∈ args) then
    PreloadGenerator.findPreloadLibrary (preload_host h) ;;;
    ret (Exit 0)
  else if negb (bool_decide (platform h = "linux")) then ret (Exit 1)
  else
    let flags := parse_flags args (mkFlags false None []) in
    match filteredArgs flags with
    | [] => ret (Exit 1)
    | first :: rest =>
        let* found := findPackageJson h in
        match found with
        | None => ret (Exit 1)
        | Some pkgPath =>
            if decide (pkgPath = "") then ret (Exit 1)
            else
              let* generated :=
                try_catch
                  (let* preloadEnv :=
                     PreloadGenerator.generatePreloadEnv (preload_host h)
                       pkgPath in
                   ret (Some preloadEnv))
                  (λ err, ret None) in
              match generated with
              | None => ret (Exit 1)
              | Some preloadEnv =>
                  let childEnv := child_env h preloadEnv (logFile flags) in
                  if endsWith ".js" first || endsWith ".mjs" first
                     || endsWith ".cjs" first
                  then ret (Spawn (execPath h) (first :: rest) childEnv)
                  else ret (Spawn first rest childEnv)
              end
        end
    end.

End DotnopeRun.

(** ** lib/proxy.js *)
Module Proxy.
Import Js.

(** A property key is a string or a symbol. *)
Inductive PropKey :=
| KString (s : string)
| KSymbol (id : nat).

Global Instance PropKey_eq_dec : EqDecision PropKey.
Proof. solve_decision. Defined.

(** The well-known symbol [Symbol.toStringTag]. *)
Definition Symbol_toStringTag : PropKey := KSymbol 0.

(** The values that are written to the environment. *)
Inductive JsValue :=
| VUndefined
| VBoolean (b : bool)
| VNumber (z : Z)
| VString (s : string)
| VObject (id : nat).

(** A (data) property descriptor, each field optional. *)
Record Descriptor := mkDescriptor {
  desc_value : option JsValue;
  desc_writable : option bool;
  desc_enumerable : option bool;
  desc_configurable : option bool
}.

(** The second argument of the access-check function. *)
Inductive Operation := OpRead | OpWrite | OpDelete.

(** [checkFn(envVar, operation)]: [None] when the call returns,
    [Some e] when it throws [e]. *)
Definition CheckFn := string → Operation → option JsError.

(** [filterFn(allKeys)]: the filtered keys, or [None] for [null]. *)
Definition FilterFn := list PropKey → option (list PropKey).

(** The [options] argument of [createEnvProxy]; a field is [None]
    when the caller did not set it. *)
Record Options := mkOptions {
  opt_protectWrites : option bool;
  opt_protectDeletes : option bool;
  opt_protectEnumeration : option bool
}.

(** [x !== false] *)
Definition not_false (x : option bool) : bool :=
  match x with Some false => false | _ => true end.

(** The module variable [proxyOptions]. *)
Record ProxyOptions := mkProxyOptions {
  protectWrites : bool;
  protectDeletes : bool;
  protectEnumeration : bool
}.

(** The object that [process.env] refers to: the environment object
    of the runtime, or a [Proxy] around another such object. *)
Inductive EnvRef :=
| EnvObject
| ProxyOf (target : EnvRef).

(** The internal methods of the proxy's target, as the traps use
    them.  Each may throw (the file is in strict mode, so a failed
    assignment or deletion is a [TypeError]) and returns the store
    after the access. *)
Class EnvStore (T : Type) := {
  (** [Reflect.get(target, prop, receiver)]; [target[prop]] is the call
      whose receiver is the target itself ([None]). *)
  store_get : PropKey → option nat → T → Completion JsValue * T;
  (** [target[prop] = value] *)
  store_set : PropKey → JsValue → T → Completion unit * T;
  (** [prop in target] *)
  store_has : PropKey → T → Completion bool * T;
  (** [delete target[prop]] *)
  store_delete : PropKey → T → Completion unit * T;
  (** [Reflect.ownKeys(target)] *)
  store_ownKeys : T → Completion (list PropKey) * T;
  (** [Object.getOwnPropertyDescriptor(target, prop)] *)
  store_getOwnPropertyDescriptor :
    PropKey → T → Completion (option Descriptor) * T;
  (** [Object.defineProperty(target, prop, descriptor)]; it returns
      the target, which the trap hands on as its (truthy) result. *)
  store_defineProperty : PropKey → Descriptor → T → Completion unit * T
}.

(** What an operation of the proxy does that is visible outside the
    module: calls of the two installed callbacks and accesses to the
    underlying store, in the order in which they happen. *)
Inductive Event :=
| CheckCall (envVar : string) (operation : Operation)
| FilterCall (allKeys : list PropKey)
| StoreGet (prop : PropKey) (receiver : option nat)
| StoreSet (prop : PropKey) (value : JsValue)
| StoreHas (prop : PropKey)
| StoreDelete (prop : PropKey)
| StoreOwnKeys
| StoreGetOwnPropertyDescriptor (prop : PropKey)
| StoreDefineProperty (prop : PropKey) (descriptor : Descriptor).

Definition is_CheckCall (ev : Event) : bool :=
  match ev with CheckCall _ _ => true | _ => false end.

Definition is_store_access (ev : Event) : bool :=
  match ev with CheckCall _ _ | FilterCall _ => false | _ => true end.

Section WithStore.
Context {T : Type} `{EnvStore T}.

(** The module variables of proxy.js, the global [process.env], the
    contents of the object behind the proxy, and the events so
    far. *)
Record State := mkState {
  originalEnv : option EnvRef;
  proxyEnv : option EnvRef;
  isEnabled : bool;
  checkAccessFn : option CheckFn;
  filterKeysFn : option FilterFn;
  proxyOptions : option ProxyOptions;
  proxyInstalledAt : option Z;
  process_env : EnvRef;
  store : T;
  trace : list Event
}.

Definition log (ev : Event) : M State unit :=
  modify (λ st, mkState (originalEnv st) (proxyEnv st) (isEnabled st)
                  (checkAccessFn st) (filterKeysFn st) (proxyOptions st)
                  (proxyInstalledAt st) (process_env st) (store st)
                  (trace st ++ [ev])).

(** An access to the underlying store: it is recorded, then carried
    out on the target. *)
Definition on_store {A} (ev : Event) (access : T → Completion A * T)
  : M State A :=
  log ev ;;;
  (λ st, let '(r, t) := access (store st) in
         (r, mkState (originalEnv st) (proxyEnv st) (isEnabled st)
               (checkAccessFn st) (filterKeysFn st) (proxyOptions st)
               (proxyInstalledAt st) (process_env st) t (trace st))).

Definition Reflect_get (prop : PropKey) (receiver : nat) : M State JsValue :=
  on_store (StoreGet prop (Some receiver)) (store_get prop (Some receiver)).
Definition target_get (prop : PropKey) : M State JsValue :=
  on_store (StoreGet prop None) (store_get prop None).
Definition target_set (prop : PropKey) (value : JsValue) : M State unit :=
  on_store (StoreSet prop value) (store_set prop value).
Definition target_has (prop : PropKey) : M State bool :=
  on_store (StoreHas prop) (store_has prop).
Definition target_delete (prop : PropKey) : M State unit :=
  on_store (StoreDelete prop) (store_delete prop).
Definition Reflect_ownKeys : M State (list PropKey) :=
  on_store StoreOwnKeys store_ownKeys.
Definition Object_getOwnPropertyDescriptor (prop : PropKey)
  : M State (option Descriptor) :=
  on_store (StoreGetOwnPropertyDescriptor prop)
           (store_getOwnPropertyDescriptor prop).
Definition Object_defineProperty (prop : PropKey) (descriptor : Descriptor)
  : M State unit :=
  on_store (StoreDefineProperty prop descriptor)
           (store_defineProperty prop descriptor).

(** [checkAccessFn(envVar, operation)], called where the guard has
    found [checkAccessFn] to be set. *)
Definition call_checkAccessFn (envVar : string) (operation : Operation)
  : M State unit :=
  let* fn := gets checkAccessFn in
  match fn with
  | None => throw (new_TypeError "checkAccessFn is not a function")
  | Some check =>
      log (CheckCall envVar operation) ;;;
      match check envVar operation with
      | Some e => throw e
      | None => ret tt
      end
  end.

(** [isEnabled && checkAccessFn] *)
Definition enabled_with_check : M State bool :=
  gets (λ st, isEnabled st && bool_decide (is_Some (checkAccessFn st))).

(** [isEnabled && checkAccessFn && proxyOptions.<field>]: the
    property of [proxyOptions] is read only when the first two
    operands are truthy, and reading it from [null] throws. *)
Definition enabled_with_check_and (field : ProxyOptions → bool) : M State bool :=
  let* on := enabled_with_check in
  if on then
    let* opts := gets proxyOptions in
    match opts with
    | Some o => ret (field o)
    | None => throw (new_TypeError "Cannot read properties of null")
    end
  else ret false.

(** *** The traps of the handler *)

Definition get (prop : PropKey) (receiver : nat) : M State JsValue :=
  match prop with
  | KSymbol _ => Reflect_get prop receiver
  | KString name =>
      if bool_decide (prop = KString "inspect")
         || bool_decide (prop = Symbol_toStringTag)
      then Reflect_get prop receiver
      else
        let* on := enabled_with_check in
        (if on then call_checkAccessFn name OpRead else ret tt) ;;;
        target_get prop
  end.

Definition set (prop : PropKey) (value : JsValue) : M State bool :=
  let* on := enabled_with_check_and protectWrites in
  (if on then
     match prop with
     | KString name => call_checkAccessFn name OpWrite
     | KSymbol _ => ret tt
     end
   else ret tt) ;;;
  target_set prop value ;;;
  ret true.

Definition has (prop : PropKey) : M State bool :=
  let* on := enabled_with_check in
  (match prop with
   | KString name => if on then call_checkAccessFn name OpRead else ret tt
   | KSymbol _ => ret tt
   end) ;;;
  target_has prop.

Definition deleteProperty (prop : PropKey) : M State bool :=
  let* on := enabled_with_check_and protectDeletes in
  (if on then
     match prop with
     | KString name => call_checkAccessFn name OpDelete
     | KSymbol _ => ret tt
     end
   else ret tt) ;;;
  target_delete prop ;;;
  ret true.

Definition ownKeys : M State (list PropKey) :=
  let* enabled := gets isEnabled in
  let* filtering :=
    (if enabled then
       let* opts := gets proxyOptions in
       match opts with
       | None => throw (new_TypeError "Cannot read properties of null")
       | Some o =>
           if protectEnumeration o then gets filterKeysFn else ret None
       end
     else ret None) in
  match filtering with
  | Some filterFn =>
      let* allKeys := Reflect_ownKeys in
      log (FilterCall allKeys) ;;;
      match filterFn allKeys with
      | Some filteredKeys => ret filteredKeys
      | None => Reflect_ownKeys
      end
  | None => Reflect_ownKeys
  end.

Definition getOwnPropertyDescriptor (prop : PropKey)
  : M State (option Descriptor) :=
  let* on := enabled_with_check in
  (match prop with
   | KString name => if on then call_checkAccessFn name OpRead else ret tt
   | KSymbol _ => ret tt
   end) ;;;
  Object_getOwnPropertyDescriptor prop.

Definition defineProperty (prop : PropKey) (descriptor : Descriptor)
  : M State unit :=
  let* on := enabled_with_check_and protectWrites in
  (if on then
     match prop with
     | KString name => call_checkAccessFn name OpWrite
     | KSymbol _ => ret tt
     end
   else ret tt) ;;;
  Object_defineProperty prop descriptor.

(** *** The functions the module exports *)

(** [createEnvProxy(checkFn, options)]; [now] is the value of
    [Date.now()]. *)
Definition createEnvProxy (checkFn : option CheckFn) (options : Options)
    (now : Z) : M State unit :=
  λ st,
    match proxyEnv st with
    | Some _ => (Throw (new_Error "strictenv: Proxy already created"), st)
    | None =>
        (Normal tt,
         mkState
           (Some (process_env st))
           (Some (ProxyOf (process_env st)))
           (isEnabled st)
           checkFn
           (filterKeysFn st)
           (Some (mkProxyOptions
                    (not_false (opt_protectWrites options))
                    (not_false (opt_protectDeletes options))
                    (not_false (opt_protectEnumeration options))))
           (Some now)
           (ProxyOf (process_env st))
           (store st)
           (trace st))
    end.

Definition enable : M State unit :=
  modify (λ st, mkState (originalEnv st) (proxyEnv st) true
                  (checkAccessFn st) (filterKeysFn st) (proxyOptions st)
                  (proxyInstalledAt st) (process_env st) (store st)
                  (trace st)).

Definition disable : M State unit :=
  modify (λ st, mkState (originalEnv st) (proxyEnv st) false
                  (checkAccessFn st) (filterKeysFn st) (proxyOptions st)
                  (proxyInstalledAt st) (process_env st) (store st)
                  (trace st)).

Definition restore : M State unit :=
  λ st,
    match originalEnv st with
    | Some original =>
        (Normal tt,
         mkState (originalEnv st) None false None None None
           (proxyInstalledAt st) original (store st) (trace st))
    | None => (Normal tt, st)
    end.

Definition setFilterKeysFn (filterFn : option FilterFn) : M State unit :=
  modify (λ st, mkState (originalEnv st) (proxyEnv st) (isEnabled st)
                  (checkAccessFn st) filterFn (proxyOptions st)
                  (proxyInstalledAt st) (process_env st) (store st)
                  (trace st)).

Definition isStrictModeEnabled : M State bool := gets isEnabled.

Definition getProxyInstalledAt : M State (option Z) := gets proxyInstalledAt.

(** The object that [getProxyStatus] returns. *)
Record ProxyStatus := mkProxyStatus {
  ps_isEnabled : bool;
  ps_installedAt : option Z;
  ps_hasProxy : bool
}.

Definition getProxyStatus : M State ProxyStatus :=
  gets (λ st, mkProxyStatus (isEnabled st) (proxyInstalledAt st)
                (bool_decide (is_Some (proxyEnv st)))).

(** The state of the module when it has just been loaded. *)
Definition loaded (env : T) : State :=
  mkState None None false None None None None EnvObject env [].

(** Modelled from the spec: the token-guarded teardown of the
    Control Handle, which lives in lib/dotnope.js and is not among
    the sources.  "The only supported teardown operation requires
    presenting this token; any other token (empty, null, mismatched)
    is rejected with a structured error"; after a successful
    teardown "the original store is the process environment". *)
Definition handle_disable (token : string) (presented : option string)
  : M State unit :=
  if bool_decide (presented = Some token) then restore
  else throw (mkError "Error" "Invalid disable token"
                (Some "ERR_DOTNOPE_INVALID_TOKEN")).

End WithStore.
Global Arguments State T : clear implicits.

(** *** A plain store

    An ordinary object with data properties only, as the list of its
    properties in creation order, for running the traps on concrete
    inputs. *)
Definition PlainStore := list (PropKey * JsValue).

Fixpoint plain_lookup (prop : PropKey) (t : PlainStore) : option JsValue :=
  match t with
  | [] => None
  | (key, value) :: rest =>
      if decide (key = prop) then Some value else plain_lookup prop rest
  end.

Definition plain_remove (prop : PropKey) (t : PlainStore) : PlainStore :=
  filter (λ e, e.1 ≠ prop) t.

Global Instance PlainStore_EnvStore : EnvStore PlainStore := {
  store_get prop _ t := (Normal (default VUndefined (plain_lookup prop t)), t);
  store_set prop value t := (Normal tt, plain_remove prop t ++ [(prop, value)]);
  store_has prop t := (Normal (bool_decide (is_Some (plain_lookup prop t))), t);
  store_delete prop t := (Normal tt, plain_remove prop t);
  store_ownKeys t := (Normal (fst <$> t), t);
  store_getOwnPropertyDescriptor prop t :=
    (Normal ((λ v, mkDescriptor (Some v) (Some true) (Some true) (Some true))
               <$> plain_lookup prop t), t);
  store_defineProperty prop descriptor t :=
    (Normal tt,
     plain_remove prop t ++ [(prop, default VUndefined (desc_value descriptor))])
}.

(** *** A running example

    A check that denies everything, installed and enabled around an
    environment that holds one secret. *)
Definition deny_all : CheckFn :=
  λ envVar _, Some (Js.mkError "Error" ("dotnope: unauthorized " +:+ envVar)
                      (Some "ERR_DOTNOPE_UNAUTHORIZED")).

Definition example_env : PlainStore := [(KString "AWS_SECRET", VString "x")].

Definition installed_example : State PlainStore :=
  (enable
     (createEnvProxy (Some deny_all) (mkOptions None None None) 1700000000%Z
        (loaded example_env)).2).2.

End Proxy.

(** ** lib/native-bridge.js *)
Module NativeBridge.
Import Js.

(** The [addon] record of addon-manifest.json, as far as it is read.
    A field is [None] when it is absent or not of the expected type of
    JSON value (it then differs from every computed hash or size). *)
Record AddonEntry := mkAddonEntry {
  addon_algorithm : option string;
  addon_hash : option string;
  addon_size : option Z
}.

(** The parsed manifest; [manifest_addon] is [None] when the document
    has no [addon] record, so that reading a field of it throws. *)
Record Manifest := mkManifest {
  manifest_addon : option AddonEntry
}.

(** What the stack parser gets from the native caller-ID helper. *)
Record NativeCallerInfo := mkNativeCallerInfo {
  n_packageName : string;
  n_fileName : string;
  n_lineNumber : Z;
  n_columnNumber : Z;
  n_functionName : option string;
  n_isEval : option bool;
  n_isConstructor : option bool
}.

(** The compiled addon, as far as the bridge and the stack parser call
    it. *)
Record NativeModule := mkNativeModule {
  native_initialize : string → Completion unit;
  native_getCallerInfo : nat → option NativeCallerInfo;
  native_getAsyncContext : option string
}.

(** The surroundings of the module: the file system, the hash
    function of [crypto], and the module loader. *)
Record Host := mkHost {
  (** [fs.existsSync(manifestPath)] *)
  manifest_exists : bool;
  (** [JSON.parse(fs.readFileSync(manifestPath, 'utf8'))] *)
  read_manifest : Completion Manifest;
  (** [fs.existsSync(addonPath)] *)
  addon_exists : bool;
  (** [fs.readFileSync(addonPath)] *)
  read_addon : Completion (list Byte.byte);
  (** [crypto.createHash(algorithm).update(buffer).digest('hex')] *)
  digest_hex : string → list Byte.byte → Completion string;
  (** [fs.statSync(addonPath).size] *)
  stat_size : Completion Z;
  (** [require('../build/Release/dotnope_native.node')] *)
  require_addon : Completion NativeModule;
  (** [path.resolve(__dirname, '..')] *)
  module_path : string
}.

Inductive Event :=
| ConsoleError (line : string)
| ConsoleWarn (line : string)
| RequireAddon
| NativeInitialize (modulePath : string).

(** The module variables, and what the module did so far. *)
Record State := mkState {
  native : option NativeModule;
  nativeAvailable : bool;
  initializationError : option JsError;
  integrityVerified : bool;
  integrityError : option JsError;
  trace : list Event
}.

(** The module when it has just been loaded. *)
Definition loaded : State := mkState None false None false None [].

Record IntegrityResult := mkIntegrityResult {
  verified : bool;
  warning : option string;
  error : option JsError
}.

Definition nl : string := String "010"%char EmptyString.

(** A value inside a template literal. *)
Definition show_string (v : option string) : string := default "undefined" v.
Definition show_number (v : option Z) : string := default "undefined" (pretty <$> v).

(** The body of the [try] block of [verifyAddonIntegrity]. *)
Definition verify_body (h : Host) : Completion IntegrityResult :=
  match read_manifest h with
  | Throw err => Throw err
  | Normal manifest =>
      match read_addon h with
      | Throw err => Throw err
      | Normal addonBuffer =>
          match manifest_addon manifest with
          | None => Throw (new_TypeError
                             "Cannot read properties of undefined (reading 'algorithm')")
          | Some addon =>
              let algorithm :=
                match addon_algorithm addon with
                | Some a => if decide (a = "") then "sha256" else a
                | None => "sha256"
                end in
              match digest_hex h algorithm addonBuffer with
              | Throw err => Throw err
              | Normal actualHash =>
                  if decide (addon_hash addon ≠ Some actualHash) then
                    Normal (mkIntegrityResult false None
                      (Some (new_Error
                         ("Native addon integrity check failed!" +:+ nl +:+
                          "Expected: " +:+ show_string (addon_hash addon) +:+ nl +:+
                          "Got: " +:+ actualHash +:+ nl +:+
                          "The addon may have been tampered with or rebuilt."))))
                  else
                    match stat_size h with
                    | Throw err => Throw err
                    | Normal size =>
                        if decide (addon_size addon ≠ Some size) then
                          Normal (mkIntegrityResult false None
                            (Some (new_Error
                               ("Native addon size mismatch!" +:+ nl +:+
                                "Expected: " +:+ show_number (addon_size addon)
                                +:+ " bytes" +:+ nl +:+
                                "Got: " +:+ pretty size +:+ " bytes"))))
                        else Normal (mkIntegrityResult true None None)
                    end
              end
          end
      end
  end.

Definition verifyAddonIntegrity (h : Host) : IntegrityResult :=
  if negb (manifest_exists h) then
    mkIntegrityResult false
      (Some "No addon-manifest.json found. Addon integrity cannot be verified.")
      None
  else
    match verify_body h with
    | Normal result => result
    | Throw err =>
        mkIntegrityResult false
          (Some ("Could not verify addon integrity: " +:+ error_message err))
          None
    end.

Definition log (ev : Event) : M State unit :=
  modify (λ st, mkState (native st) (nativeAvailable st)
                  (initializationError st) (integrityVerified st)
                  (integrityError st) (trace st ++ [ev])).

Definition set_native (v : option NativeModule) : M State unit :=
  modify (λ st, mkState v (nativeAvailable st) (initializationError st)
                  (integrityVerified st) (integrityError st) (trace st)).
Definition set_nativeAvailable (v : bool) : M State unit :=
  modify (λ st, mkState (native st) v (initializationError st)
                  (integrityVerified st) (integrityError st) (trace st)).
Definition set_initializationError (v : option JsError) : M State unit :=
  modify (λ st, mkState (native st) (nativeAvailable st) v
                  (integrityVerified st) (integrityError st) (trace st)).
Definition set_integrityVerified (v : bool) : M State unit :=
  modify (λ st, mkState (native st) (nativeAvailable st)
                  (initializationError st) v (integrityError st) (trace st)).
Definition set_integrityError (v : option JsError) : M State unit :=
  modify (λ st, mkState (native st) (nativeAvailable st)
                  (initializationError st) (integrityVerified st) v (trace st)).

(** A call that may throw, of something outside the module. *)
Definition outcome {A} (c : Completion A) : M State A := λ st, (c, st).

(** The body of the [try] block of [loadNativeAddon]. *)
Definition load_body (h : Host) : M State bool :=
  if negb (addon_exists h) then
    set_initializationError (Some (new_Error "Native addon not built")) ;;;
    set_nativeAvailable false ;;;
    ret false
  else
    let integrityResult := verifyAddonIntegrity h in
    set_integrityVerified (verified integrityResult) ;;;
    match error integrityResult with
    | Some err =>
        log (ConsoleError ("[dotnope] SECURITY WARNING: " +:+ error_message err)) ;;;
        log (ConsoleError
               "[dotnope] Native addon will NOT be loaded. Falling back to JavaScript.") ;;;
        set_integrityError (Some err) ;;;
        set_initializationError (Some err) ;;;
        set_nativeAvailable false ;;;
        ret false
    | None =>
        (match warning integrityResult with
         | Some w =>
             if decide (w = "") then ret tt
             else log (ConsoleWarn ("[dotnope] " +:+ w))
         | None => ret tt
         end) ;;;
        log RequireAddon ;;;
        let* addon := outcome (require_addon h) in
        set_native (Some addon) ;;;
        set_nativeAvailable true ;;;
        log (NativeInitialize (module_path h)) ;;;
        outcome (native_initialize addon (module_path h)) ;;;
        ret true
    end.

Definition loadNativeAddon (h : Host) : M State bool :=
  let* alreadyTried :=
    gets (λ st, match native st, initializationError st with
                | None, None => false
                | _, _ => true
                end) in
  if alreadyTried then gets nativeAvailable
  else
    try_catch (load_body h)
      (λ err,
         set_initializationError (Some err) ;;;
         set_native None ;;;
         set_nativeAvailable false ;;;
         ret false).

Definition isNativeAvailable (h : Host) : M State bool :=
  let* n := gets native in
  (match n with
   | None => loadNativeAddon h ;;; ret tt
   | Some _ => ret tt
   end) ;;;
  gets nativeAvailable.

Definition getInitializationError : M State (option JsError) :=
  gets initializationError.

(** [getCallerInfo(skipFrames)]; [null] is [None]. *)
Definition getCallerInfo (h : Host) (skipFrames : nat)
  : M State (option NativeCallerInfo) :=
  let* available := isNativeAvailable h in
  if available then
    let* n := gets native in
    match n with
    | Some addon => ret (native_getCallerInfo addon skipFrames)
    | None => throw (new_TypeError "Cannot read properties of null")
    end
  else ret None.

Definition getAsyncContext (h : Host) : M State (option string) :=
  let* available := isNativeAvailable h in
  if available then
    let* n := gets native in
    match n with
    | Some addon => ret (native_getAsyncContext addon)
    | None => throw (new_TypeError "Cannot read properties of null")
    end
  else ret None.

Definition isIntegrityVerified : M State bool := gets integrityVerified.

Definition getIntegrityError : M State (option JsError) := gets integrityError.

Record SecurityStatus := mkSecurityStatus {
  status_nativeAvailable : bool;
  status_integrityVerified : bool;
  status_hasIntegrityError : bool;
  status_initializationError : option string
}.

Definition getSecurityStatus : M State SecurityStatus :=
  gets (λ st, mkSecurityStatus (nativeAvailable st) (integrityVerified st)
                (bool_decide (is_Some (integrityError st)))
                (error_message <$> initializationError st)).

(** *** Example hosts *)

Definition example_addon : NativeModule :=
  mkNativeModule (λ _, Normal tt) (λ _, None) None.

(** An addon whose hash is not the one the manifest records. *)
Definition tampered_host : Host :=
  mkHost true
    (Normal (mkManifest (Some (mkAddonEntry (Some "sha256") (Some "aaaa") (Some 4%Z)))))
    true
    (Normal [Byte.x7f; Byte.x45; Byte.x4c; Byte.x46])
    (λ _ _, Normal "bbbb")
    (Normal 4%Z)
    (Normal example_addon)
    "/app/node_modules/dotnope".

(** A manifest that exists but does not parse. *)
Definition unparsable_manifest_host : Host :=
  mkHost true
    (Throw (mkError "SyntaxError" "Unexpected end of JSON input" None))
    true
    (Normal [Byte.x7f; Byte.x45; Byte.x4c; Byte.x46])
    (λ _ _, Normal "bbbb")
    (Normal 4%Z)
    (Normal example_addon)
    "/app/node_modules/dotnope".

End NativeBridge.

(** ** scripts/generate-addon-manifest.js

    The script runs in the surroundings of the native bridge: its
    [ADDON_PATH] and [MANIFEST_PATH] are the two files that
    [loadNativeAddon] and [verifyAddonIntegrity] read, since [scripts]
    and [lib] are directories of the same package.  What it prints is
    left out. *)
Module GenerateAddonManifest.
Import Js.

(** How a run of the script ends: [process.exit(code)], the manifest
    written (as far as the bridge reads it back: the [addon] record with
    its [algorithm], [hash] and [size]), or an exception that nothing
    catches, be it of reading the addon or of writing the manifest. *)
Inductive Outcome :=
| Exited (code : Z)
| Written (manifest : NativeBridge.Manifest)
| Uncaught (err : JsError).

(** [writeFileSync] is [fs.writeFileSync(MANIFEST_PATH, ...)]. *)
Definition generateManifest (h : NativeBridge.Host)
    (writeFileSync : NativeBridge.Manifest → Completion unit) : Outcome :=
  if negb (NativeBridge.addon_exists h) then Exited 1
  else
    match NativeBridge.read_addon h with
    | Throw err => Uncaught err
    | Normal addonBuffer =>
        match NativeBridge.digest_hex h "sha256" addonBuffer with
        | Throw err => Uncaught err
        | Normal hash =>
            match NativeBridge.stat_size h with
            | Throw err => Uncaught err
            | Normal size =>
                let manifest :=
                  NativeBridge.mkManifest
                    (Some (NativeBridge.mkAddonEntry
                             (Some "sha256") (Some hash) (Some size))) in
                match writeFileSync manifest with
                | Throw err => Uncaught err
                | Normal _ => Written manifest
                end
            end
        end
    end.

(** The exit status of the process: the argument of [process.exit],
    0 when the script runs to its end, and 1 when an exception is not
    caught. *)
Definition exit_status (outcome : Outcome) : Z :=
  match outcome with
  | Exited code => code
  | Written _ => 0
  | Uncaught _ => 1
  end.

End GenerateAddonManifest.

(** ** lib/stack-parser.js *)
Module StackParser.
Import Js.

(** *** The [Error] constructor, as far as the module touches it *)

(** The value of [Error.prepareStackTrace] when it is a function: a
    function installed by other code, or the raw identity hook
    [(err, stack) => stack] of this module. *)
Inductive Hook :=
| UserHook (id : nat)
| RawHook.

(** An own data property. *)
Record DataProperty (V : Type) := mkDataProperty {
  value : V;
  writable : bool;
  configurable : bool
}.
Global Arguments mkDataProperty {V} value writable configurable.
Global Arguments value {V} d.
Global Arguments writable {V} d.
Global Arguments configurable {V} d.

(** The two properties of [Error] that the module reads and writes;
    [None] is a property that [Error] does not have, and a value [None]
    is [undefined]. *)
Record ErrorObject := mkErrorObject {
  own_prepareStackTrace : option (DataProperty (option Hook));
  own_stackTraceLimit : option (DataProperty (option Z));
  extensible : bool
}.

(** [Error] in a fresh runtime: no [prepareStackTrace], and a limit of
    ten frames. *)
Definition pristine_Error : ErrorObject :=
  mkErrorObject None (Some (mkDataProperty (Some 10%Z) true true)) true.

(** Reading a property: [undefined] when it is absent. *)
Definition read {V} (p : option (DataProperty (option V))) : option V :=
  match p with
  | Some d => value d
  | None => None
  end.

(** Strict-mode assignment [Error.p = v]; [None] is the [TypeError] for
    a read-only property, or for a new property of a non-extensible
    object. *)
Definition assign {V} (p : option (DataProperty V)) (extensible : bool) (v : V)
  : option (option (DataProperty V)) :=
  match p with
  | Some d =>
      if writable d then Some (Some (mkDataProperty v true (configurable d)))
      else None
  | None =>
      if extensible then Some (Some (mkDataProperty v true true)) else None
  end.

(** [Object.defineProperty(Error, p, {value: undefined, writable: false,
    configurable: false})]; [None] is the [TypeError] for a new property
    of a non-extensible object, or for a read-only non-configurable
    property that holds another value. *)
Definition define_frozen_undefined {V}
    (p : option (DataProperty (option V))) (extensible : bool)
  : option (option (DataProperty (option V))) :=
  match p with
  | None =>
      if extensible then Some (Some (mkDataProperty None false false)) else None
  | Some d =>
      if negb (configurable d) && negb (writable d)
         && bool_decide (is_Some (value d))
      then None
      else Some (Some (mkDataProperty None false false))
  end.

(** *** Stack frames and results *)

(** A call site of the engine, by the results of its methods. *)
Record Frame := mkFrame {
  getFileName : option string;
  getFunctionName : option string;
  getLineNumber : option Z;
  getColumnNumber : option Z;
  isEval : bool;
  getEvalOrigin : option string;
  isConstructor : bool
}.

(** The object that [getCallingPackage] returns. *)
Record CallerInfo := mkCallerInfo {
  packageName : string;
  fileName : string;
  lineNumber : option Z;
  columnNumber : option Z;
  functionName : string;
  callerIsEval : bool;
  callerIsConstructor : option bool;
  isAsync : bool
}.

(** The surroundings of the module: the surroundings of the native
    bridge, and the [name] in the package.json of a directory ([None]
    when reading or parsing it throws). *)
Record Host := mkHost {
  bridge_host : NativeBridge.Host;
  package_json_name : string → option string
}.

(** The module variables of stack-parser.js, the [Error] constructor,
    the state of the native bridge it requires, and the console. *)
Record State := mkState {
  Error_ : ErrorObject;
  tamperingDetected : bool;
  packageCache : gmap string string;
  bridge : NativeBridge.State;
  console : list string
}.

(** *** Module initialisation *)

(** The top level of the file: tampering is detected when
    [Error.prepareStackTrace] is already set, and otherwise the
    property is frozen at [undefined] (a failure to do so is caught and
    ignored).  The freezing of [Error.captureStackTrace] concerns
    neither of the two properties and is left out. *)
Definition load (E : ErrorObject) : State :=
  let prepareStackTraceAtLoad := read (own_prepareStackTrace E) in
  match prepareStackTraceAtLoad with
  | Some _ =>
      mkState E true ∅ NativeBridge.loaded
        [ "[dotnope] WARNING: Error.prepareStackTrace was modified before dotnope loaded!";
          "[dotnope] Stack trace analysis may be compromised.";
          "[dotnope] For maximum security, ensure dotnope loads first or build the native addon." ]
  | None =>
      let E' :=
        match define_frozen_undefined (own_prepareStackTrace E) (extensible E) with
        | Some p => mkErrorObject p (own_stackTraceLimit E) (extensible E)
        | None => E
        end in
      mkState E' false ∅ NativeBridge.loaded []
  end.

(** *** Assignments to [Error] *)

Definition with_Error (E : ErrorObject) (st : State) : State :=
  mkState E (tamperingDetected st) (packageCache st) (bridge st) (console st).

(** [Error.stackTraceLimit = v] *)
Definition set_stackTraceLimit (v : option Z) : M State unit :=
  λ st,
    let E := Error_ st in
    match assign (own_stackTraceLimit E) (extensible E) v with
    | Some p =>
        (Normal tt,
         with_Error (mkErrorObject (own_prepareStackTrace E) p (extensible E)) st)
    | None =>
        (Throw (new_TypeError
                  "Cannot assign to read only property 'stackTraceLimit' of function 'Error'"),
         st)
    end.

(** [Error.prepareStackTrace = v] *)
Definition set_prepareStackTrace (v : option Hook) : M State unit :=
  λ st,
    let E := Error_ st in
    match assign (own_prepareStackTrace E) (extensible E) v with
    | Some p =>
        (Normal tt,
         with_Error (mkErrorObject p (own_stackTraceLimit E) (extensible E)) st)
    | None =>
        (Throw (new_TypeError
                  "Cannot assign to read only property 'prepareStackTrace' of function 'Error'"),
         st)
    end.

Definition get_prepareStackTrace : M State (option Hook) :=
  gets (λ st, read (own_prepareStackTrace (Error_ st))).

Definition get_stackTraceLimit : M State (option Z) :=
  gets (λ st, read (own_stackTraceLimit (Error_ st))).

(** *** Eval detection *)

Definition EVAL_FUNCTION_NAMES : list string := ["eval"; "Function"; "anonymous"].

(** The patterns [/^eval at/], [/^\[eval\]/], [/^<anonymous>/] and
    [/^evalmachine\./], each a literal prefix. *)
Definition EVAL_FILENAME_PATTERNS : list string :=
  ["eval at"; "[eval]"; "<anonymous>"; "evalmachine."].

Definition INTERNAL_PATHS : list string :=
  [ "lib/proxy.js"; "lib/stack-parser.js"; "lib/dotnope.js";
    "lib/config-loader.js"; "lib/dependency-resolver.js" ].

Definition detectEvalContext (frame : Frame) : bool :=
  if isEval frame then true
  else if bool_decide (is_Some (getEvalOrigin frame))
          && negb (bool_decide (getEvalOrigin frame = Some ""))
  then true
  else
    let funcName := default "" (getFunctionName frame) in
    if existsb (λ evalName, String.eqb funcName evalName
                            || includes evalName funcName)
         EVAL_FUNCTION_NAMES
    then true
    else
      let fileName := default "" (getFileName frame) in
      if existsb (λ pattern, startsWith pattern fileName) EVAL_FILENAME_PATTERNS
      then true
      else
        bool_decide (fileName = "")
        && negb (bool_decide (funcName = ""))
        && negb (bool_decide (funcName = "<anonymous>")).

Definition hasEvalInStack (stack : list Frame) : bool :=
  existsb detectEvalContext stack.

(** *** Package names *)

Definition isInternalFile (h : Host) (filePath : string) : bool :=
  let normalized := Path.normalize filePath in
  let in_dotnope := includes ("node_modules" +:+ Path.sep +:+ "dotnope" +:+ Path.sep)
                      normalized in
  if existsb (λ internalPath, in_dotnope && endsWith internalPath normalized)
       INTERNAL_PATHS
  then true
  else if in_dotnope
          && (endsWith ("dotnope" +:+ Path.sep +:+ "index.js") normalized
              || endsWith ("dotnope" +:+ Path.sep +:+ "index.mjs") normalized)
  then true
  else
    let dirName := Path.dirname normalized in
    if endsWith (Path.sep +:+ "lib") dirName
       && negb (includes "node_modules" normalized)
       && existsb (λ p, endsWith p normalized) INTERNAL_PATHS
    then
      let possibleRoot := Path.dirname dirName in
      bool_decide (package_json_name h possibleRoot = Some "dotnope")
    else false.

(** The body of [extractPackageName] between the cache lookup and the
    cache update.  [parts[1]] inside the template literal prints as
    [undefined] when there is no second part; [split] never yields an
    empty array, so the last branch is not taken. *)
Definition packageNameOf (filePath : string) : string :=
  let normalized := Path.normalize filePath in
  let marker := Path.sep +:+ "node_modules" +:+ Path.sep in
  match lastIndexOf marker normalized with
  | None => "__main__"
  | Some nodeModulesIndex =>
      let afterNodeModules :=
        slice (nodeModulesIndex + String.length marker) normalized in
      let parts := split Path.sep_char afterNodeModules in
      match parts with
      | part0 :: rest =>
          if negb (bool_decide (part0 = "")) && startsWith "@" part0
          then part0 +:+ "/" +:+ default "undefined" (head rest)
          else part0
      | [] => "undefined"
      end
  end.

Definition extractPackageName (filePath : string) : M State string :=
  λ st,
    match packageCache st !! filePath with
    | Some cached => (Normal cached, st)
    | None =>
        let packageName := packageNameOf filePath in
        (Normal packageName,
         mkState (Error_ st) (tamperingDetected st)
           (<[filePath := packageName]> (packageCache st))
           (bridge st) (console st))
    end.

Definition clearCache : M State unit :=
  modify (λ st, mkState (Error_ st) (tamperingDetected st) ∅ (bridge st)
                  (console st)).

(** *** The fallback backend *)

(** The loop over the frames, from index [skipFrames] on. *)
Fixpoint walk (h : Host) (evalDetectedInStack : bool) (frames : list Frame)
  : M State (option CallerInfo) :=
  match frames with
  | [] => ret None
  | frame :: rest =>
      match getFileName frame with
      | None => walk h evalDetectedInStack rest
      | Some fileName =>
          if bool_decide (fileName = "") then walk h evalDetectedInStack rest
          else if startsWith "node:" fileName || startsWith "internal/" fileName
          then walk h evalDetectedInStack rest
          else if isInternalFile h fileName then walk h evalDetectedInStack rest
          else
            let* packageName := extractPackageName fileName in
            ret (Some (mkCallerInfo packageName fileName
                         (getLineNumber frame) (getColumnNumber frame)
                         (match getFunctionName frame with
                          | Some name => if decide (name = "") then "<anonymous>" else name
                          | None => "<anonymous>"
                          end)
                         (detectEvalContext frame || evalDetectedInStack)
                         (Some (isConstructor frame))
                         false))
      end
  end.

(** [new Error(); originalCaptureStackTrace.call(Error, err, fn);
    err.stack] while the raw hook is installed: the call sites of the
    callers, at most [Error.stackTraceLimit] of them, unless the capture
    itself throws ([captured] is its completion without the limit). *)
Definition capture_stack (captured : Completion (list Frame))
  : M State (list Frame) :=
  let* limit := get_stackTraceLimit in
  match captured with
  | Normal frames => ret (take (Z.to_nat (default 0%Z limit)) frames)
  | Throw err => throw err
  end.

Definition getCallingPackageJS (h : Host) (captured : Completion (list Frame))
    (skipFrames : nat) : M State (option CallerInfo) :=
  let* savedPrepareStackTrace := get_prepareStackTrace in
  let* savedStackTraceLimit := get_stackTraceLimit in
  try_finally
    (set_stackTraceLimit (Some 30%Z) ;;;
     set_prepareStackTrace (Some RawHook) ;;;
     let* stack := capture_stack captured in
     if bool_decide (stack = []) then ret None
     else
       let evalDetectedInStack := hasEvalInStack stack in
       walk h evalDetectedInStack (drop skipFrames stack))
    (set_prepareStackTrace savedPrepareStackTrace ;;;
     set_stackTraceLimit savedStackTraceLimit).

(** One line of [getFormattedStack]. *)
Definition format_frame (frame : Frame) : string :=
  let fileName :=
    match getFileName frame with
    | Some name => if decide (name = "") then "<unknown>" else name
    | None => "<unknown>"
    end in
  let lineNumber :=
    match getLineNumber frame with
    | Some n => if decide (n = 0%Z) then "?" else pretty n
    | None => "?"
    end in
  let functionName :=
    match getFunctionName frame with
    | Some name => if decide (name = "") then "<anonymous>" else name
    | None => "<anonymous>"
    end in
  "    at " +:+ functionName +:+ " (" +:+ fileName +:+ ":" +:+ lineNumber +:+ ")".

Definition getFormattedStack (captured : Completion (list Frame))
    (skipFrames : nat) : M State string :=
  let* savedPrepareStackTrace := get_prepareStackTrace in
  let* savedStackTraceLimit := get_stackTraceLimit in
  try_finally
    (set_stackTraceLimit (Some 15%Z) ;;;
     set_prepareStackTrace (Some RawHook) ;;;
     let* stack := capture_stack captured in
     ret (array_join NativeBridge.nl
            (format_frame <$> take 10 (drop skipFrames stack))))
    (set_prepareStackTrace savedPrepareStackTrace ;;;
     set_stackTraceLimit savedStackTraceLimit).

(** *** The entry point *)

(** A call of an exported function of the native bridge. *)
Definition in_bridge {A} (m : M NativeBridge.State A) : M State A :=
  λ st,
    let '(r, b) := m (bridge st) in
    (r, mkState (Error_ st) (tamperingDetected st) (packageCache st) b
          (console st)).

Definition getCallingPackage (h : Host) (captured : Completion (list Frame))
    (skipFrames : nat) : M State (option CallerInfo) :=
  let* available := in_bridge (NativeBridge.isNativeAvailable (bridge_host h)) in
  let* answered :=
    (if available then
       let* nativeResult :=
         in_bridge (NativeBridge.getCallerInfo (bridge_host h) (skipFrames + 1)) in
       match nativeResult with
       | Some r =>
           ret (Some (mkCallerInfo
                        (NativeBridge.n_packageName r)
                        (NativeBridge.n_fileName r)
                        (Some (NativeBridge.n_lineNumber r))
                        (Some (NativeBridge.n_columnNumber r))
                        (match NativeBridge.n_functionName r with
                         | Some name => if decide (name = "") then "<anonymous>" else name
                         | None => "<anonymous>"
                         end)
                        (default false (NativeBridge.n_isEval r))
                        (Some (default false (NativeBridge.n_isConstructor r)))
                        false))
       | None =>
           let* asyncContext :=
             in_bridge (NativeBridge.getAsyncContext (bridge_host h)) in
           match asyncContext with
           | Some context =>
               if bool_decide (context = "") || bool_decide (context = "__main__")
               then ret None
               else ret (Some (mkCallerInfo context "<async>" (Some 0%Z) (Some 0%Z)
                                 "<promise>" false None true))
           | None => ret None
           end
       end
     else ret None) in
  match answered with
  | Some info => ret (Some info)
  | None => getCallingPackageJS h captured skipFrames
  end.

Definition wasTamperingDetected : M State bool := gets tamperingDetected.

End StackParser.

(** * Vocabulary of the properties

    Notions in which the properties below are stated; they are not part
    of the sources. *)

Section PolicyVocabulary.
Import PreloadGenerator.

(** Adding a whole array to the [Set]. *)
Definition add_all (arr allowedVars : list string) : list string :=
  foldl (λ s v, Js.set_add v s) allowedVars arr.

(** The configuration of the specification's serialization scenario. *)
Definition scenario_config : Config :=
  [ ("a", mkPackageConfig (Some ["X"; "Y"]) None None);
    ("b", mkPackageConfig None (Some ["Z"]) None) ].

(** A package that may delete (hence, by the specification, read) a
    variable it lists nowhere else. *)
Definition delete_only_config : Config :=
  [ ("logger", mkPackageConfig (Some ["LOG_LEVEL"]) None (Some ["TMP_TOKEN"])) ].

End PolicyVocabulary.

Section ProxyVocabulary.
Import Js Proxy.
Context {T : Type} `{EnvStore T}.

(** The calls of the access-check function so far. *)
Definition check_calls (st : State T) : list Event :=
  filter (λ ev, is_CheckCall ev = true) (trace st).

(** The accesses to the underlying store so far. *)
Definition store_accesses (st : State T) : list Event :=
  filter (λ ev, is_store_access ev = true) (trace st).

(** One call into the module, or one trap of the proxy. *)
Inductive Call :=
| CallCreateEnvProxy (checkFn : option CheckFn) (options : Options) (now : Z)
| CallEnable
| CallDisable
| CallRestore
| CallSetFilterKeysFn (filterFn : option FilterFn)
| TrapGet (prop : PropKey) (receiver : nat)
| TrapSet (prop : PropKey) (value : JsValue)
| TrapHas (prop : PropKey)
| TrapDeleteProperty (prop : PropKey)
| TrapOwnKeys
| TrapGetOwnPropertyDescriptor (prop : PropKey)
| TrapDefineProperty (prop : PropKey) (descriptor : Descriptor).

(** The state after a call, however the call completes. *)
Definition after (c : Call) (st : State T) : State T :=
  match c with
  | CallCreateEnvProxy checkFn options now =>
      (createEnvProxy checkFn options now st).2
  | CallEnable => (enable st).2
  | CallDisable => (disable st).2
  | CallRestore => (restore st).2
  | CallSetFilterKeysFn filterFn => (setFilterKeysFn filterFn st).2
  | TrapGet prop receiver => (get prop receiver st).2
  | TrapSet prop value => (set prop value st).2
  | TrapHas prop => (has prop st).2
  | TrapDeleteProperty prop => (deleteProperty prop st).2
  | TrapOwnKeys => (ownKeys st).2
  | TrapGetOwnPropertyDescriptor prop => (getOwnPropertyDescriptor prop st).2
  | TrapDefineProperty prop descriptor => (defineProperty prop descriptor st).2
  end.

(** The states the module can be in: the freshly loaded module, and
    whatever a sequence of calls and traps makes of it. *)
Inductive reachable : State T → Prop :=
| reachable_loaded env : reachable (loaded env)
| reachable_after c st : reachable st → reachable (after c st).

(** The module variables other than the store and the trace. *)
Definition module_vars (st : State T) :=
  (originalEnv st, proxyEnv st, isEnabled st, checkAccessFn st,
   filterKeysFn st, proxyOptions st, proxyInstalledAt st, process_env st).

(** [checkAccessFn] and [proxyOptions] are set and cleared
    together. *)
Definition options_follow_check (st : State T) : Prop :=
  is_Some (checkAccessFn st) → is_Some (proxyOptions st).

End ProxyVocabulary.

Section BridgeVocabulary.
Import Js NativeBridge.

(** The algorithm that [verifyAddonIntegrity] hashes with. *)
Definition algorithm_of (addon : AddonEntry) : string :=
  match addon_algorithm addon with
  | Some a => if decide (a = "") then "sha256" else a
  | None => "sha256"
  end.

(** The manifest was read, the addon was read and hashed, and the hash
    is not the recorded one. *)
Definition hash_mismatch (h : Host) (addon : AddonEntry) (actualHash : string)
  : Prop :=
  ∃ manifest addonBuffer,
    read_manifest h = Normal manifest
    ∧ manifest_addon manifest = Some addon
    ∧ read_addon h = Normal addonBuffer
    ∧ digest_hex h (algorithm_of addon) addonBuffer = Normal actualHash
    ∧ addon_hash addon ≠ Some actualHash.

(** The hash is the recorded one, but the size of the file is not. *)
Definition size_mismatch (h : Host) (addon : AddonEntry) (size : Z) : Prop :=
  ∃ manifest addonBuffer actualHash,
    read_manifest h = Normal manifest
    ∧ manifest_addon manifest = Some addon
    ∧ read_addon h = Normal addonBuffer
    ∧ digest_hex h (algorithm_of addon) addonBuffer = Normal actualHash
    ∧ addon_hash addon = Some actualHash
    ∧ stat_size h = Normal size
    ∧ addon_size addon ≠ Some size.

Definition hash_error (addon : AddonEntry) (actualHash : string) : JsError :=
  new_Error
    ("Native addon integrity check failed!" +:+ nl +:+
     "Expected: " +:+ show_string (addon_hash addon) +:+ nl +:+
     "Got: " +:+ actualHash +:+ nl +:+
     "The addon may have been tampered with or rebuilt.").

Definition size_error (addon : AddonEntry) (size : Z) : JsError :=
  new_Error
    ("Native addon size mismatch!" +:+ nl +:+
     "Expected: " +:+ show_number (addon_size addon) +:+ " bytes" +:+ nl +:+
     "Got: " +:+ pretty size +:+ " bytes").

(** The integrity error of a host, if verification finds one. *)
Definition mismatch (h : Host) (err : JsError) : Prop :=
  manifest_exists h = true
  ∧ ((∃ addon actualHash, hash_mismatch h addon actualHash
                          ∧ err = hash_error addon actualHash)
     ∨ (∃ addon size, size_mismatch h addon size ∧ err = size_error addon size)).

(** Verification could not be carried out: something threw. *)
Definition verification_throws (h : Host) (err : JsError) : Prop :=
  manifest_exists h = true ∧ verify_body h = Throw err.

(** The states in which the addon was refused for [err]. *)
Definition refused (err : JsError) (st : State) : Prop :=
  native st = None
  ∧ nativeAvailable st = false
  ∧ integrityVerified st = false
  ∧ integrityError st = Some err
  ∧ initializationError st = Some err.

(** Modelled from the spec: the loader reports the error kind [kind]
    on status.  The kinds of the specification are the [code] of the
    error objects; the status reports one when the integrity error
    that the status functions give carries it as its code, or when the
    status object names it in its text. *)
Definition status_reports_kind (kind : string) (st : State) : Prop :=
  (∃ err, (getIntegrityError st).1 = Normal (Some err)
          ∧ error_code err = Some kind)
  ∨ (∃ status message,
       (getSecurityStatus st).1 = Normal status
       ∧ status_initializationError status = Some message
       ∧ includes kind message = true).

(** What [loadNativeAddon] added to the trace. *)
Definition new_events (before after : State) : list Event :=
  drop (length (trace before)) (trace after).

(** The manifest exists, and reading or parsing it, or reading the
    addon file, throws [err]. *)
Definition reading_throws (h : Host) (err : JsError) : Prop :=
  manifest_exists h = true
  ∧ (read_manifest h = Throw err
     ∨ ∃ manifest, read_manifest h = Normal manifest ∧ read_addon h = Throw err).

End BridgeVocabulary.

Section MonadVocabulary.
Import Js.
Context {S X : Type} (f : S → X).

(** [m] does not change the part [f] of the state, however it
    completes. *)
Definition keeps {A} (m : M S A) : Prop := ∀ s, f (m s).2 = f s.

End MonadVocabulary.

Section StringVocabulary.
Import Js.

(** [p] occurs in [s] at index [i]. *)
Definition occurs_at (p s : string) (i : nat) : Prop :=
  ∃ pre post, s = pre +:+ p +:+ post ∧ String.length pre = i.

(** [name] is the first segment of [s]: it holds no separator, and is
    the whole of [s] or is followed in [s] by a separator. *)
Definition first_segment (s name : string) : Prop :=
  includes Path.sep name = false
  ∧ (s = name ∨ ∃ tail, s = name +:+ Path.sep +:+ tail).

End StringVocabulary.

Section StackVocabulary.
Import Js StackParser.

(** The values that reading the two properties of [Error] gives. *)
Definition hook_of (st : State) : option Hook :=
  read (own_prepareStackTrace (Error_ st)).
Definition limit_of (st : State) : option Z :=
  read (own_stackTraceLimit (Error_ st)).

(** Both properties can be assigned to. *)
Definition assignable (E : ErrorObject) : Prop :=
  match own_prepareStackTrace E with
  | Some d => writable d = true
  | None => extensible E = true
  end
  ∧ match own_stackTraceLimit E with
    | Some d => writable d = true
    | None => extensible E = true
    end.

(** What the two capture routines have in common: save, set the limit
    and the raw hook, run a body that leaves [Error] alone, and restore
    in [finally]. *)
Definition capture_with {A} (limit : Z) (body : M State A) : M State A :=
  let* savedPrepareStackTrace := get_prepareStackTrace in
  let* savedStackTraceLimit := get_stackTraceLimit in
  try_finally
    (set_stackTraceLimit (Some limit) ;;;
     set_prepareStackTrace (Some RawHook) ;;;
     body)
    (set_prepareStackTrace savedPrepareStackTrace ;;;
     set_stackTraceLimit savedStackTraceLimit).

(** The module loaded in a fresh runtime: no tampering is detected, and
    [Error.prepareStackTrace] has been frozen at [undefined]. *)
Definition fresh_module : State := load pristine_Error.

(** The marker [`${path.sep}node_modules${path.sep}`]. *)
Definition node_modules_marker : string :=
  Path.sep +:+ "node_modules" +:+ Path.sep.

(** [normalized] is [pre], then the last occurrence of the marker, then
    [rest]. *)
Definition last_marker (normalized pre rest : string) : Prop :=
  normalized = pre +:+ node_modules_marker +:+ rest
  ∧ ∀ j, occurs_at node_modules_marker normalized j → j ≤ String.length pre.

(** The identity that a normalized path stands for: [__main__] when the
    marker does not occur in it; otherwise the segment that follows the
    last marker, joined with the segment after it when it begins with
    [@] (with the text [undefined] when there is none). *)
Inductive derived_identity (normalized : string) : string → Prop :=
| identity_main :
    (∀ i, ¬ occurs_at node_modules_marker normalized i) →
    derived_identity normalized "__main__"
| identity_package pre rest name :
    last_marker normalized pre rest →
    first_segment rest name →
    startsWith "@" name = false →
    derived_identity normalized name
| identity_scoped pre scope tail name :
    last_marker normalized pre (scope +:+ Path.sep +:+ tail) →
    includes Path.sep scope = false →
    startsWith "@" scope = true →
    first_segment tail name →
    derived_identity normalized (scope +:+ "/" +:+ name)
| identity_scope_alone pre scope :
    last_marker normalized pre scope →
    includes Path.sep scope = false →
    startsWith "@" scope = true →
    derived_identity normalized (scope +:+ "/undefined").

(** The identity as the specification words it, on the segments of the
    path as given: the segment after the last [node_modules] segment,
    joined with the next one when it begins with [@]; [__main__] when no
    segment is [node_modules]. *)
Inductive claimed_identity (filePath : string) : string → Prop :=
| claimed_main :
    "node_modules" ∉ split Path.sep_char filePath →
    claimed_identity filePath "__main__"
| claimed_package before name after :
    split Path.sep_char filePath = before ++ "node_modules" :: name :: after →
    "node_modules" ∉ name :: after →
    startsWith "@" name = false →
    claimed_identity filePath name
| claimed_scoped before scope name after :
    split Path.sep_char filePath
      = before ++ "node_modules" :: scope :: name :: after →
    "node_modules" ∉ scope :: name :: after →
    startsWith "@" scope = true →
    claimed_identity filePath (scope +:+ "/" +:+ name).

(** Every cached name is the name computed from its path. *)
Definition cache_coherent (st : State) : Prop :=
  ∀ filePath name,
    packageCache st !! filePath = Some name → name = packageNameOf filePath.

End StackVocabulary.

(** * Further notions

    The rest of the vocabulary: notions in which the further
    properties at the end of the file are stated. *)

Section ProxyTrapVocabulary.
Import Js Proxy.
Context {T : Type} `{EnvStore T}.

(** A property read without check: [Reflect.get] with the receiver for
    a symbol and for the key [inspect], [target[prop]] otherwise. *)
Definition plain_get (prop : PropKey) (receiver : nat) : M (State T) JsValue :=
  match prop with
  | KSymbol _ => Reflect_get prop receiver
  | KString name =>
      if bool_decide (name = "inspect") then Reflect_get prop receiver
      else target_get prop
  end.

End ProxyTrapVocabulary.

Section ProxyRunVocabulary.
Import Js Proxy.
Context {T : Type} `{EnvStore T}.

(** The calls that are traps of the proxy. *)
Definition is_trap (c : Call) : bool :=
  match c with
  | TrapGet _ _ | TrapSet _ _ | TrapHas _ | TrapDeleteProperty _
  | TrapOwnKeys | TrapGetOwnPropertyDescriptor _ | TrapDefineProperty _ _ => true
  | _ => false
  end.

(** The calls that install a proxy. *)
Definition is_install (c : Call) : bool :=
  match c with CallCreateEnvProxy _ _ _ => true | _ => false end.

(** The state after a sequence of calls, first call first. *)
Definition after_all (calls : list Call) (st : State T) : State T :=
  foldl (λ s c, after c s) st calls.

(** The module is not installed: [process.env] is the environment
    object itself and nothing of an installation is left. *)
Definition uninstalled (st : State T) : Prop :=
  process_env st = EnvObject
  ∧ proxyEnv st = None
  ∧ checkAccessFn st = None
  ∧ proxyOptions st = None.

(** The module is installed: [process.env] is the one proxy, directly
    around the environment object. *)
Definition installed (st : State T) : Prop :=
  process_env st = ProxyOf EnvObject
  ∧ proxyEnv st = Some (ProxyOf EnvObject)
  ∧ originalEnv st = Some EnvObject
  ∧ is_Some (proxyOptions st).

End ProxyRunVocabulary.

Section ProxyExamples.
Import Proxy.

(** A filter that shows only [PORT]. *)
Definition only_port : FilterFn :=
  λ allKeys, Some (filter (λ k, k = KString "PORT") allKeys).

End ProxyExamples.

Section PreloadVocabulary.
Import PreloadGenerator.

(** The keys of [environmentWhitelist] that never become a package of
    the policy: the options, and the key that plain assignment does not
    store. *)
Definition reserved_key (key : string) : Prop :=
  key = "__options__" ∨ key = "__proto__".

(** The variables that a value of [environmentWhitelist] grants to
    read. *)
Definition raw_vars (rawConfig : RawConfig) : list string :=
  match rawConfig with
  | RawObject raw => read_write_vars raw
  | RawArray vars => vars
  | RawOther => []
  end.

(** The variables of all entries but the reserved ones. *)
Definition whitelist_vars (whitelist : Whitelist) : list string :=
  mbind (λ e : string * RawConfig, raw_vars e.2)
    (filter (λ e, ¬ reserved_key e.1) whitelist).

(** What the normalisation makes of one value. *)
Definition normalizeEntry (rawConfig : RawConfig) : option PackageConfig :=
  match rawConfig with
  | RawObject raw =>
      Some (mkPackageConfig (Some (default [] (allowed raw)))
              (Some (default [] (canWrite raw))) None)
  | RawArray vars => Some (mkPackageConfig (Some vars) (Some []) None)
  | RawOther => None
  end.

(** The events that [m] adds to the trace [t]. *)
Definition events_of {A} (m : Js.M (list Event) A) (t : list Event) : list Event :=
  drop (length t) (m t).2.

(** A host in which only the system-wide library exists and the
    package.json grants two variables to one package. *)
Definition example_host : Host :=
  mkHost "/app/node_modules/dotnope/lib"
    (λ p, bool_decide (p = "/usr/lib/libdotnope_preload.so"))
    (λ _, Js.Normal [ ("__options__", RawOther);
                      ("axios", RawArray ["HTTP_PROXY"]);
                      ("dotenv", RawObject (mkPackageConfig (Some ["NODE_ENV"]) None
                                              (Some ["TMP"]))) ])
    (Some "/opt/lib/libdotnope_preload.so").

End PreloadVocabulary.

Section BridgeRunVocabulary.
Import Js NativeBridge.

(** The calls of the exported functions that can change the module,
    each in the surroundings it is made in. *)
Inductive BridgeCall :=
| CallLoadNativeAddon (h : Host)
| CallIsNativeAvailable (h : Host)
| CallGetCallerInfo (h : Host) (skipFrames : nat)
| CallGetAsyncContext (h : Host).

Definition bridge_after (c : BridgeCall) (st : State) : State :=
  match c with
  | CallLoadNativeAddon h => (loadNativeAddon h st).2
  | CallIsNativeAvailable h => (isNativeAvailable h st).2
  | CallGetCallerInfo h skipFrames => (getCallerInfo h skipFrames st).2
  | CallGetAsyncContext h => (getAsyncContext h st).2
  end.

(** The states of the module in a run of the program. *)
Inductive bridge_reachable : State → Prop :=
| bridge_reachable_loaded : bridge_reachable loaded
| bridge_reachable_after c st :
    bridge_reachable st → bridge_reachable (bridge_after c st).

(** Loading was attempted before. *)
Definition tried (st : State) : Prop :=
  is_Some (native st) ∨ is_Some (initializationError st).

Definition is_RequireAddon (ev : Event) : bool :=
  match ev with RequireAddon => true | _ => false end.

(** How often the addon was required. *)
Definition require_count (st : State) : nat :=
  length (filter (λ ev, is_RequireAddon ev = true) (trace st)).

(** What holds of the module once loading was attempted: it is
    available exactly when it holds the addon, the addon was required
    at most once, and not at all when an integrity error is recorded. *)
Definition settled (st : State) : Prop :=
  tried st
  ∧ (nativeAvailable st = true ↔ is_Some (native st))
  ∧ require_count st ≤ 1
  ∧ (is_Some (integrityError st) → native st = None ∧ require_count st = 0).

(** The surroundings after a manifest was written. *)
Definition with_manifest (h : Host) (manifest : Manifest) : Host :=
  mkHost true (Normal manifest) (addon_exists h) (read_addon h) (digest_hex h)
    (stat_size h) (require_addon h) (module_path h).

(** An addon that is there, without a manifest. *)
Definition built_host : Host :=
  mkHost false (Throw (new_Error "ENOENT")) true
    (Normal [Byte.x7f; Byte.x45; Byte.x4c; Byte.x46])
    (λ _ _, Normal "bbbb") (Normal 4%Z) (Normal example_addon)
    "/app/node_modules/dotnope".

End BridgeRunVocabulary.

Section StackRunVocabulary.
Import Js StackParser.

(** [m] keeps the property [P] of the state. *)
Definition preserves {S A} (P : S → Prop) (m : M S A) : Prop :=
  ∀ s, P s → P (m s).2.

(** A frame that the walk over the stack does not skip: it has a file
    name, which is neither of the runtime nor of this package. *)
Definition eligible (h : Host) (frame : Frame) : bool :=
  match getFileName frame with
  | None => false
  | Some fileName =>
      negb (bool_decide (fileName = ""))
      && negb (startsWith "node:" fileName || startsWith "internal/" fileName)
      && negb (isInternalFile h fileName)
  end.

(** The caller information that the fallback backend builds from a
    frame. *)
Definition info_of (evalDetectedInStack : bool) (frame : Frame) : CallerInfo :=
  mkCallerInfo
    (packageNameOf (default "" (getFileName frame)))
    (default "" (getFileName frame))
    (getLineNumber frame) (getColumnNumber frame)
    (match getFunctionName frame with
     | Some name => if decide (name = "") then "<anonymous>" else name
     | None => "<anonymous>"
     end)
    (detectEvalContext frame || evalDetectedInStack)
    (Some (isConstructor frame))
    false.

(** The calls of the exported functions that can change the module or
    [Error]. *)
Inductive ParserCall :=
| CallExtractPackageName (filePath : string)
| CallClearCache
| CallGetCallingPackage (h : Host) (captured : Completion (list Frame))
    (skipFrames : nat)
| CallGetFormattedStack (captured : Completion (list Frame)) (skipFrames : nat).

Definition parser_after (c : ParserCall) (st : State) : State :=
  match c with
  | CallExtractPackageName filePath => (extractPackageName filePath st).2
  | CallClearCache => (clearCache st).2
  | CallGetCallingPackage h captured skipFrames =>
      (getCallingPackage h captured skipFrames st).2
  | CallGetFormattedStack captured skipFrames =>
      (getFormattedStack captured skipFrames st).2
  end.

(** The states of the module in a run of the program, loaded in a
    runtime whose [Error] was [E]. *)
Inductive parser_reachable (E : ErrorObject) : State → Prop :=
| parser_reachable_load : parser_reachable E (load E)
| parser_reachable_after c st :
    parser_reachable E st → parser_reachable E (parser_after c st).

(** [Error] as a hook installed before the module loads leaves it. *)
Definition hooked_Error : ErrorObject :=
  mkErrorObject (Some (mkDataProperty (Some (UserHook 0)) true true))
    (Some (mkDataProperty (Some 10%Z) true true)) true.

(** A host without addon, and in which no directory is this
    package. *)
Definition plain_host : Host :=
  mkHost
    (NativeBridge.mkHost false (Throw (new_Error "ENOENT")) false
       (Throw (new_Error "ENOENT")) (λ _ _, Normal "") (Throw (new_Error "ENOENT"))
       (Throw (new_Error "MODULE_NOT_FOUND")) "/app/node_modules/dotnope")
    (λ _, None).

(** A host whose addon finds no caller on the stack but knows the
    package that started the running promise chain. *)
Definition async_host : Host :=
  mkHost
    (NativeBridge.mkHost false (Throw (new_Error "ENOENT")) true
       (Normal []) (λ _ _, Normal "") (Normal 0%Z)
       (Normal (NativeBridge.mkNativeModule (λ _, Normal tt) (λ _, None)
                  (Some "axios")))
       "/app/node_modules/dotnope")
    (λ _, None).

Definition frame_at (fileName functionName : string) : Frame :=
  mkFrame (Some fileName) (Some functionName) (Some 1%Z) (Some 1%Z) false None
    false.

(** A stack: the proxy trap, a frame of the runtime, a dependency, the
    application. *)
Definition example_stack : list Frame :=
  [ frame_at "/app/node_modules/dotnope/lib/proxy.js" "get";
    frame_at "node:internal/modules/cjs/loader" "load";
    frame_at "/app/node_modules/axios/lib/axios.js" "request";
    frame_at "/app/server.js" "main" ].

End StackRunVocabulary.

Section StackFreezeVocabulary.
Import Js StackParser.

(** No assignment to [Error.prepareStackTrace] can succeed: the
    property is read-only, or absent from an [Error] that cannot be
    extended. *)
Definition hook_frozen (E : ErrorObject) : Prop :=
  match own_prepareStackTrace E with
  | Some d => writable d = false
  | None => extensible E = false
  end.

(** The [TypeError] of an assignment to the read-only hook. *)
Definition hook_TypeError : JsError :=
  new_TypeError
    "Cannot assign to read only property 'prepareStackTrace' of function 'Error'".

(** The state [st] with the state [b] of the native bridge. *)
Definition with_bridge (b : NativeBridge.State) (st : State) : State :=
  mkState (Error_ st) (tamperingDetected st) (packageCache st) b (console st).

End StackFreezeVocabulary.

Section LauncherVocabulary.
Import Js DotnopeRun.

(** The flags before any argument is read. *)
Definition no_flags : Flags := mkFlags false None [].

Definition is_verbose_flag (arg : string) : Prop :=
  arg = "--verbose" ∨ arg = "-v".


(** A Linux host with the preload library and a package.json in the
    project directory. *)
Definition linux_host : Host :=
  mkHost
    (PreloadGenerator.mkHost "/app/node_modules/dotnope/lib"
       (λ p, bool_decide (p = "/usr/lib/libdotnope_preload.so")
             || bool_decide (p = "/app/package.json"))
       (λ _, Normal [("axios", PreloadGenerator.RawArray ["HTTP_PROXY"])])
       None)
    "linux" "/app/src" "/usr/bin/node"
    {[ "PATH" := "/usr/bin"; "LD_PRELOAD" := "/opt/other.so" ]}.

End LauncherVocabulary.

(** * Properties *)

(** ** The native allow-set ([generatePolicy]) *)
Section PolicyFacts.
Import PreloadGenerator.

Lemma elem_of_set_add v x s : x ∈ Js.set_add v s ↔ x = v ∨ x ∈ s.
Proof.
  unfold Js.set_add. case_decide; set_solver.
Qed.

Lemma NoDup_set_add v s : NoDup s → NoDup (Js.set_add v s).
Proof.
  intros Hs. unfold Js.set_add. case_decide; [done|].
  apply NoDup_app. repeat split; [done| |apply NoDup_singleton].
  intros x Hx ->%list_elem_of_singleton. done.
Qed.

Lemma elem_of_add_all arr s x : x ∈ add_all arr s ↔ x ∈ s ∨ x ∈ arr.
Proof.
  revert s. induction arr as [|v arr IH]; intros s; simpl.
  - set_solver.
  - rewrite IH, elem_of_set_add. set_solver.
Qed.

Lemma NoDup_add_all arr s : NoDup s → NoDup (add_all arr s).
Proof.
  revert s. induction arr as [|v arr IH]; intros s Hs; simpl; [done|].
  apply IH, NoDup_set_add, Hs.
Qed.

Lemma add_all_app a1 a2 s : add_all (a1 ++ a2) s = add_all a2 (add_all a1 s).
Proof. unfold add_all. apply foldl_app. Qed.

(** The inner loop returns the wildcard exactly when the array holds
    it, and otherwise adds the whole array. *)
Lemma addVars_spec arr s :
  addVars arr s =
    if decide ("*" ∈ arr) then Returned "*" else Running (add_all arr s).
Proof.
  revert s. induction arr as [|v arr IH]; intros s; simpl.
  - done.
  - destruct (decide (v = "*")) as [->|Hv].
    + rewrite decide_True by left. done.
    + rewrite IH. repeat case_decide; try done; set_solver.
Qed.

Lemma addField_spec field s :
  addField field s =
    if decide ("*" ∈ field_vars field) then Returned "*"
    else Running (add_all (field_vars field) s).
Proof.
  destruct field as [arr|]; simpl.
  - apply addVars_spec.
  - done.
Qed.

Lemma union_over_cons_options f pc config :
  union_over f (("__options__", pc) :: config) = union_over f config.
Proof. unfold union_over, packages. by rewrite filter_cons_False by (simpl; auto). Qed.

Lemma union_over_cons_package f name pc config :
  name ≠ "__options__" →
  union_over f ((name, pc) :: config) = f pc ++ union_over f config.
Proof. intros Hn. unfold union_over, packages. by rewrite filter_cons_True. Qed.

(** The outer loop, in closed form. *)
Lemma collect_spec config s :
  collect config s =
    if decide ("*" ∈ union_over read_write_vars config) then Returned "*"
    else Running (add_all (union_over read_write_vars config) s).
Proof.
  revert s. induction config as [|[name pc] config IH]; intros s; simpl.
  - done.
  - destruct (decide (name = "__options__")) as [->|Hn].
    + rewrite union_over_cons_options. apply IH.
    + rewrite union_over_cons_package by done. unfold read_write_vars at 1 3.
      rewrite !addField_spec.
      destruct (decide ("*" ∈ field_vars (allowed pc))) as [Ha|Ha].
      { rewrite decide_True; [done|]. set_solver. }
      rewrite addField_spec.
      destruct (decide ("*" ∈ field_vars (canWrite pc))) as [Hw|Hw].
      { rewrite decide_True; [done|]. set_solver. }
      rewrite IH. unfold read_write_vars. rewrite !add_all_app.
      repeat case_decide; try done; set_solver.
Qed.

(** Two duplicate-free arrays with the same elements sort to the same
    array. *)
Lemma array_sort_unique l1 l2 :
  NoDup l1 → NoDup l2 → (∀ x, x ∈ l1 ↔ x ∈ l2) →
  Js.array_sort l1 = Js.array_sort l2.
Proof.
  intros H1 H2 Heq. unfold Js.array_sort.
  apply (StronglySorted_unique String.le);
    try apply (StronglySorted_merge_sort String.le).
  rewrite !merge_sort_Permutation. by apply NoDup_Permutation.
Qed.

Lemma generatePolicy_read_write config :
  generatePolicy config = read_write_policy config.
Proof.
  unfold generatePolicy, read_write_policy, policy_of_union.
  rewrite collect_spec. case_decide; [done|]. f_equal.
  apply array_sort_unique.
  - apply NoDup_add_all, NoDup_nil_2.
  - apply NoDup_remove_dups.
  - intros x. rewrite elem_of_add_all, elem_of_remove_dups. set_solver.
Qed.

Lemma union_over_Permutation f c1 c2 :
  c1 ≡ₚ c2 → union_over f c1 ≡ₚ union_over f c2.
Proof. intros H. unfold union_over, packages. by rewrite H. Qed.

Lemma elem_of_union_over f config v :
  v ∈ union_over f config ↔
  ∃ name pc, (name, pc) ∈ config ∧ name ≠ "__options__" ∧ v ∈ f pc.
Proof.
  unfold union_over, packages. rewrite list_elem_of_bind. split.
  - intros [[name pc] [Hv [Hn Hin]%list_elem_of_filter]]. eauto.
  - intros (name & pc & Hin & Hn & Hv). exists (name, pc).
    split; [done|]. by apply list_elem_of_filter.
Qed.

End PolicyFacts.

Section PolicyClaims.
Import PreloadGenerator.

Example generatePolicy_scenario : generatePolicy scenario_config = "X,Y,Z".
Proof. reflexivity. Qed.

Example generatePolicy_scenario_wildcard :
  generatePolicy (scenario_config ++ [("c", mkPackageConfig None (Some ["*"]) None)])
  = "*".
Proof. reflexivity. Qed.

Example generatePolicy_unsorted_duplicates :
  generatePolicy
    [ ("__options__", mkPackageConfig (Some ["*"]) None None);
      ("b", mkPackageConfig (Some ["PORT"; "HOME"]) (Some ["PORT"]) None);
      ("a", mkPackageConfig (Some ["HOME"; "A"]) None None) ]
  = "A,HOME,PORT".
Proof. reflexivity. Qed.

(** C1, as the specification states it, fails: [generatePolicy] never
    looks at [canDelete], so a variable granted only there is missing
    from the native allow-set. *)
Lemma C1_canDelete_not_in_policy :
  "TMP_TOKEN" ∈ union_over all_vars delete_only_config
  ∧ spec_policy delete_only_config = "LOG_LEVEL,TMP_TOKEN"
  ∧ generatePolicy delete_only_config = "LOG_LEVEL"
  ∧ generatePolicy delete_only_config ≠ spec_policy delete_only_config.
Proof.
  split; [|split; [|split]].
  - vm_compute. set_solver.
  - reflexivity.
  - reflexivity.
  - discriminate.
Qed.

(** C1 (amended): for every whitelist configuration, the native
    allow-set produced by [generatePolicy] is determined by the union,
    over all packages (every entry but [__options__]), of the [allowed]
    and [canWrite] sets: it is the wildcard ["*"] whenever some package
    has ["*"] in one of these two sets, and otherwise it is exactly the
    comma-separated list of that union, sorted and without
    duplicates. *)
Theorem C1_generatePolicy_allowed_canWrite (config : Config) :
  let union := union_over read_write_vars config in
  let sorted := Js.array_sort (remove_dups union) in
  generatePolicy config =
    (if decide ("*" ∈ union) then "*" else Js.array_join "," sorted)
  ∧ (∀ v, v ∈ union ↔
       ∃ name pc, (name, pc) ∈ config ∧ name ≠ "__options__" ∧
         (v ∈ field_vars (allowed pc) ∨ v ∈ field_vars (canWrite pc)))
  ∧ (∀ v, v ∈ sorted ↔ v ∈ union)
  ∧ StronglySorted String.le sorted
  ∧ NoDup sorted.
Proof.
  intros union sorted. split; [|split; [|split; [|split]]].
  - apply generatePolicy_read_write.
  - intros v. unfold union. rewrite elem_of_union_over.
    unfold read_write_vars. setoid_rewrite elem_of_app. done.
  - intros v. unfold sorted, Js.array_sort.
    by rewrite merge_sort_Permutation, elem_of_remove_dups.
  - apply (StronglySorted_merge_sort String.le).
  - unfold sorted, Js.array_sort. rewrite merge_sort_Permutation.
    apply NoDup_remove_dups.
Qed.

(** C6: [generatePolicy] is order-independent: permuting the package
    entries of a configuration leaves the policy string unchanged, and
    a policy other than the wildcard is the comma-separated list of a
    strictly ascending array holding exactly the collected
    variables. *)
Theorem C6_generatePolicy_order_independent (c1 c2 : Config) :
  c1 ≡ₚ c2 →
  generatePolicy c1 = generatePolicy c2
  ∧ (generatePolicy c1 = "*"
     ∨ ∃ vars, generatePolicy c1 = Js.array_join "," vars
               ∧ StronglySorted String.le vars
               ∧ NoDup vars
               ∧ ∀ v, v ∈ vars ↔ v ∈ union_over read_write_vars c1).
Proof.
  intros Hperm.
  pose proof (union_over_Permutation read_write_vars _ _ Hperm) as HU.
  split.
  - rewrite !generatePolicy_read_write.
    unfold read_write_policy, policy_of_union.
    destruct (decide ("*" ∈ union_over read_write_vars c1)) as [H1|H1].
    + rewrite decide_True; [done|]. by rewrite <- HU.
    + rewrite decide_False by (by rewrite <- HU). f_equal.
      apply array_sort_unique; try apply NoDup_remove_dups.
      intros x. by rewrite !elem_of_remove_dups, HU.
  - rewrite generatePolicy_read_write.
    unfold read_write_policy, policy_of_union.
    case_decide; [by left|right].
    eexists. split; [reflexivity|]. unfold Js.array_sort. split; [|split].
    + apply (StronglySorted_merge_sort String.le).
    + rewrite merge_sort_Permutation. apply NoDup_remove_dups.
    + intros v. by rewrite merge_sort_Permutation, elem_of_remove_dups.
Qed.

Lemma C6_generatePolicy_order_independent_witness :
  generatePolicy scenario_config = generatePolicy (reverse scenario_config)
  ∧ (generatePolicy scenario_config = "*"
     ∨ ∃ vars, generatePolicy scenario_config = Js.array_join "," vars
               ∧ StronglySorted String.le vars
               ∧ NoDup vars
               ∧ ∀ v, v ∈ vars ↔ v ∈ union_over read_write_vars scenario_config).
Proof.
  apply (C6_generatePolicy_order_independent scenario_config
           (reverse scenario_config)).
  apply perm_swap.
Defined.

End PolicyClaims.

(** ** The mediating proxy (lib/proxy.js) *)
Section ProxyFacts.
Import Js Proxy.
Context {T : Type} `{EnvStore T}.

Lemma module_vars_bind {A B} (m : M (State T) A) (k : A → M (State T) B) :
  (∀ st, module_vars (m st).2 = module_vars st) →
  (∀ a st, module_vars (k a st).2 = module_vars st) →
  ∀ st, module_vars (bind m k st).2 = module_vars st.
Proof.
  intros Hm Hk st. unfold bind. specialize (Hm st).
  destruct (m st) as [[a|e] st1]; simpl in *; [|done].
  by rewrite Hk.
Qed.

Lemma module_vars_log ev (st : State T) : module_vars (log ev st).2 = module_vars st.
Proof. done. Qed.

Lemma module_vars_on_store {A} ev (access : T → Completion A * T) (st : State T) :
  module_vars (on_store ev access st).2 = module_vars st.
Proof.
  unfold on_store, bind. simpl. by destruct (access (store st)) as [[?|?] ?].
Qed.

Lemma module_vars_call_check name op (st : State T) :
  module_vars (call_checkAccessFn name op st).2 = module_vars st.
Proof.
  unfold call_checkAccessFn, bind, gets. simpl.
  destruct (checkAccessFn st) as [check|]; [|done]. simpl.
  by destruct (check name op).
Qed.

Lemma module_vars_guard field (st : State T) :
  module_vars (enabled_with_check_and field st).2 = module_vars st.
Proof.
  unfold enabled_with_check_and, enabled_with_check, bind, gets. simpl.
  destruct (isEnabled st && _); simpl; [|done].
  by destruct (proxyOptions st).
Qed.

Local Ltac module_vars_tac :=
  intros;
  repeat first
    [ apply module_vars_on_store
    | apply module_vars_call_check
    | apply module_vars_guard
    | apply module_vars_log
    | done
    | apply module_vars_bind; intros
    | match goal with
      | |- context [match ?x with _ => _ end] => destruct x
      end ].

(** No trap changes a module variable. *)
Lemma traps_keep_module_vars c (st : State T) :
  match c with
  | TrapGet _ _ | TrapSet _ _ | TrapHas _ | TrapDeleteProperty _
  | TrapOwnKeys | TrapGetOwnPropertyDescriptor _ | TrapDefineProperty _ _ =>
      module_vars (after c st) = module_vars st
  | _ => True
  end.
Proof.
  destruct c as [| | | | |p r|p v|p|p| |p|p d]; simpl; try done.
  - unfold get, Reflect_get, target_get. module_vars_tac.
  - unfold set, target_set. module_vars_tac.
  - unfold has, target_has. module_vars_tac.
  - unfold deleteProperty, target_delete. module_vars_tac.
  - unfold ownKeys, Reflect_ownKeys. module_vars_tac.
  - unfold getOwnPropertyDescriptor, Object_getOwnPropertyDescriptor.
    module_vars_tac.
  - unfold defineProperty, Object_defineProperty. module_vars_tac.
Qed.

Lemma reachable_options_follow_check (st : State T) :
  reachable st → options_follow_check st.
Proof.
  induction 1 as [env|c st Hst IH]; unfold options_follow_check in *.
  - simpl. by intros [? ?].
  - pose proof (traps_keep_module_vars c st) as Hvars.
    destruct c; simpl in *;
      try (injection Hvars as _ _ _ Hcheck _ Hopts _ _;
           rewrite Hcheck, Hopts; exact IH).
    + unfold createEnvProxy. destruct (proxyEnv st); simpl; [done|]. eauto.
    + done.
    + done.
    + unfold restore. destruct (originalEnv st); simpl; [|done].
      by intros [? ?].
    + done.
Qed.

Lemma bind_normal {S A B} (m : M S A) (k : A → M S B) s a s1 :
  m s = (Normal a, s1) → bind m k s = k a s1.
Proof. intros Hm. unfold bind. by rewrite Hm. Qed.

Lemma bind_throw {S A B} (m : M S A) (k : A → M S B) s e s1 :
  m s = (Throw e, s1) → bind m k s = (Throw e, s1).
Proof. intros Hm. unfold bind. by rewrite Hm. Qed.

(** The guard of [set], [deleteProperty] and [defineProperty] when
    enforcement is on. *)
Lemma guard_enabled field (st : State T) check opts :
  isEnabled st = true →
  checkAccessFn st = Some check →
  proxyOptions st = Some opts →
  enabled_with_check_and field st = (Normal (field opts), st).
Proof.
  intros Hen Hcheck Hopts.
  unfold enabled_with_check_and, enabled_with_check, bind, gets.
  rewrite Hen, Hcheck. simpl. by rewrite Hopts.
Qed.

(** In a reachable state the guard does not throw. *)
Lemma guard_reachable field (st : State T) :
  reachable st → ∃ on, enabled_with_check_and field st = (Normal on, st).
Proof.
  intros Hinv%reachable_options_follow_check.
  unfold enabled_with_check_and, enabled_with_check, bind, gets.
  destruct (isEnabled st); simpl; [|eauto].
  unfold options_follow_check in Hinv.
  destruct (checkAccessFn st) as [check|]; simpl; [|eauto].
  destruct Hinv as [o ->]; eauto.
Qed.

(** A call of the access check: it is recorded, and throws what the
    check throws. *)
Lemma call_check_eq name op (st : State T) check :
  checkAccessFn st = Some check →
  call_checkAccessFn name op st =
    (match check name op with Some e => Throw e | None => Normal tt end,
     (log (CheckCall name op) st).2).
Proof.
  intros Hcheck. unfold call_checkAccessFn, bind, gets. rewrite Hcheck.
  simpl. by destruct (check name op).
Qed.

Lemma check_calls_on_store {A} ev (access : T → Completion A * T) (st : State T) :
  is_CheckCall ev = false →
  check_calls (on_store ev access st).2 = check_calls st.
Proof.
  intros Hev. unfold on_store, check_calls, bind. simpl.
  destruct (access (store st)) as [[a|e] t]; simpl;
    rewrite filter_app, filter_cons_False, filter_nil, app_nil_r;
    done || by rewrite Hev.
Qed.

Lemma check_calls_on_store_then {A B} ev (access : T → Completion A * T)
    (b : B) (st : State T) :
  is_CheckCall ev = false →
  check_calls (bind (on_store ev access) (λ _, ret b) st).2 = check_calls st.
Proof.
  intros Hev. rewrite <- (check_calls_on_store ev access st Hev).
  unfold bind at 1. by destruct (on_store ev access st) as [[a|e] st'].
Qed.

End ProxyFacts.

Section ProxyClaims.
Import Js Proxy.
Context {T : Type} `{EnvStore T}.

(** C2: for every string-keyed write or delete through the installed
    mediator, if the access check denies the operation by raising, the
    error propagates and the underlying environment store is left
    unchanged: the only thing that happened is the call of the access
    check, no access to the store was made. *)
Theorem C2_denial_leaves_store_untouched
    (st : State T) (name : string) (value : JsValue)
    (check : CheckFn) (opts : ProxyOptions) :
  isEnabled st = true →
  checkAccessFn st = Some check →
  proxyOptions st = Some opts →
  (∀ e, protectWrites opts = true → check name OpWrite = Some e →
     ∃ st', set (KString name) value st = (Throw e, st')
            ∧ store st' = store st
            ∧ trace st' = trace st ++ [CheckCall name OpWrite]
            ∧ module_vars st' = module_vars st)
  ∧ (∀ e, protectDeletes opts = true → check name OpDelete = Some e →
     ∃ st', deleteProperty (KString name) st = (Throw e, st')
            ∧ store st' = store st
            ∧ trace st' = trace st ++ [CheckCall name OpDelete]
            ∧ module_vars st' = module_vars st).
Proof.
  intros Hen Hcheck Hopts. split; intros e Hprotect Hdeny.
  - exists (log (CheckCall name OpWrite) st).2. split; [|done].
    unfold set.
    rewrite (bind_normal _ _ _ _ _ (guard_enabled _ _ _ _ Hen Hcheck Hopts)).
    rewrite Hprotect. apply bind_throw.
    by rewrite (call_check_eq _ _ _ _ Hcheck), Hdeny.
  - exists (log (CheckCall name OpDelete) st).2. split; [|done].
    unfold deleteProperty.
    rewrite (bind_normal _ _ _ _ _ (guard_enabled _ _ _ _ Hen Hcheck Hopts)).
    rewrite Hprotect. apply bind_throw.
    by rewrite (call_check_eq _ _ _ _ Hcheck), Hdeny.
Qed.

(** C8: in every state the module can reach, a symbol-keyed property
    read, write, membership test, deletion or descriptor query on the
    mediated environment is the same operation on the underlying
    store (a write and a deletion answer [true] afterwards), and the
    access-check function is not invoked. *)
Theorem C8_symbol_keys_are_forwarded
    (st : State T) (id receiver : nat) (value : JsValue) :
  reachable st →
  let prop := KSymbol id in
  (get prop receiver st = Reflect_get prop receiver st
   ∧ check_calls (get prop receiver st).2 = check_calls st)
  ∧ (set prop value st = (target_set prop value ;;; ret true) st
     ∧ check_calls (set prop value st).2 = check_calls st)
  ∧ (has prop st = target_has prop st
     ∧ check_calls (has prop st).2 = check_calls st)
  ∧ (deleteProperty prop st = (target_delete prop ;;; ret true) st
     ∧ check_calls (deleteProperty prop st).2 = check_calls st)
  ∧ (getOwnPropertyDescriptor prop st = Object_getOwnPropertyDescriptor prop st
     ∧ check_calls (getOwnPropertyDescriptor prop st).2 = check_calls st).
Proof.
  intros Hreach prop.
  assert (Hset : set prop value st = (target_set prop value ;;; ret true) st).
  { unfold set. destruct (guard_reachable protectWrites st Hreach) as [on Hon].
    rewrite (bind_normal _ _ _ _ _ Hon). by destruct on. }
  assert (Hdel : deleteProperty prop st = (target_delete prop ;;; ret true) st).
  { unfold deleteProperty.
    destruct (guard_reachable protectDeletes st Hreach) as [on Hon].
    rewrite (bind_normal _ _ _ _ _ Hon). by destruct on. }
  split; [|split; [|split; [|split]]]; (split; [done|]).
  - by apply check_calls_on_store.
  - rewrite Hset. by apply check_calls_on_store_then.
  - change (has prop st) with (target_has prop st).
    by apply check_calls_on_store.
  - rewrite Hdel. by apply check_calls_on_store_then.
  - change (getOwnPropertyDescriptor prop st)
      with (Object_getOwnPropertyDescriptor prop st).
    by apply check_calls_on_store.
Qed.

(** C9: while enforcement is enabled and [protectWrites] is true,
    [defineProperty] on the mediated environment with a string key
    first invokes the access check with operation ['write']; when the
    check raises the property is not defined (the store is not
    accessed), and when it returns the definition is then carried out
    on the underlying store. *)
Theorem C9_defineProperty_is_checked_as_write
    (st : State T) (name : string) (descriptor : Descriptor)
    (check : CheckFn) (opts : ProxyOptions) :
  isEnabled st = true →
  checkAccessFn st = Some check →
  proxyOptions st = Some opts →
  protectWrites opts = true →
  let prop := KString name in
  let '(result, st') := defineProperty prop descriptor st in
  match check name OpWrite with
  | Some e =>
      result = Throw e
      ∧ trace st' = trace st ++ [CheckCall name OpWrite]
      ∧ store st' = store st
  | None =>
      result = (store_defineProperty prop descriptor (store st)).1
      ∧ trace st' = trace st ++ [CheckCall name OpWrite;
                                 StoreDefineProperty prop descriptor]
      ∧ store st' = (store_defineProperty prop descriptor (store st)).2
  end.
Proof.
  intros Hen Hcheck Hopts Hprotect prop.
  unfold defineProperty.
  rewrite (bind_normal _ _ _ _ _ (guard_enabled _ _ _ _ Hen Hcheck Hopts)).
  rewrite Hprotect. subst prop. unfold bind at 1.
  rewrite (call_check_eq _ _ _ _ Hcheck).
  destruct (check name OpWrite) as [e|]; simpl; [done|].
  unfold Object_defineProperty, on_store, bind. simpl.
  destruct (store_defineProperty (KString name) descriptor (store st))
    as [[u|e] t]; simpl; by rewrite <- app_assoc.
Qed.

(** C7: installing the mediating proxy while one is installed fails
    with an error and changes nothing; tearing an installation down
    (with the token of its handle) makes [process.env] the original
    object again, and installing anew then succeeds. *)
Theorem C7_install_teardown_install
    (st : State T) (checkFn checkFn' : option CheckFn)
    (options options' : Options) (now now' : Z) (token : string) :
  proxyEnv st = None →
  ∃ st1 st2 st3,
    createEnvProxy checkFn options now st = (Normal tt, st1)
    ∧ process_env st1 = ProxyOf (process_env st)
    ∧ createEnvProxy checkFn' options' now' st1
      = (Throw (new_Error "strictenv: Proxy already created"), st1)
    ∧ restore st1 = (Normal tt, st2)
    ∧ handle_disable token (Some token) st1 = (Normal tt, st2)
    ∧ process_env st2 = process_env st
    ∧ isEnabled st2 = false
    ∧ createEnvProxy checkFn' options' now' st2 = (Normal tt, st3)
    ∧ process_env st3 = ProxyOf (process_env st).
Proof.
  intros Hnone. unfold createEnvProxy at 1. rewrite Hnone.
  eexists _, _, _. split; [reflexivity|]. simpl.
  split; [reflexivity|]. split; [reflexivity|].
  unfold handle_disable. rewrite bool_decide_eq_true_2 by done.
  unfold restore. simpl. split; [reflexivity|]. split; [reflexivity|].
  simpl. split; [reflexivity|]. split; [reflexivity|].
  unfold createEnvProxy. simpl. split; reflexivity.
Qed.

End ProxyClaims.

Section ProxyRuns.
Import Js Proxy.

(** Concrete runs of the statements above. *)

Lemma C2_denial_leaves_store_untouched_witness :
  (∃ st', set (KString "AWS_SECRET") (VString "y") installed_example
          = (Throw (Js.mkError "Error" "dotnope: unauthorized AWS_SECRET"
                      (Some "ERR_DOTNOPE_UNAUTHORIZED")), st')
          ∧ store st' = example_env
          ∧ trace st' = [CheckCall "AWS_SECRET" OpWrite]
          ∧ module_vars st' = module_vars installed_example)
  ∧ (∃ st', deleteProperty (KString "AWS_SECRET") installed_example
          = (Throw (Js.mkError "Error" "dotnope: unauthorized AWS_SECRET"
                      (Some "ERR_DOTNOPE_UNAUTHORIZED")), st')
          ∧ store st' = example_env
          ∧ trace st' = [CheckCall "AWS_SECRET" OpDelete]
          ∧ module_vars st' = module_vars installed_example).
Proof.
  pose proof (C2_denial_leaves_store_untouched installed_example
                "AWS_SECRET" (VString "y") deny_all
                (mkProxyOptions true true true)
                eq_refl eq_refl eq_refl) as [Hw Hd].
  split.
  - exact (Hw _ eq_refl eq_refl).
  - exact (Hd _ eq_refl eq_refl).
Defined.

Lemma installed_example_reachable : reachable installed_example.
Proof.
  exact (reachable_after CallEnable _
           (reachable_after
              (CallCreateEnvProxy (Some deny_all) (mkOptions None None None)
                 1700000000%Z)
              _ (reachable_loaded example_env))).
Defined.

Lemma C8_symbol_keys_are_forwarded_witness :
  get (KSymbol 7) 0 installed_example = Reflect_get (KSymbol 7) 0 installed_example
  ∧ check_calls (set (KSymbol 7) (VString "v") installed_example).2 = [].
Proof.
  pose proof (C8_symbol_keys_are_forwarded installed_example 7 0 (VString "v")
                installed_example_reachable) as [[Hget _] [[_ Hset] _]].
  split; [exact Hget | exact Hset].
Defined.

Lemma C9_defineProperty_is_checked_as_write_witness :
  let '(result, st') :=
    defineProperty (KString "AWS_SECRET")
      (mkDescriptor (Some (VString "y")) None None None) installed_example in
  result = Throw (Js.mkError "Error" "dotnope: unauthorized AWS_SECRET"
                    (Some "ERR_DOTNOPE_UNAUTHORIZED"))
  ∧ trace st' = [CheckCall "AWS_SECRET" OpWrite]
  ∧ store st' = example_env.
Proof.
  exact (C9_defineProperty_is_checked_as_write installed_example "AWS_SECRET"
           (mkDescriptor (Some (VString "y")) None None None) deny_all
           (mkProxyOptions true true true) eq_refl eq_refl eq_refl eq_refl).
Defined.

Lemma C7_install_teardown_install_witness :
  ∃ st1 st2 st3,
    createEnvProxy (Some deny_all) (mkOptions None None None) 1%Z
      (loaded example_env) = (Normal tt, st1)
    ∧ process_env st1 = ProxyOf EnvObject
    ∧ createEnvProxy None (mkOptions (Some false) None None) 2%Z st1
      = (Throw (new_Error "strictenv: Proxy already created"), st1)
    ∧ restore st1 = (Normal tt, st2)
    ∧ handle_disable "3f9c" (Some "3f9c") st1 = (Normal tt, st2)
    ∧ process_env st2 = EnvObject
    ∧ isEnabled st2 = false
    ∧ createEnvProxy None (mkOptions (Some false) None None) 2%Z st2
      = (Normal tt, st3)
    ∧ process_env st3 = ProxyOf EnvObject.
Proof.
  exact (C7_install_teardown_install (loaded example_env)
           (Some deny_all) None (mkOptions None None None)
           (mkOptions (Some false) None None) 1%Z 2%Z "3f9c" eq_refl).
Defined.

End ProxyRuns.

(** ** Integrity of the native addon (lib/native-bridge.js) *)
Section BridgeFacts.
Import Js NativeBridge.

Lemma verify_mismatch h err :
  mismatch h err → verifyAddonIntegrity h = mkIntegrityResult false None (Some err).
Proof.
  intros [Hex [(addon & actual & Hm & ->)|(addon & size & Hm & ->)]];
    unfold verifyAddonIntegrity, verify_body; rewrite Hex; simpl.
  - destruct Hm as (m & buf & -> & -> & -> & Hd & Hne).
    fold (algorithm_of addon). rewrite Hd. by rewrite decide_True.
  - destruct Hm as (m & buf & actual & -> & -> & -> & Hd & Heq & -> & Hne).
    fold (algorithm_of addon). rewrite Hd.
    rewrite decide_False by (by intros ?). by rewrite decide_True.
Qed.

(** Verification reports an error only for a mismatch. *)
Lemma verify_error_inv h err :
  error (verifyAddonIntegrity h) = Some err → mismatch h err.
Proof.
  unfold verifyAddonIntegrity, verify_body, mismatch.
  destruct (manifest_exists h); simpl; [|done].
  destruct (read_manifest h) as [m|e0] eqn:Hm; [|done].
  destruct (read_addon h) as [buf|e0] eqn:Hb; [|done].
  destruct (manifest_addon m) as [addon|] eqn:Ha; [|done].
  fold (algorithm_of addon).
  destruct (digest_hex h (algorithm_of addon) buf) as [actual|e0] eqn:Hd; [|done].
  destruct (decide (addon_hash addon ≠ Some actual)) as [Hne|Heq]; simpl.
  - intros [= <-]. split; [done|]. left. exists addon, actual.
    split; [|done]. by exists m, buf.
  - destruct (stat_size h) as [size|e0] eqn:Hs; [|done].
    destruct (decide (addon_size addon ≠ Some size)) as [Hsz|Hsz]; simpl; [|done].
    intros [= <-]. split; [done|]. right. exists addon, size.
    split; [|done]. exists m, buf, actual.
    repeat split; try done. by destruct (decide (addon_hash addon = Some actual)).
Qed.

Lemma verify_throws h err :
  verification_throws h err →
  verifyAddonIntegrity h =
    mkIntegrityResult false
      (Some ("Could not verify addon integrity: " +:+ error_message err)) None.
Proof.
  intros [Hex Hthrow]. unfold verifyAddonIntegrity. by rewrite Hex, Hthrow.
Qed.

Lemma load_refuses h st err :
  native st = None → initializationError st = None →
  addon_exists h = true → mismatch h err →
  ∃ st', loadNativeAddon h st = (Normal false, st')
         ∧ refused err st'
         ∧ trace st' = trace st ++
             [ ConsoleError ("[dotnope] SECURITY WARNING: " +:+ error_message err);
               ConsoleError
                 "[dotnope] Native addon will NOT be loaded. Falling back to JavaScript." ].
Proof.
  intros Hn Hi Hex Hmis. apply verify_mismatch in Hmis.
  unfold loadNativeAddon, bind, gets, try_catch, load_body.
  repeat progress (simpl; rewrite ?Hn, ?Hi, ?Hex, ?Hmis).
  eexists. split; [reflexivity|]. simpl. rewrite <- app_assoc. done.
Qed.

(** Once refused, the addon stays unavailable and nothing is loaded. *)
Lemma refused_isNativeAvailable h st err :
  refused err st → isNativeAvailable h st = (Normal false, st).
Proof.
  intros (Hn & Ha & _ & _ & Hi).
  unfold isNativeAvailable, loadNativeAddon, bind, gets.
  by repeat progress (simpl; rewrite ?Hn, ?Hi, ?Ha).
Qed.

Lemma refused_loadNativeAddon h st err :
  refused err st → loadNativeAddon h st = (Normal false, st).
Proof.
  intros (Hn & Ha & _ & _ & Hi). unfold loadNativeAddon, bind, gets.
  by repeat progress (simpl; rewrite ?Hn, ?Hi, ?Ha).
Qed.

Lemma refused_getCallerInfo h st err n :
  refused err st → getCallerInfo h n st = (Normal None, st).
Proof.
  intros Href. unfold getCallerInfo.
  unfold bind at 1. by rewrite (refused_isNativeAvailable h st err Href).
Qed.

End BridgeFacts.

(** ** Computations that leave part of the state alone *)
Section Keeps.
Import Js.
Context {S X : Type} (f : S → X).

Lemma keeps_ret {A} (a : A) : keeps f (ret a).
Proof. done. Qed.

Lemma keeps_throw {A} e : keeps f (@throw S A e).
Proof. done. Qed.

Lemma keeps_gets {A} (g : S → A) : keeps f (gets g).
Proof. done. Qed.

Lemma keeps_bind {A B} (m : M S A) (k : A → M S B) :
  keeps f m → (∀ a, keeps f (k a)) → keeps f (bind m k).
Proof.
  intros Hm Hk s. unfold bind. specialize (Hm s).
  destruct (m s) as [[a|e] s1]; simpl in *; [|done].
  by rewrite Hk.
Qed.

Lemma keeps_try_finally {A} (body : M S A) (cleanup : M S unit) :
  keeps f body → keeps f cleanup → keeps f (try_finally body cleanup).
Proof.
  intros Hb Hc s. unfold try_finally. specialize (Hb s).
  destruct (body s) as [r s1]. specialize (Hc s1).
  destruct (cleanup s1) as [[u|e] s2]; simpl in *; congruence.
Qed.

Lemma keeps_try_catch {A} (body : M S A) (handler : JsError → M S A) :
  keeps f body → (∀ e, keeps f (handler e)) → keeps f (try_catch body handler).
Proof.
  intros Hb Hh s. unfold try_catch. specialize (Hb s).
  destruct (body s) as [[a|e] s1]; simpl in *; [done|].
  by rewrite Hh.
Qed.

End Keeps.

(** ** The stack parser (lib/stack-parser.js) *)
Section StackFacts.
Import Js StackParser.

Lemma keeps_extractPackageName {X} (f : State → X) filePath :
  (∀ E t c b w c', f (mkState E t c b w) = f (mkState E t c' b w)) →
  keeps f (extractPackageName filePath).
Proof.
  intros Hf st. unfold extractPackageName.
  destruct (packageCache st !! filePath); [done|]. simpl.
  destruct st. apply Hf.
Qed.

Lemma keeps_walk {X} (f : State → X) h evalDetected frames :
  (∀ E t c b w c', f (mkState E t c b w) = f (mkState E t c' b w)) →
  keeps f (walk h evalDetected frames).
Proof.
  intros Hf. induction frames as [|frame rest IH]; simpl; [done|].
  destruct (getFileName frame) as [name|]; [|done].
  repeat case_match; try done;
    (apply keeps_bind; [by apply keeps_extractPackageName|done]).
Qed.

Lemma keeps_capture_stack {X} (f : State → X) captured :
  keeps f (capture_stack captured).
Proof.
  unfold capture_stack. apply keeps_bind; [done|].
  intros limit. by destruct captured.
Qed.

Lemma keeps_bridge_set_stackTraceLimit v : keeps bridge (set_stackTraceLimit v).
Proof. intros st. unfold set_stackTraceLimit. by case_match. Qed.

Lemma keeps_bridge_set_prepareStackTrace v : keeps bridge (set_prepareStackTrace v).
Proof. intros st. unfold set_prepareStackTrace. by case_match. Qed.

(** The fallback backend does not touch the native bridge. *)
Lemma keeps_bridge_getCallingPackageJS h captured skipFrames :
  keeps bridge (getCallingPackageJS h captured skipFrames).
Proof.
  unfold getCallingPackageJS.
  apply keeps_bind; [done|intros savedHook].
  apply keeps_bind; [done|intros savedLimit].
  apply keeps_try_finally.
  - apply keeps_bind; [apply keeps_bridge_set_stackTraceLimit|intros _].
    apply keeps_bind; [apply keeps_bridge_set_prepareStackTrace|intros _].
    apply keeps_bind; [apply keeps_capture_stack|intros stack].
    case_match; [done|]. by apply keeps_walk.
  - apply keeps_bind; [apply keeps_bridge_set_prepareStackTrace|intros _].
    apply keeps_bridge_set_stackTraceLimit.
Qed.

(** With the addon refused, identity resolution is the fallback
    backend. *)
Lemma refused_getCallingPackage h captured skipFrames st err :
  refused err (bridge st) →
  getCallingPackage h captured skipFrames st
  = getCallingPackageJS h captured skipFrames st.
Proof.
  intros Href. unfold getCallingPackage.
  assert (in_bridge (NativeBridge.isNativeAvailable (bridge_host h)) st
          = (Normal false, st)) as Hav.
  { unfold in_bridge.
    rewrite (refused_isNativeAvailable _ _ _ Href). by destruct st. }
  unfold bind at 1. rewrite Hav. done.
Qed.

End StackFacts.

Section BridgeClaims.
Import Js NativeBridge.

(** The integrity error is made by [new Error(message)] and nothing is
    attached to it: it has no [code]. *)
Lemma mismatch_plain_Error h err :
  mismatch h err → error_name err = "Error" ∧ error_code err = None.
Proof.
  intros (_ & [(addon & actualHash & _ & ->)|(addon & size & _ & ->)]); done.
Qed.

(** C3: if the computed hash of the native addon differs from the hash
    the manifest records, or the size of the file differs, the addon is
    refused: the first load (directly or through [isNativeAvailable])
    answers [false] without requiring the addon, the integrity error is
    kept and shows on the status as [hasIntegrityError] with the message
    of the error, which is a plain [Error] without a [code] (no kind
    [ERR_DOTNOPE_INTEGRITY] is attached to it), [loadNativeAddon] and
    [isNativeAvailable] answer [false] from then on without touching
    anything, and every later identity resolution is the one of the
    fallback backend and leaves the bridge in the refused state. *)
Theorem C3_integrity_mismatch_refuses_addon
    (h : Host) (err : JsError) (b : State) :
  native b = None →
  initializationError b = None →
  addon_exists h = true →
  mismatch h err →
  ∃ b',
    loadNativeAddon h b = (Normal false, b')
    ∧ isNativeAvailable h b = (Normal false, b')
    ∧ (RequireAddon ∉ new_events b b')
    ∧ native b' = None
    ∧ getIntegrityError b' = (Normal (Some err), b')
    ∧ (error_name err = "Error" ∧ error_code err = None)
    ∧ getSecurityStatus b'
      = (Normal (mkSecurityStatus false false true (Some (error_message err))), b')
    ∧ (∀ h', loadNativeAddon h' b' = (Normal false, b')
             ∧ isNativeAvailable h' b' = (Normal false, b'))
    ∧ (∀ hs captured skipFrames sp,
         StackParser.bridge sp = b' →
         StackParser.getCallingPackage hs captured skipFrames sp
         = StackParser.getCallingPackageJS hs captured skipFrames sp
         ∧ StackParser.bridge
             (StackParser.getCallingPackage hs captured skipFrames sp).2 = b').
Proof.
  intros Hn Hi Hex Hmis.
  destruct (load_refuses h b err Hn Hi Hex Hmis) as (b' & Hload & Href & Htrace).
  exists b'. split; [done|].
  pose proof Href as (Hn' & Ha' & Hv' & He' & Hi').
  split; [|split; [|split; [done|split; [|split; [|split; [|split]]]]]].
  - unfold isNativeAvailable, bind, gets.
    repeat progress (simpl; rewrite ?Hn, ?Hload). by rewrite Ha'.
  - unfold new_events. rewrite Htrace, drop_app_length.
    intros Hin. repeat (apply elem_of_cons in Hin as [?|Hin]; [done|]).
    by apply elem_of_nil in Hin.
  - unfold getIntegrityError, gets. by rewrite He'.
  - by apply (mismatch_plain_Error h).
  - unfold getSecurityStatus, gets. by rewrite Ha', Hv', He', Hi'.
  - intros h'. split.
    + by apply (refused_loadNativeAddon h' b' err).
    + by apply (refused_isNativeAvailable h' b' err).
  - intros hs captured skipFrames sp <-. split.
    + by apply (refused_getCallingPackage hs captured skipFrames sp err).
    + rewrite (refused_getCallingPackage hs captured skipFrames sp err Href).
      apply keeps_bridge_getCallingPackageJS.
Qed.

Lemma C3_integrity_mismatch_refuses_addon_witness :
  ∃ b',
    loadNativeAddon tampered_host loaded = (Normal false, b')
    ∧ isNativeAvailable tampered_host loaded = (Normal false, b')
    ∧ (RequireAddon ∉ new_events loaded b')
    ∧ native b' = None
    ∧ getIntegrityError b'
      = (Normal (Some (hash_error
                         (mkAddonEntry (Some "sha256") (Some "aaaa") (Some 4%Z))
                         "bbbb")), b')
    ∧ (error_name (hash_error
                     (mkAddonEntry (Some "sha256") (Some "aaaa") (Some 4%Z))
                     "bbbb") = "Error"
       ∧ error_code (hash_error
                       (mkAddonEntry (Some "sha256") (Some "aaaa") (Some 4%Z))
                       "bbbb") = None)
    ∧ getSecurityStatus b'
      = (Normal (mkSecurityStatus false false true
                   (Some (error_message
                            (hash_error
                               (mkAddonEntry (Some "sha256") (Some "aaaa") (Some 4%Z))
                               "bbbb")))), b')
    ∧ (∀ h', loadNativeAddon h' b' = (Normal false, b')
             ∧ isNativeAvailable h' b' = (Normal false, b'))
    ∧ (∀ hs captured skipFrames sp,
         StackParser.bridge sp = b' →
         StackParser.getCallingPackage hs captured skipFrames sp
         = StackParser.getCallingPackageJS hs captured skipFrames sp
         ∧ StackParser.bridge
             (StackParser.getCallingPackage hs captured skipFrames sp).2 = b').
Proof.
  apply (C3_integrity_mismatch_refuses_addon tampered_host _ loaded
           eq_refl eq_refl eq_refl).
  split; [reflexivity|]. left. eexists _, _. split; [|reflexivity].
  eexists _, _. repeat split. discriminate.
Defined.

(** C3 as the specification words it, evaluated where it fails: an
    addon whose hash is not the recorded one is refused, but the status
    does not report the kind [ERR_DOTNOPE_INTEGRITY]: the integrity
    error that [getIntegrityError] gives has no code, and the status
    object holds [hasIntegrityError] and a message that does not name
    the kind. *)
Lemma C3_status_reports_no_integrity_kind :
  let b' := (loadNativeAddon tampered_host loaded).2 in
  mismatch tampered_host
    (hash_error (mkAddonEntry (Some "sha256") (Some "aaaa") (Some 4%Z)) "bbbb")
  ∧ (loadNativeAddon tampered_host loaded).1 = Normal false
  ∧ (∃ err, (getIntegrityError b').1 = Normal (Some err)
            ∧ error_code err = None)
  ∧ (∃ message,
       (getSecurityStatus b').1
       = Normal (mkSecurityStatus false false true (Some message))
       ∧ includes "ERR_DOTNOPE_INTEGRITY" message = false)
  ∧ ¬ status_reports_kind "ERR_DOTNOPE_INTEGRITY" b'.
Proof.
  split; [|split; [|split; [|split]]].
  - split; [reflexivity|]. left. eexists _, _. split; [|reflexivity].
    eexists _, _. repeat split. discriminate.
  - reflexivity.
  - by eexists.
  - eexists. split; [reflexivity|]. by vm_compute.
  - intros [(err & Herr & Hcode)|(status & message & Hstatus & Hmessage & Hin)].
    + vm_compute in Herr. injection Herr as <-. discriminate Hcode.
    + vm_compute in Hstatus. injection Hstatus as <-.
      vm_compute in Hmessage. injection Hmessage as <-.
      by vm_compute in Hin.
Qed.

Lemma reading_throws_verification h err :
  reading_throws h err → verification_throws h err.
Proof.
  intros [Hex [Hm|(m & Hm & Hb)]]; (split; [done|]);
    unfold verify_body; rewrite Hm; [done|]. by rewrite Hb.
Qed.

(** A load sets [integrityError] only for a mismatch. *)
Lemma load_integrityError_inv h b r b' e :
  loadNativeAddon h b = (r, b') →
  integrityError b = None → integrityError b' = Some e → mismatch h e.
Proof.
  intros Hload%(f_equal snd). simpl in Hload. subst b'.
  destruct (error (verifyAddonIntegrity h)) as [e0|] eqn:Herr.
  - (* verification found an error: it is the one recorded, if any *)
    unfold loadNativeAddon, bind, gets, try_catch, load_body. simpl.
    destruct (native b), (initializationError b); simpl; try congruence.
    destruct (addon_exists h); simpl; [|congruence].
    rewrite Herr. simpl. intros _ [= <-]. by apply verify_error_inv.
  - (* no error: the load does not touch [integrityError] *)
    assert (keeps integrityError (loadNativeAddon h)) as Hkeeps.
    { unfold loadNativeAddon. apply keeps_bind; [done|intros tried].
      destruct tried; [done|].
      apply keeps_try_catch; [|intros e0; by repeat (apply keeps_bind; [done|intros _])].
      unfold load_body. destruct (addon_exists h); simpl;
        [|by repeat (apply keeps_bind; [done|intros _])].
      rewrite Herr.
      apply keeps_bind; [done|intros _].
      apply keeps_bind; [by repeat case_match|intros _].
      apply keeps_bind; [done|intros _].
      apply keeps_bind; [done|intros addon].
      by repeat (apply keeps_bind; [done|intros _]). }
    rewrite Hkeeps. congruence.
Qed.

(** C10: if the manifest exists but reading or parsing it, or reading
    the addon file during verification, throws, verification yields a
    warning and no error, and the load goes on: the addon is required
    and, when requiring and initialising it succeed, it is the loaded
    native module.  A load records an integrity error only for a hash
    mismatch or a size mismatch. *)
Theorem C10_unverifiable_addon_is_loaded_with_warning
    (h : Host) (err : JsError) (b : State) :
  native b = None →
  initializationError b = None →
  addon_exists h = true →
  reading_throws h err →
  let w := "Could not verify addon integrity: " +:+ error_message err in
  verifyAddonIntegrity h = mkIntegrityResult false (Some w) None
  ∧ (∀ addon,
       require_addon h = Normal addon →
       native_initialize addon (module_path h) = Normal tt →
       ∃ b', loadNativeAddon h b = (Normal true, b')
             ∧ native b' = Some addon
             ∧ nativeAvailable b' = true
             ∧ integrityVerified b' = false
             ∧ integrityError b' = integrityError b
             ∧ new_events b b' = [ ConsoleWarn ("[dotnope] " +:+ w);
                                   RequireAddon;
                                   NativeInitialize (module_path h) ])
  ∧ (∀ h' b0 r b1 e,
       loadNativeAddon h' b0 = (r, b1) →
       integrityError b0 = None → integrityError b1 = Some e →
       mismatch h' e).
Proof.
  intros Hn Hi Hex Hthrows%reading_throws_verification w.
  pose proof (verify_throws h err Hthrows) as Hverify. fold w in Hverify.
  split; [done|split].
  - intros addon Hreq Hinit.
    unfold loadNativeAddon, load_body.
    rewrite Hex, Hverify. simpl.
    unfold bind, gets, try_catch, outcome.
    repeat progress (simpl; rewrite ?Hn, ?Hi, ?Hreq, ?Hinit).
    eexists. split; [reflexivity|]. simpl. repeat split.
    unfold new_events. simpl. rewrite <- !app_assoc. by rewrite drop_app_length.
  - apply load_integrityError_inv.
Qed.

Lemma C10_unverifiable_addon_is_loaded_with_warning_witness :
  ∃ b', loadNativeAddon unparsable_manifest_host loaded = (Normal true, b')
        ∧ native b' = Some example_addon
        ∧ nativeAvailable b' = true
        ∧ integrityVerified b' = false
        ∧ integrityError b' = None
        ∧ new_events loaded b'
          = [ ConsoleWarn
                "[dotnope] Could not verify addon integrity: Unexpected end of JSON input";
              RequireAddon;
              NativeInitialize "/app/node_modules/dotnope" ].
Proof.
  refine (proj1 (proj2 (C10_unverifiable_addon_is_loaded_with_warning
            unparsable_manifest_host
            (mkError "SyntaxError" "Unexpected end of JSON input" None)
            loaded eq_refl eq_refl eq_refl _)) example_addon eq_refl eq_refl).
  split; [reflexivity|]. left. reflexivity.
Defined.

End BridgeClaims.

Section StackCaptureClaims.
Import Js StackParser.

Lemma getCallingPackageJS_capture_with h captured skipFrames :
  getCallingPackageJS h captured skipFrames
  = capture_with 30
      (let* stack := capture_stack captured in
       if bool_decide (stack = []) then ret None
       else walk h (hasEvalInStack stack) (drop skipFrames stack)).
Proof. done. Qed.

Lemma getFormattedStack_capture_with captured skipFrames :
  getFormattedStack captured skipFrames
  = capture_with 15
      (let* stack := capture_stack captured in
       ret (array_join NativeBridge.nl
              (format_frame <$> take 10 (drop skipFrames stack)))).
Proof. done. Qed.

(** When both properties are assignable, the values read after the
    call are the values read before it, however the body completes. *)
Lemma capture_with_restores {A} limit (body : M State A) st :
  keeps Error_ body →
  assignable (Error_ st) →
  hook_of (capture_with limit body st).2 = hook_of st
  ∧ limit_of (capture_with limit body st).2 = limit_of st.
Proof.
  intros Hbody [Hhook Hlimit].
  unfold capture_with, try_finally, bind, gets, get_prepareStackTrace,
    get_stackTraceLimit, set_stackTraceLimit, set_prepareStackTrace,
    hook_of, limit_of, assign.
  destruct st as [[hook lim ext] t c b w]. simpl in *.
  destruct lim as [[lv lw lc]|], hook as [[hv hw hc]|]; simpl in *; subst; simpl;
    match goal with
    | |- context [body ?s] =>
        specialize (Hbody s); destruct (body s) as [[a|e] [E' t' c' b' w']]
    end; simpl in *; subst; simpl; done.
Qed.

Lemma getCallingPackageJS_restores h captured skipFrames st :
  assignable (Error_ st) →
  hook_of (getCallingPackageJS h captured skipFrames st).2 = hook_of st
  ∧ limit_of (getCallingPackageJS h captured skipFrames st).2 = limit_of st.
Proof.
  rewrite getCallingPackageJS_capture_with. apply capture_with_restores.
  apply keeps_bind; [apply keeps_capture_stack|intros stack].
  case_match; [done|]. by apply keeps_walk.
Qed.

Lemma getFormattedStack_restores captured skipFrames st :
  assignable (Error_ st) →
  hook_of (getFormattedStack captured skipFrames st).2 = hook_of st
  ∧ limit_of (getFormattedStack captured skipFrames st).2 = limit_of st.
Proof.
  rewrite getFormattedStack_capture_with. apply capture_with_restores.
  apply keeps_bind; [apply keeps_capture_stack|done].
Qed.

(** C4, evaluated where it fails: in a module loaded in a fresh
    runtime the hook is frozen, so the assignment of the raw hook
    throws a [TypeError] after [Error.stackTraceLimit] has been raised,
    and the [finally] block throws again on its first assignment, before
    it restores the limit.  Both routines end by exception with the
    limit left at 30 (resp. 15) instead of its value before the call;
    the hook itself is unchanged. *)
Theorem C4_frozen_hook_leaves_stackTraceLimit_changed
    (h : Host) (captured : Completion (list Frame)) (skipFrames : nat) :
  hook_of fresh_module = None
  ∧ limit_of fresh_module = Some 10%Z
  ∧ (∃ st', getCallingPackageJS h captured skipFrames fresh_module
            = (Throw (new_TypeError
                        "Cannot assign to read only property 'prepareStackTrace' of function 'Error'"),
               st')
            ∧ hook_of st' = None
            ∧ limit_of st' = Some 30%Z)
  ∧ (∃ st', getFormattedStack captured skipFrames fresh_module
            = (Throw (new_TypeError
                        "Cannot assign to read only property 'prepareStackTrace' of function 'Error'"),
               st')
            ∧ hook_of st' = None
            ∧ limit_of st' = Some 15%Z).
Proof.
  split; [reflexivity|]. split; [reflexivity|]. split.
  - eexists. split; [reflexivity|]. split; reflexivity.
  - eexists. split; [reflexivity|]. split; reflexivity.
Qed.

End StackCaptureClaims.

(** ** Strings: occurrences, slices and segments *)
Section StringFacts.
Import Js.

Example path_tests :
  Path.normalize "/app/node_modules/pkg/../../lib/x.js" = "/app/lib/x.js"
  ∧ Path.normalize "/app//node_modules/./pkg/index.js" = "/app/node_modules/pkg/index.js"
  ∧ Path.normalize "../a/../../b/" = "../../b/"
  ∧ Path.normalize "/../a" = "/a"
  ∧ Path.normalize "./" = "./"
  ∧ Path.normalize "a/.." = "."
  ∧ Path.dirname "/a/b/c.js" = "/a/b"
  ∧ Path.dirname "/a" = "/"
  ∧ Path.dirname "a" = "."
  ∧ Path.dirname "/a/b/" = "/a"
  ∧ Path.dirname "//a" = "//"
  ∧ Js.lastIndexOf "/node_modules/" "/a/node_modules/b/node_modules/c/d.js" = Some 17
  ∧ Js.split "/"%char "c/d.js" = ["c"; "d.js"]
  ∧ Js.split "/"%char "" = [""]
  ∧ Js.split "/"%char "a/" = ["a"; ""]
  ∧ Js.endsWith "lib/proxy.js" "/x/lib/proxy.js" = true
  ∧ Js.endsWith "lib/proxy.js" "proxy.js" = false
  ∧ Js.includes "node_modules" "/x/node_modules/y" = true.
Proof. repeat split. Qed.

Lemma string_app_cons c s t : String c s +:+ t = String c (s +:+ t).
Proof. done. Qed.

Lemma string_app_assoc s t u : (s +:+ t) +:+ u = s +:+ t +:+ u.
Proof.
  induction s as [|c s IH]; [done|].
  by rewrite !string_app_cons, IH.
Qed.

Lemma string_length_app s t :
  String.length (s +:+ t) = String.length s + String.length t.
Proof.
  induction s as [|c s IH]; [done|].
  rewrite string_app_cons. simpl. by rewrite IH.
Qed.

Lemma prefix_spec p s : String.prefix p s = true ↔ ∃ post, s = p +:+ post.
Proof.
  revert s. induction p as [|a p IH]; intros s.
  - split; [intros _; by exists s|]. by destruct s.
  - destruct s as [|b s]; simpl.
    + split; [done|]. by intros [post ?].
    + destruct (ascii_dec a b) as [->|Hab].
      * rewrite IH. split; intros [post Hpost]; exists post.
        -- by rewrite string_app_cons, <- Hpost.
        -- rewrite string_app_cons in Hpost. by simplify_eq.
      * split; [done|]. intros [post Hpost].
        rewrite string_app_cons in Hpost. by simplify_eq.
Qed.

Lemma occurs_at_0 p s : occurs_at p s 0 ↔ String.prefix p s = true.
Proof.
  rewrite prefix_spec. split.
  - intros (pre & post & -> & Hlen). destruct pre; [|done]. by exists post.
  - intros [post ->]. by exists "", post.
Qed.

Lemma occurs_at_S p c s i : occurs_at p (String c s) (S i) ↔ occurs_at p s i.
Proof.
  split.
  - intros (pre & post & Heq & Hlen). destruct pre as [|c' pre]; [done|].
    rewrite string_app_cons in Heq. simplify_eq/=. by exists pre, post.
  - intros (pre & post & -> & Hlen). exists (String c pre), post.
    split; [done|]. simpl. by rewrite Hlen.
Qed.

Lemma occurs_at_empty p i : occurs_at p "" i → i = 0.
Proof. intros (pre & post & Heq & <-). by destruct pre. Qed.

Lemma lastIndexOf_nil p :
  lastIndexOf p "" = if String.prefix p "" then Some 0 else None.
Proof. done. Qed.

Lemma lastIndexOf_cons p c s :
  lastIndexOf p (String c s) =
    match lastIndexOf p s with
    | Some i => Some (S i)
    | None => if String.prefix p (String c s) then Some 0 else None
    end.
Proof. done. Qed.

Lemma lastIndexOf_None p s : lastIndexOf p s = None → ∀ i, ¬ occurs_at p s i.
Proof.
  induction s as [|c s IH]; [rewrite lastIndexOf_nil|rewrite lastIndexOf_cons].
  - destruct (String.prefix p "") eqn:Hp; [done|]. intros _ i Hocc.
    pose proof (occurs_at_empty _ _ Hocc) as ->.
    apply occurs_at_0 in Hocc. congruence.
  - destruct (lastIndexOf p s) as [i'|]; [done|].
    destruct (String.prefix p (String c s)) eqn:Hp; [done|].
    intros _ [|i] Hocc.
    + apply occurs_at_0 in Hocc. congruence.
    + apply occurs_at_S in Hocc. by apply (IH eq_refl i).
Qed.

Lemma lastIndexOf_Some p s i :
  lastIndexOf p s = Some i →
  occurs_at p s i ∧ ∀ j, occurs_at p s j → j ≤ i.
Proof.
  revert i.
  induction s as [|c s IH]; intros i;
    [rewrite lastIndexOf_nil|rewrite lastIndexOf_cons].
  - destruct (String.prefix p "") eqn:Hp; [|done]. intros [= <-]. split.
    + by apply occurs_at_0.
    + intros j ->%occurs_at_empty. done.
  - destruct (lastIndexOf p s) as [i'|] eqn:Hlast.
    + intros [= <-]. destruct (IH i' eq_refl) as [Hocc Hmax]. split.
      * by apply occurs_at_S.
      * intros [|j] Hj; [lia|]. apply occurs_at_S, Hmax in Hj. lia.
    + destruct (String.prefix p (String c s)) eqn:Hp; [|done].
      intros [= <-]. split; [by apply occurs_at_0|].
      intros [|j] Hj; [done|]. apply occurs_at_S in Hj.
      by apply (lastIndexOf_None _ _ Hlast) in Hj.
Qed.

Lemma slice_app pre n t : slice (String.length pre + n) (pre +:+ t) = slice n t.
Proof. induction pre as [|c pre IH]; [done|]. by rewrite string_app_cons. Qed.

Lemma slice_0 s : slice 0 s = s.
Proof. by destruct s. Qed.

Lemma slice_after pre p post :
  slice (String.length pre + String.length p) (pre +:+ p +:+ post) = post.
Proof.
  rewrite slice_app.
  replace (String.length p) with (String.length p + 0) by lia.
  by rewrite slice_app, slice_0.
Qed.

Lemma split_spec s :
  ∃ part0 parts,
    split Path.sep_char s = part0 :: parts
    ∧ includes Path.sep part0 = false
    ∧ ((parts = [] ∧ s = part0)
       ∨ ∃ tail, s = part0 +:+ Path.sep +:+ tail
                 ∧ parts = split Path.sep_char tail).
Proof.
  induction s as [|c s (part0 & parts & Hsplit & Hsep & Hrest)]; simpl.
  - exists "", []. split; [done|]. split; [done|]. by left.
  - destruct (Ascii.eqb c Path.sep_char) eqn:Hc.
    + apply Ascii.eqb_eq in Hc as ->. exists "", (split Path.sep_char s).
      split; [done|]. split; [done|]. right. by exists s.
    + rewrite Hsplit. exists (String c part0), parts.
      split; [done|]. split.
      * change (includes Path.sep (String c part0))
          with (String.prefix Path.sep (String c part0) || includes Path.sep part0).
        rewrite Hsep, orb_false_r.
        destruct (String.prefix Path.sep (String c part0)) eqn:Hp; [|done].
        apply prefix_spec in Hp as [post Hpost].
        change (String c part0 = String Path.sep_char post) in Hpost.
        by simplify_eq.
      * destruct Hrest as [[-> ->]|(tail & -> & ->)]; [by left|].
        right. by exists tail.
Qed.

Lemma split_first_segment s part0 parts :
  split Path.sep_char s = part0 :: parts → first_segment s part0.
Proof.
  destruct (split_spec s) as (p & ps & -> & Hsep & Hrest). intros [= <- <-].
  split; [done|]. destruct Hrest as [[_ ->]|(tail & -> & _)]; [by left|].
  right. by exists tail.
Qed.

Lemma string_app_inv_length pre1 pre2 s1 s2 :
  pre1 +:+ s1 = pre2 +:+ s2 → String.length pre1 = String.length pre2 →
  pre1 = pre2 ∧ s1 = s2.
Proof.
  revert pre2. induction pre1 as [|c pre1 IH]; intros [|c2 pre2]; try done.
  rewrite !string_app_cons. intros [= -> Heq] [= Hlen].
  by destruct (IH pre2 Heq Hlen) as [-> ->].
Qed.

Lemma includes_cons p c s :
  includes p (String c s) = String.prefix p (String c s) || includes p s.
Proof. done. Qed.

Lemma includes_app p pre post : includes p (pre +:+ p +:+ post) = true.
Proof.
  induction pre as [|c pre IH].
  - assert (String.prefix p (p +:+ post) = true) as Hp
      by (apply prefix_spec; by exists post).
    change ("" +:+ p +:+ post) with (p +:+ post).
    destruct (p +:+ post); simpl in *; by rewrite Hp.
  - by rewrite string_app_cons, includes_cons, IH, orb_true_r.
Qed.

Lemma includes_sep_cons s : includes Path.sep (String Path.sep_char s) = true.
Proof. apply (includes_app Path.sep "" s). Qed.

(** A string has one first segment. *)
Lemma first_segment_unique s a b :
  first_segment s a → first_segment s b → a = b.
Proof.
  intros [Ha Hsa] [Hb Hsb].
  assert (∀ x y tail, includes Path.sep x = false → includes Path.sep y = false →
            (x = y +:+ Path.sep +:+ tail → False)) as Hno.
  { intros x y tail Hx _ ->. by rewrite includes_app in Hx. }
  destruct Hsa as [->|[ta ->]], Hsb as [Hs|[tb Hs]].
  - done.
  - by destruct (Hno _ _ _ Ha Hb Hs).
  - symmetry in Hs. by destruct (Hno _ _ _ Hb Ha Hs).
  - clear Hno. revert b Hb Hs.
    induction a as [|c a IH]; intros [|c' b] Hb Hs; try done.
    + change (String Path.sep_char ta = String c' (b +:+ Path.sep +:+ tb)) in Hs.
      simplify_eq. by rewrite includes_sep_cons in Hb.
    + change (String c (a +:+ Path.sep +:+ ta) = String Path.sep_char tb) in Hs.
      simplify_eq. by rewrite includes_sep_cons in Ha.
    + rewrite !string_app_cons in Hs. simplify_eq. f_equal.
      rewrite includes_cons in Ha, Hb.
      apply orb_false_elim in Ha as [_ Ha]. apply orb_false_elim in Hb as [_ Hb].
      by apply IH.
Qed.

End StringFacts.

(** ** From a file path to a caller identity ([extractPackageName]) *)
Section PackageNameClaims.
Import Js StackParser.

Lemma cache_coherent_load E : cache_coherent (load E).
Proof.
  intros filePath name. unfold load.
  destruct (read (own_prepareStackTrace E)); simpl; by rewrite lookup_empty.
Qed.

Lemma cache_coherent_extractPackageName filePath st :
  cache_coherent st → cache_coherent (extractPackageName filePath st).2.
Proof.
  intros Hst. unfold extractPackageName.
  destruct (packageCache st !! filePath) eqn:Hlook; [done|]. simpl.
  intros fp name. simpl. rewrite lookup_insert.
  case_decide as Heq; [intros [= <-]; by subst|]. apply Hst.
Qed.

Lemma extractPackageName_eq filePath st :
  cache_coherent st →
  (extractPackageName filePath st).1 = Normal (packageNameOf filePath).
Proof.
  intros Hst. unfold extractPackageName.
  destruct (packageCache st !! filePath) as [cached|] eqn:Hlook; [|done].
  simpl. by rewrite (Hst _ _ Hlook).
Qed.

(** The name computed from a path is the identity of its normalized
    form. *)
Lemma packageNameOf_derived filePath :
  derived_identity (Path.normalize filePath) (packageNameOf filePath).
Proof.
  unfold packageNameOf. fold node_modules_marker.
  set (normalized := Path.normalize filePath).
  destruct (lastIndexOf node_modules_marker normalized) as [i|] eqn:Hlast.
  - apply lastIndexOf_Some in Hlast as [(pre & rest & Hn & Hlen) Hmax].
    assert (last_marker normalized pre rest) as Hmarker.
    { split; [done|]. by rewrite Hlen. }
    assert (slice (i + String.length node_modules_marker) normalized = rest)
      as -> by (rewrite <- Hlen, Hn; apply slice_after).
    destruct (split_spec rest) as (part0 & parts & Hsplit & Hsep & Hrest).
    rewrite Hsplit.
    destruct (startsWith "@" part0) eqn:Hat.
    + assert (part0 ≠ "") as Hne by (by intros ->).
      rewrite bool_decide_eq_false_2 by done. simpl.
      destruct Hrest as [[-> ->]|(tail & -> & ->)].
      * by apply (identity_scope_alone normalized pre).
      * destruct (split_spec tail) as (name & more & Hsplit' & Hsep' & Hrest').
        pose proof (split_first_segment _ _ _ Hsplit') as Hfirst.
        rewrite Hsplit'. simpl.
        by apply (identity_scoped normalized pre part0 tail).
    + rewrite andb_false_r.
      apply (identity_package normalized pre rest); [done| |done].
      by apply (split_first_segment _ _ parts).
  - apply identity_main. by apply lastIndexOf_None.
Qed.

Lemma last_marker_unique normalized pre1 rest1 pre2 rest2 :
  last_marker normalized pre1 rest1 → last_marker normalized pre2 rest2 →
  pre1 = pre2 ∧ rest1 = rest2.
Proof.
  intros [Heq1 Hmax1] [Heq2 Hmax2].
  assert (String.length pre1 = String.length pre2) as Hlen.
  { apply Nat.le_antisymm.
    - apply Hmax2. by exists pre1, rest1.
    - apply Hmax1. by exists pre2, rest2. }
  rewrite Heq1 in Heq2.
  destruct (string_app_inv_length _ _ _ _ Heq2 Hlen) as [-> Hrest].
  split; [done|]. by apply (inj (String.app node_modules_marker)).
Qed.

(** The derivation determines the identity. *)
Lemma derived_identity_functional normalized a b :
  derived_identity normalized a → derived_identity normalized b → a = b.
Proof.
  assert (∀ pre rest, last_marker normalized pre rest →
            (∀ i, ¬ occurs_at node_modules_marker normalized i) → False) as Hocc.
  { intros pre rest [Heq _] Hno. apply (Hno (String.length pre)).
    by exists pre, rest. }
  assert (∀ scope tail, includes Path.sep scope = false →
            first_segment (scope +:+ Path.sep +:+ tail) scope) as Hscope.
  { intros scope tail Hsep. split; [done|]. right. by exists tail. }
  assert (∀ scope, includes Path.sep scope = false → first_segment scope scope)
    as Halone by (intros scope Hsep; split; [done|by left]).
  intros [Hno|pre rest name Hm Hfirst Hat|pre scope tail name Hm Hsep Hat Hfirst
         |pre scope Hm Hsep Hat];
  intros [Hno'|pre' rest' name' Hm' Hfirst' Hat'
         |pre' scope' tail' name' Hm' Hsep' Hat' Hfirst'
         |pre' scope' Hm' Hsep' Hat'];
    try done;
    try (by destruct (Hocc _ _ Hm Hno'));
    try (by destruct (Hocc _ _ Hm' Hno));
    destruct (last_marker_unique _ _ _ _ _ Hm Hm') as [-> Hrest].
  - subst. by apply (first_segment_unique rest').
  - subst. pose proof (first_segment_unique _ _ _ Hfirst (Hscope _ _ Hsep')).
    congruence.
  - subst. pose proof (first_segment_unique _ _ _ Hfirst (Halone _ Hsep')).
    congruence.
  - subst. pose proof (first_segment_unique _ _ _ Hfirst' (Hscope _ _ Hsep)).
    congruence.
  - pose proof (first_segment_unique _ _ _ (Hscope _ tail Hsep)
                  (eq_ind_r (λ r, first_segment r scope') (Hscope _ tail' Hsep') Hrest))
      as ->.
    apply (inj (String.app scope')), (inj (String.app Path.sep)) in Hrest as ->.
    by rewrite (first_segment_unique _ _ _ Hfirst Hfirst').
  - pose proof (first_segment_unique _ _ _ (Hscope _ tail Hsep)
                  (eq_ind_r (λ r, first_segment r scope') (Halone _ Hsep') Hrest))
      as ->.
    apply (f_equal String.length) in Hrest.
    rewrite !string_length_app in Hrest. simpl in Hrest. lia.
  - subst. pose proof (first_segment_unique _ _ _ Hfirst' (Halone _ Hsep)).
    congruence.
  - pose proof (first_segment_unique _ _ _ (Halone _ Hsep)
                  (eq_ind_r (λ r, first_segment r scope') (Hscope _ tail' Hsep') Hrest))
      as ->.
    apply (f_equal String.length) in Hrest.
    rewrite !string_length_app in Hrest. simpl in Hrest. lia.
  - by subst.
Qed.

(** C5 (amended): for every stack-frame file path, the caller identity
    is derived from the path after [path.normalize]: if the normalized
    path contains [/node_modules/], the package name is the segment
    after its last occurrence, joined with the following segment as
    [@scope/name] when it begins with [@]; if it does not, the identity
    is main ([__main__]).  A cache that holds only names computed this
    way answers the same, and stays such a cache. *)
Theorem C5_identity_from_normalized_path (filePath : string) (st : State) :
  cache_coherent st →
  ∃ name st',
    extractPackageName filePath st = (Normal name, st')
    ∧ derived_identity (Path.normalize filePath) name
    ∧ cache_coherent st'.
Proof.
  intros Hst. exists (packageNameOf filePath), (extractPackageName filePath st).2.
  split; [|split].
  - rewrite <- (extractPackageName_eq filePath st Hst).
    by destruct (extractPackageName filePath st).
  - apply packageNameOf_derived.
  - by apply cache_coherent_extractPackageName.
Qed.

Lemma C5_identity_from_normalized_path_witness :
  ∃ name st',
    extractPackageName "/srv/app/node_modules/@scope/pkg/lib/index.js" fresh_module
    = (Normal name, st')
    ∧ derived_identity
        (Path.normalize "/srv/app/node_modules/@scope/pkg/lib/index.js") name
    ∧ cache_coherent st'.
Proof.
  apply (C5_identity_from_normalized_path
           "/srv/app/node_modules/@scope/pkg/lib/index.js" fresh_module).
  apply cache_coherent_load.
Defined.

Example extractPackageName_examples :
  packageNameOf "/srv/app/node_modules/@scope/pkg/lib/index.js" = "@scope/pkg"
  ∧ packageNameOf "/srv/app/node_modules/a/node_modules/b/index.js" = "b"
  ∧ packageNameOf "/srv/app/src/server.js" = "__main__"
  ∧ packageNameOf "node_modules/left-pad/index.js" = "__main__"
  ∧ packageNameOf "/srv/app/node_modules/@scope" = "@scope/undefined".
Proof. repeat split. Qed.

(** C5, as the specification states it, fails on a path that is not
    normalized: the path below has a [node_modules] segment followed by
    [pkg], but it normalizes to [/app/lib/x.js] and the identity is
    main. *)
Lemma C5_unnormalized_path_is_main :
  let filePath := "/app/node_modules/pkg/../../lib/x.js" in
  claimed_identity filePath "pkg"
  ∧ extractPackageName filePath fresh_module
    = (Normal "__main__",
       (extractPackageName filePath fresh_module).2)
  ∧ ¬ claimed_identity filePath "__main__".
Proof.
  intros filePath. split; [|split].
  - apply (claimed_package filePath [""; "app"] "pkg" [".."; ".."; "lib"; "x.js"]).
    + reflexivity.
    + compute_done.
    + reflexivity.
  - reflexivity.
  - inversion 1 as [Hno|before name after Hsplit Hno Hat|
                    before scope name after Hsplit Hno Hat Hname].
    + apply Hno. compute_done.
    + assert ("__main__" ∈ split Path.sep_char filePath) as Hin.
      { rewrite Hsplit. set_solver. }
      revert Hin. compute_done.
    + apply prefix_spec in Hat as [post ->]. discriminate Hname.
Qed.

End PackageNameClaims.

(** * Further properties of the sources *)

(** ** The traps of the proxy, case by case (lib/proxy.js) *)
Section ProxyTrapFacts.
Import Js Proxy.
Context {T : Type} `{EnvStore T}.

(** The guard with the options is [false], without reading the
    options, when enforcement is off or no check is installed. *)
Lemma guard_off field (st : State T) :
  isEnabled st = false ∨ checkAccessFn st = None →
  enabled_with_check_and field st = (Normal false, st).
Proof.
  intros Hoff. unfold enabled_with_check_and, enabled_with_check, bind, gets.
  destruct Hoff as [-> | ->]; simpl; [done|]. by rewrite andb_false_r.
Qed.

Lemma plain_guard_off (st : State T) :
  isEnabled st = false ∨ checkAccessFn st = None →
  enabled_with_check st = (Normal false, st).
Proof.
  intros Hoff. unfold enabled_with_check, gets.
  destruct Hoff as [-> | ->]; simpl; [done|]. by rewrite andb_false_r.
Qed.

Lemma get_without_check prop receiver (st : State T) :
  isEnabled st = false ∨ checkAccessFn st = None →
  get prop receiver st = plain_get prop receiver st.
Proof.
  intros Hoff. destruct prop as [name|id]; [|done]. unfold get, plain_get.
  destruct (decide (name = "inspect")) as [->|Hname]; [done|].
  rewrite (bool_decide_eq_false_2 (name = "inspect")) by done.
  rewrite (bool_decide_eq_false_2 (KString name = KString "inspect"))
    by congruence.
  rewrite (bool_decide_eq_false_2 (KString name = Symbol_toStringTag)) by done.
  simpl. by rewrite (bind_normal _ _ _ _ _ (plain_guard_off st Hoff)).
Qed.

Lemma set_without_check prop value (st : State T) :
  isEnabled st = false ∨ checkAccessFn st = None →
  set prop value st = (target_set prop value ;;; ret true) st.
Proof.
  intros Hoff. unfold set.
  by rewrite (bind_normal _ _ _ _ _ (guard_off protectWrites st Hoff)).
Qed.

Lemma has_without_check prop (st : State T) :
  isEnabled st = false ∨ checkAccessFn st = None →
  has prop st = target_has prop st.
Proof.
  intros Hoff. unfold has.
  rewrite (bind_normal _ _ _ _ _ (plain_guard_off st Hoff)). by destruct prop.
Qed.

Lemma deleteProperty_without_check prop (st : State T) :
  isEnabled st = false ∨ checkAccessFn st = None →
  deleteProperty prop st = (target_delete prop ;;; ret true) st.
Proof.
  intros Hoff. unfold deleteProperty.
  by rewrite (bind_normal _ _ _ _ _ (guard_off protectDeletes st Hoff)).
Qed.

Lemma getOwnPropertyDescriptor_without_check prop (st : State T) :
  isEnabled st = false ∨ checkAccessFn st = None →
  getOwnPropertyDescriptor prop st = Object_getOwnPropertyDescriptor prop st.
Proof.
  intros Hoff. unfold getOwnPropertyDescriptor.
  rewrite (bind_normal _ _ _ _ _ (plain_guard_off st Hoff)). by destruct prop.
Qed.

Lemma defineProperty_without_check prop descriptor (st : State T) :
  isEnabled st = false ∨ checkAccessFn st = None →
  defineProperty prop descriptor st = Object_defineProperty prop descriptor st.
Proof.
  intros Hoff. unfold defineProperty.
  by rewrite (bind_normal _ _ _ _ _ (guard_off protectWrites st Hoff)).
Qed.

Lemma ownKeys_disabled (st : State T) :
  isEnabled st = false → ownKeys st = Reflect_ownKeys st.
Proof. intros Hoff. unfold ownKeys, bind, gets. by rewrite Hoff. Qed.

End ProxyTrapFacts.

Section ProxyRunFacts.
Import Js Proxy.
Context {T : Type} `{EnvStore T}.

Lemma keeps_check_calls_log ev :
  is_CheckCall ev = false → keeps (check_calls (T:=T)) (log ev).
Proof.
  intros Hev st. unfold check_calls. simpl.
  rewrite filter_app, filter_cons_False, filter_nil, app_nil_r;
    done || by rewrite Hev.
Qed.

Lemma keeps_check_calls_on_store {A} ev (access : T → Completion A * T) :
  is_CheckCall ev = false → keeps (check_calls (T:=T)) (on_store ev access).
Proof. intros Hev st. by apply check_calls_on_store. Qed.

(** [ownKeys] never consults the access check. *)
Lemma keeps_check_calls_ownKeys : keeps (check_calls (T:=T)) ownKeys.
Proof.
  unfold ownKeys. apply keeps_bind; [done|intros enabled].
  apply keeps_bind.
  { destruct enabled; [|done]. apply keeps_bind; [done|intros [o|]]; [|done].
    by destruct (protectEnumeration o). }
  intros [filterFn|]; [|by apply keeps_check_calls_on_store].
  apply keeps_bind; [by apply keeps_check_calls_on_store|intros allKeys].
  apply keeps_bind; [by apply keeps_check_calls_log|intros _].
  destruct (filterFn allKeys); [done|by apply keeps_check_calls_on_store].
Qed.

(** Without enforcement, or without a check, no trap calls the check. *)
Lemma no_check_without_checker c (st : State T) :
  isEnabled st = false ∨ checkAccessFn st = None →
  is_trap c = true →
  check_calls (after c st) = check_calls st.
Proof.
  intros Hoff Htrap. destruct c as [| | | | |p r|p v|p|p| |p|p d]; try done; simpl.
  - rewrite (get_without_check p r st Hoff). unfold plain_get.
    repeat case_match; by apply check_calls_on_store.
  - rewrite (set_without_check p v st Hoff). by apply check_calls_on_store_then.
  - rewrite (has_without_check p st Hoff). by apply check_calls_on_store.
  - rewrite (deleteProperty_without_check p st Hoff).
    by apply check_calls_on_store_then.
  - apply keeps_check_calls_ownKeys.
  - rewrite (getOwnPropertyDescriptor_without_check p st Hoff).
    by apply check_calls_on_store.
  - rewrite (defineProperty_without_check p d st Hoff).
    by apply check_calls_on_store.
Qed.

Lemma trap_module_vars c (st : State T) :
  is_trap c = true → module_vars (after c st) = module_vars st.
Proof.
  intros Htrap. pose proof (traps_keep_module_vars c st) as Hvars.
  by destruct c.
Qed.

(** A call other than an installation keeps the module without check,
    and does not call one. *)
Lemma quiet_step c (st : State T) :
  checkAccessFn st = None → is_install c = false →
  checkAccessFn (after c st) = None
  ∧ check_calls (after c st) = check_calls st.
Proof.
  intros Hquiet Hc.
  destruct (is_trap c) eqn:Htrap.
  - split.
    + pose proof (trap_module_vars c st Htrap) as Hvars.
      injection Hvars as _ _ _ Hcheck _ _ _ _. by rewrite Hcheck.
    + apply no_check_without_checker; auto.
  - destruct c; try done; simpl.
    unfold restore. by destruct (originalEnv st).
Qed.

Lemma quiet_run calls (st : State T) :
  checkAccessFn st = None →
  Forall (λ c, is_install c = false) calls →
  checkAccessFn (after_all calls st) = None
  ∧ check_calls (after_all calls st) = check_calls st.
Proof.
  intros Hquiet Hcalls. revert st Hquiet.
  induction Hcalls as [|c calls Hc _ IH]; intros st Hquiet; [done|].
  destruct (quiet_step c st Hquiet Hc) as [Hquiet' Hsame].
  destruct (IH _ Hquiet') as [Hq Hcc]. simpl. split; [done|]. congruence.
Qed.

(** In a reachable state the module is installed or uninstalled, and
    [originalEnv], once set, is the environment object. *)
Lemma reachable_installed_or_not (st : State T) :
  reachable st →
  (uninstalled st ∨ installed st)
  ∧ (originalEnv st = None ∨ originalEnv st = Some EnvObject).
Proof.
  induction 1 as [env|c st Hst [Hcase Horig]].
  - split; [left|left]; done.
  - destruct (is_trap c) eqn:Htrap.
    { pose proof (trap_module_vars c st Htrap) as Hvars.
      injection Hvars as Ho Hp _ Hc _ Hopt _ Hpe.
      unfold uninstalled, installed. by rewrite Ho, Hp, Hc, Hopt, Hpe. }
    destruct c; try done; simpl.
    + (* createEnvProxy *)
      unfold createEnvProxy.
      destruct (proxyEnv st) as [p|] eqn:Hp; simpl; [done|].
      destruct Hcase as [(Hpe & _ & _)|(_ & Hp' & _)]; [|congruence].
      rewrite Hpe. split; [right|right]; repeat split; eauto.
    + (* restore *)
      unfold restore. destruct (originalEnv st) as [o|] eqn:Ho; simpl;
        [|by rewrite Ho].
      destruct Horig as [?|[= ->]]; [done|].
      split; [left|right]; done.
Qed.

End ProxyRunFacts.

Section ProxyExtras.
Import Js Proxy.
Context {T : Type} `{EnvStore T}.

(** X1: while enforcement is disabled, every trap is the plain
    operation on the underlying store, for string keys and symbols
    alike, and a trap never calls the access check. *)
Theorem X1_disabled_enforcement_forwards
    (st : State T) (prop : PropKey) (receiver : nat) (value : JsValue)
    (descriptor : Descriptor) :
  isEnabled st = false →
  get prop receiver st = plain_get prop receiver st
  ∧ set prop value st = (target_set prop value ;;; ret true) st
  ∧ has prop st = target_has prop st
  ∧ deleteProperty prop st = (target_delete prop ;;; ret true) st
  ∧ ownKeys st = Reflect_ownKeys st
  ∧ getOwnPropertyDescriptor prop st = Object_getOwnPropertyDescriptor prop st
  ∧ defineProperty prop descriptor st = Object_defineProperty prop descriptor st
  ∧ ∀ c, is_trap c = true → check_calls (after c st) = check_calls st.
Proof.
  intros Hoff. repeat split.
  - apply get_without_check; auto.
  - apply set_without_check; auto.
  - apply has_without_check; auto.
  - apply deleteProperty_without_check; auto.
  - by apply ownKeys_disabled.
  - apply getOwnPropertyDescriptor_without_check; auto.
  - apply defineProperty_without_check; auto.
  - intros c Hc. apply no_check_without_checker; auto.
Qed.

(** X2: while enforcement is enabled, a read of a string key other
    than [inspect], a membership test and a descriptor query of a
    string key first call the access check with operation ['read'],
    whatever the protection options are; when the check throws, the
    trap ends with that error and the store is not accessed, otherwise
    the operation is carried out on the store.  A read of the key
    [inspect] is not checked. *)
Theorem X2_string_reads_are_checked
    (st : State T) (name : string) (receiver : nat) (check : CheckFn) :
  isEnabled st = true →
  checkAccessFn st = Some check →
  let checked := (log (CheckCall name OpRead) st).2 in
  match check name OpRead with
  | Some e =>
      (name ≠ "inspect" → get (KString name) receiver st = (Throw e, checked))
      ∧ has (KString name) st = (Throw e, checked)
      ∧ getOwnPropertyDescriptor (KString name) st = (Throw e, checked)
  | None =>
      (name ≠ "inspect" →
       get (KString name) receiver st = target_get (KString name) checked)
      ∧ has (KString name) st = target_has (KString name) checked
      ∧ getOwnPropertyDescriptor (KString name) st
        = Object_getOwnPropertyDescriptor (KString name) checked
  end
  ∧ get (KString "inspect") receiver st
    = Reflect_get (KString "inspect") receiver st.
Proof.
  intros Hen Hcheck checked.
  assert (enabled_with_check st = (Normal true, st)) as Hguard.
  { unfold enabled_with_check, gets. by rewrite Hen, Hcheck. }
  pose proof (call_check_eq name OpRead st check Hcheck) as Hcall.
  assert (name ≠ "inspect" →
          get (KString name) receiver st
          = (call_checkAccessFn name OpRead ;;; target_get (KString name)) st)
    as Hget.
  { intros Hname. unfold get.
    rewrite (bool_decide_eq_false_2 (KString name = KString "inspect"))
      by congruence.
    rewrite (bool_decide_eq_false_2 (KString name = Symbol_toStringTag)) by done.
    simpl. by rewrite (bind_normal _ _ _ _ _ Hguard). }
  assert (has (KString name) st
          = (call_checkAccessFn name OpRead ;;; target_has (KString name)) st)
    as Hhas.
  { unfold has. by rewrite (bind_normal _ _ _ _ _ Hguard). }
  assert (getOwnPropertyDescriptor (KString name) st
          = (call_checkAccessFn name OpRead ;;;
             Object_getOwnPropertyDescriptor (KString name)) st) as Hgopd.
  { unfold getOwnPropertyDescriptor. by rewrite (bind_normal _ _ _ _ _ Hguard). }
  split; [|done].
  destruct (check name OpRead) as [e|].
  - split; [intros Hname; rewrite (Hget Hname)|split; [rewrite Hhas|rewrite Hgopd]];
      exact (bind_throw _ _ _ _ _ Hcall).
  - split; [intros Hname; rewrite (Hget Hname)|split; [rewrite Hhas|rewrite Hgopd]];
      exact (bind_normal _ (λ _, _) _ _ _ Hcall).
Qed.

(** X3: the protection options of an installation are on unless the
    corresponding option was given as [false]: after
    [createEnvProxy(check, options)] and [enable()], a write or a
    definition of a string key consults the check exactly when
    [options.protectWrites] is not [false], and a deletion exactly when
    [options.protectDeletes] is not [false]; with the option off the
    operation goes to the store unchecked. *)
Theorem X3_only_false_turns_protection_off
    (st : State T) (check : CheckFn) (options : Options) (now : Z)
    (name : string) (value : JsValue) (descriptor : Descriptor) :
  proxyEnv st = None →
  let st' := (enable (createEnvProxy (Some check) options now st).2).2 in
  let prop := KString name in
  set prop value st'
  = (if not_false (opt_protectWrites options)
     then call_checkAccessFn name OpWrite ;;; target_set prop value ;;; ret true
     else target_set prop value ;;; ret true) st'
  ∧ defineProperty prop descriptor st'
    = (if not_false (opt_protectWrites options)
       then call_checkAccessFn name OpWrite ;;; Object_defineProperty prop descriptor
       else Object_defineProperty prop descriptor) st'
  ∧ deleteProperty prop st'
    = (if not_false (opt_protectDeletes options)
       then call_checkAccessFn name OpDelete ;;; target_delete prop ;;; ret true
       else target_delete prop ;;; ret true) st'.
Proof.
  intros Hnone. cbv zeta. unfold createEnvProxy. rewrite Hnone. simpl.
  match goal with |- context [set _ _ ?s] => set (st' := s) end.
  assert (∀ field, enabled_with_check_and field st'
                   = (Normal (field (mkProxyOptions
                        (not_false (opt_protectWrites options))
                        (not_false (opt_protectDeletes options))
                        (not_false (opt_protectEnumeration options)))), st'))
    as Hguard by (intros field; by apply (guard_enabled field st' check)).
  unfold set, defineProperty, deleteProperty.
  rewrite !(bind_normal _ _ _ _ _ (Hguard _)). simpl.
  by destruct (not_false (opt_protectWrites options)),
              (not_false (opt_protectDeletes options)).
Qed.

(** X4: enumeration.  With enforcement enabled, [protectEnumeration]
    on and a filter installed, the keys of the store are read and
    handed to the filter; a list it answers is the result of the trap
    as it is, and when it answers [null] the keys of the store are read
    again and returned.  The access check is never called by this
    trap. *)
Theorem X4_ownKeys_returns_what_the_filter_answers
    (st : State T) (opts : ProxyOptions) (filterFn : FilterFn) :
  isEnabled st = true →
  proxyOptions st = Some opts →
  protectEnumeration opts = true →
  filterKeysFn st = Some filterFn →
  let '(keys, st1) := Reflect_ownKeys st in
  match keys with
  | Throw e => ownKeys st = (Throw e, st1)
  | Normal allKeys =>
      let asked := (log (FilterCall allKeys) st1).2 in
      match filterFn allKeys with
      | Some filteredKeys => ownKeys st = (Normal filteredKeys, asked)
      | None => ownKeys st = Reflect_ownKeys asked
      end
  end
  ∧ check_calls (ownKeys st).2 = check_calls st.
Proof.
  intros Hen Hopts Hprot Hfilter.
  destruct (Reflect_ownKeys st) as [keys st1] eqn:Hkeys.
  assert (ownKeys st
          = (let* allKeys := Reflect_ownKeys in
             log (FilterCall allKeys) ;;;
             match filterFn allKeys with
             | Some filteredKeys => ret filteredKeys
             | None => Reflect_ownKeys
             end) st) as Hown.
  { unfold ownKeys. unfold bind at 1 2 3, gets.
    by repeat progress (simpl; rewrite ?Hen, ?Hopts, ?Hprot, ?Hfilter). }
  split; [|apply keeps_check_calls_ownKeys].
  destruct keys as [allKeys|e].
  - destruct (filterFn allKeys) as [filteredKeys|] eqn:Hanswer;
      rewrite Hown; unfold bind at 1; rewrite Hkeys; unfold bind; simpl;
      by rewrite Hanswer.
  - rewrite Hown. unfold bind at 1. by rewrite Hkeys.
Qed.

(** X5: whatever is called on the module and through its proxies, the
    module is either installed, with [process.env] the one proxy
    directly around the environment object, or not installed, with
    [process.env] the environment object itself and neither check nor
    options left: a proxy is never wrapped in another one. *)
Theorem X5_at_most_one_proxy (st : State T) :
  reachable st →
  (process_env st = EnvObject
   ∧ proxyEnv st = None ∧ checkAccessFn st = None ∧ proxyOptions st = None)
  ∨ (process_env st = ProxyOf EnvObject
     ∧ proxyEnv st = Some (ProxyOf EnvObject)
     ∧ originalEnv st = Some EnvObject
     ∧ is_Some (proxyOptions st)).
Proof. intros Hst. by destruct (reachable_installed_or_not st Hst) as [Hcase _]. Qed.

(** X6: after a teardown no decision is invoked any more: from the
    state that [restore] leaves, no sequence of calls and traps that
    does not install a proxy anew (so also [enable()] followed by
    accesses through a proxy that somebody kept) calls the access
    check. *)
Theorem X6_no_check_after_restore (st : State T) (calls : list Call) :
  is_Some (originalEnv st) →
  Forall (λ c, is_install c = false) calls →
  check_calls (after_all calls (restore st).2) = check_calls st
  ∧ checkAccessFn (after_all calls (restore st).2) = None.
Proof.
  intros [o Ho] Hcalls.
  assert (checkAccessFn (restore st).2 = None) as Hquiet
    by (unfold restore; by rewrite Ho).
  assert (check_calls (restore st).2 = check_calls st) as Hsame
    by (unfold restore; by rewrite Ho).
  destruct (quiet_run calls (restore st).2 Hquiet Hcalls) as [Hq Hcc].
  split; congruence.
Qed.

(** X7: a proxy that outlives its installation: once [restore] has
    cleared [proxyOptions], enumerating the keys through the old proxy
    while enforcement is enabled (after [enable()]) throws a
    [TypeError], because the trap reads [proxyOptions.protectEnumeration];
    the store is not accessed. *)
Theorem X7_ownKeys_on_stale_proxy_throws (st : State T) :
  isEnabled st = true →
  proxyOptions st = None →
  ownKeys st = (Throw (new_TypeError "Cannot read properties of null"), st).
Proof.
  intros Hen Hopts. unfold ownKeys, bind, gets.
  by repeat progress (simpl; rewrite ?Hen, ?Hopts).
Qed.

(** X8: the traps themselves assign to no module variable and not to
    [process.env].  With a check and a filter that only answer or
    throw, as they are typed here, an access through the proxy leaves
    [originalEnv], [proxyEnv], [isEnabled], [checkAccessFn],
    [filterKeysFn], [proxyOptions], [proxyInstalledAt] and the binding
    of [process.env] as they were, in every state and however the trap
    completes.  (A check or a filter that calls [disable], [restore] or
    [setFilterKeysFn] while a trap runs changes the module by that
    call; that is the call's doing, and no step of the trap.) *)
Theorem X8_trap_bodies_assign_no_module_variable (c : Call) (st : State T) :
  is_trap c = true →
  module_vars (after c st) = module_vars st.
Proof. apply trap_module_vars. Qed.

(** X9: what the status shows.  After an installation at time [now]
    the status has [hasProxy] and [installedAt = now]; [restore] turns
    [hasProxy] and [isEnabled] off but leaves [installedAt] at the time
    of the last installation. *)
Theorem X9_status_after_install_and_restore
    (st : State T) (checkFn : option CheckFn) (options : Options) (now : Z) :
  proxyEnv st = None →
  let st1 := (createEnvProxy checkFn options now st).2 in
  (getProxyStatus st1).1 = Normal (mkProxyStatus (isEnabled st) (Some now) true)
  ∧ (getProxyStatus (restore (enable st1).2).2).1
    = Normal (mkProxyStatus false (Some now) false)
  ∧ (getProxyInstalledAt (restore st1).2).1 = Normal (Some now).
Proof.
  intros Hnone. cbv zeta. unfold createEnvProxy. by rewrite Hnone.
Qed.

End ProxyExtras.

Section ProxyExtraRuns.
Import Js Proxy.

Lemma X1_disabled_enforcement_forwards_witness :
  get (KString "AWS_SECRET") 0 (disable installed_example).2
  = (Normal (VString "x"),
     (log (StoreGet (KString "AWS_SECRET") None) (disable installed_example).2).2).
Proof.
  rewrite (proj1 (X1_disabled_enforcement_forwards (disable installed_example).2
                    (KString "AWS_SECRET") 0 VUndefined
                    (mkDescriptor None None None None) eq_refl)).
  reflexivity.
Defined.

Lemma X2_string_reads_are_checked_witness :
  has (KString "AWS_SECRET") installed_example
  = (Throw (mkError "Error" "dotnope: unauthorized AWS_SECRET"
              (Some "ERR_DOTNOPE_UNAUTHORIZED")),
     (log (CheckCall "AWS_SECRET" OpRead) installed_example).2).
Proof.
  exact (proj1 (proj2 (proj1 (X2_string_reads_are_checked installed_example
                                "AWS_SECRET" 0 deny_all eq_refl eq_refl)))).
Defined.

Lemma X3_only_false_turns_protection_off_witness :
  (set (KString "PORT") (VString "80")
     (enable (createEnvProxy (Some deny_all) (mkOptions (Some false) None None)
                1%Z (loaded example_env)).2).2).1
  = Normal true.
Proof.
  rewrite (proj1 (X3_only_false_turns_protection_off (loaded example_env)
                    deny_all (mkOptions (Some false) None None) 1%Z "PORT"
                    (VString "80") (mkDescriptor None None None None) eq_refl)).
  reflexivity.
Defined.

Lemma X4_ownKeys_returns_what_the_filter_answers_witness :
  (ownKeys (setFilterKeysFn (Some only_port) installed_example).2).1 = Normal [].
Proof.
  destruct (X4_ownKeys_returns_what_the_filter_answers
              (setFilterKeysFn (Some only_port) installed_example).2
              (mkProxyOptions true true true) only_port
              eq_refl eq_refl eq_refl eq_refl) as [Hown _].
  exact (f_equal fst Hown).
Defined.

Lemma X5_at_most_one_proxy_witness :
  process_env installed_example = ProxyOf EnvObject.
Proof.
  destruct (X5_at_most_one_proxy installed_example installed_example_reachable)
    as [(Hpe & Hp & _)|(Hpe & _)]; [discriminate Hp|exact Hpe].
Defined.

Lemma X6_no_check_after_restore_witness :
  check_calls
    (after_all [CallEnable; TrapGet (KString "AWS_SECRET") 0;
                TrapSet (KString "AWS_SECRET") (VString "y")]
       (restore installed_example).2) = [].
Proof.
  refine (proj1 (X6_no_check_after_restore installed_example
                   [CallEnable; TrapGet (KString "AWS_SECRET") 0;
                    TrapSet (KString "AWS_SECRET") (VString "y")] _ _)).
  - by eexists.
  - repeat constructor.
Defined.

Lemma X7_ownKeys_on_stale_proxy_throws_witness :
  (ownKeys (enable (restore installed_example).2).2).1
  = Throw (new_TypeError "Cannot read properties of null").
Proof.
  by rewrite (X7_ownKeys_on_stale_proxy_throws
                (enable (restore installed_example).2).2 eq_refl eq_refl).
Defined.

Lemma X8_trap_bodies_assign_no_module_variable_witness :
  isEnabled (after (TrapDeleteProperty (KString "AWS_SECRET")) installed_example)
  = true.
Proof.
  exact (f_equal (λ vars, vars.1.1.1.1.1.2)
           (X8_trap_bodies_assign_no_module_variable
              (TrapDeleteProperty (KString "AWS_SECRET")) installed_example
              eq_refl)).
Defined.

Lemma X9_status_after_install_and_restore_witness :
  (getProxyStatus
     (restore (enable (createEnvProxy None (mkOptions None None None) 42%Z
                         (loaded example_env)).2).2).2).1
  = Normal (mkProxyStatus false (Some 42%Z) false).
Proof.
  exact (proj1 (proj2 (X9_status_after_install_and_restore (loaded example_env)
                         None (mkOptions None None None) 42%Z eq_refl))).
Defined.

End ProxyExtraRuns.

Section PreloadFacts.
Import Js PreloadGenerator.

Lemma array_join_cons sep x y l :
  array_join sep (x :: y :: l) = x +:+ sep +:+ array_join sep (y :: l).
Proof. done. Qed.

(** Only the list that holds just the wildcard is joined to the
    wildcard. *)
Lemma array_join_star l : array_join "," l = "*" → l = ["*"].
Proof.
  destruct l as [|x [|y l]].
  - done.
  - intros Hx. change (x = "*") in Hx. by subst.
  - rewrite array_join_cons. destruct x as [|c x].
    + change ("" +:+ "," +:+ array_join "," (y :: l))
        with (String "," (array_join "," (y :: l))).
      intros [=].
    + intros Hjoin. apply (f_equal String.length) in Hjoin.
      rewrite !string_length_app in Hjoin.
      change (String.length ",") with 1 in Hjoin.
      change (String.length "*") with 1 in Hjoin. simpl in Hjoin. lia.
Qed.

Lemma object_set_fresh packageName value config :
  packageName ∉ config.*1 →
  object_set packageName value config = config ++ [(packageName, value)].
Proof.
  induction config as [|[key old] config IH]; simpl; [done|].
  intros Hfresh. apply not_elem_of_cons in Hfresh as [Hne Hfresh].
  rewrite decide_False by done. by rewrite IH.
Qed.

(** On entries with distinct keys the normalisation loop adds the
    normalised entries in order. *)
Lemma normalizeConfig_distinct whitelist config :
  NoDup (config.*1 ++ whitelist.*1) →
  normalizeConfig whitelist config
  = config ++ omap (λ e : string * RawConfig,
                      if decide (reserved_key e.1) then None
                      else pair e.1 <$> normalizeEntry e.2) whitelist.
Proof.
  revert config.
  induction whitelist as [|[packageName rawConfig] whitelist IH];
    intros config Hdistinct; simpl.
  - by rewrite app_nil_r.
  - rewrite fmap_cons in Hdistinct. simpl in Hdistinct.
    assert (NoDup (config.*1 ++ whitelist.*1)) as Hrest.
    { apply NoDup_app in Hdistinct as (Hc & Hdisj & Hw).
      apply NoDup_cons in Hw as [_ Hw]. apply NoDup_app. repeat split; [done| |done].
      intros x Hx Hin. apply (Hdisj x Hx). by right. }
    assert (packageName ∉ config.*1) as Hfresh.
    { apply NoDup_app in Hdistinct as (_ & Hdisj & _).
      intros Hin. apply (Hdisj _ Hin). by left. }
    assert (∀ value,
              NoDup ((config ++ [(packageName, value)]).*1 ++ whitelist.*1))
      as Hnext.
    { intros value. rewrite fmap_app. simpl. rewrite <- app_assoc. simpl.
      by rewrite <- Permutation_middle in Hdistinct |- *. }
    destruct (decide (reserved_key packageName)) as [[->| ->]|Hres]; simpl.
    + by apply IH.
    + destruct rawConfig; by apply IH.
    + assert (packageName ≠ "__options__") as Hopt
        by (intros ->; apply Hres; by left).
      assert (packageName ≠ "__proto__") as Hproto
        by (intros ->; apply Hres; by right).
      rewrite decide_False by done.
      destruct rawConfig as [raw|vars|]; simpl.
      * rewrite decide_False by done.
        rewrite object_set_fresh by done. rewrite IH by apply Hnext.
        by rewrite <- app_assoc.
      * rewrite decide_False by done.
        rewrite object_set_fresh by done. rewrite IH by apply Hnext.
        by rewrite <- app_assoc.
      * by apply IH.
Qed.

Lemma union_over_normalized whitelist :
  union_over read_write_vars
    (omap (λ e : string * RawConfig,
             if decide (reserved_key e.1) then None
             else pair e.1 <$> normalizeEntry e.2) whitelist)
  = whitelist_vars whitelist.
Proof.
  induction whitelist as [|[packageName rawConfig] whitelist IH]; [done|].
  unfold whitelist_vars. simpl.
  destruct (decide (reserved_key packageName)) as [Hres|Hres].
  - rewrite filter_cons_False by (simpl; auto). apply IH.
  - rewrite filter_cons_True by done. simpl.
    destruct rawConfig as [raw|vars|]; simpl.
    + rewrite union_over_cons_package by (intros ->; apply Hres; by left).
      f_equal; exact IH || by unfold read_write_vars, field_vars.
    + rewrite union_over_cons_package by (intros ->; apply Hres; by left).
      unfold read_write_vars, field_vars. simpl. rewrite app_nil_r.
      f_equal; exact IH.
    + apply IH.
Qed.

End PreloadFacts.

Section SubstringFacts.
Import Js.

Lemma includes_nil p : includes p "" = String.prefix p "" || false.
Proof. done. Qed.

Lemma string_app_nil_r s : s +:+ "" = s.
Proof. induction s as [|c s IH]; [done|]. by rewrite string_app_cons, IH. Qed.

(** [s.includes(p)] holds exactly when [p] occurs somewhere in [s]. *)
Lemma includes_true p s :
  includes p s = true ↔ ∃ pre post, s = pre +:+ p +:+ post.
Proof.
  split; [|intros (pre & post & ->); apply includes_app].
  induction s as [|c s IH].
  - rewrite includes_nil, orb_false_r. intros [post ->]%prefix_spec.
    by exists "", post.
  - rewrite includes_cons. intros [[post ->]%prefix_spec|Hin]%orb_true_iff.
    + by exists "", post.
    + destruct (IH Hin) as (pre & post & ->). exists (String c pre), post.
      by rewrite string_app_cons.
Qed.

(** A string that includes [pre +:+ p +:+ post] includes [p]. *)
Lemma includes_inner pre p post s :
  includes (pre +:+ p +:+ post) s = true → includes p s = true.
Proof.
  intros (before & after & ->)%includes_true. apply includes_true.
  exists (before +:+ pre), (post +:+ after). by rewrite !string_app_assoc.
Qed.

Lemma includes_char_cons sep c s :
  includes (String sep "") (String c s)
  = bool_decide (sep = c) || includes (String sep "") s.
Proof.
  rewrite includes_cons. f_equal.
  destruct (String.prefix (String sep "") (String c s)) eqn:Hp.
  - apply prefix_spec in Hp as [post Hp]. rewrite string_app_cons in Hp.
    injection Hp as -> _. by rewrite bool_decide_eq_true_2.
  - case_bool_decide as Heq; [|done]. subst c.
    assert (String.prefix (String sep "") (String sep s) = true) as Hyes
      by (apply prefix_spec; by exists s).
    congruence.
Qed.

Lemma split_cons_sep sep s : split sep (String sep s) = "" :: split sep s.
Proof. simpl. by rewrite Ascii.eqb_refl. Qed.

(** Splitting behind a prefix that holds no separator. *)
Lemma split_app_no_sep sep x rest part parts :
  includes (String sep "") x = false →
  split sep rest = part :: parts →
  split sep (x +:+ rest) = (x +:+ part) :: parts.
Proof.
  intros Hx Hrest. induction x as [|c x IH]; [done|].
  rewrite includes_char_cons in Hx.
  apply orb_false_iff in Hx as [Hc Hx]. apply bool_decide_eq_false in Hc.
  rewrite !string_app_cons. simpl.
  rewrite (proj2 (Ascii.eqb_neq c sep)) by congruence.
  by rewrite (IH Hx).
Qed.

(** Splitting what was joined gives the list back, when no element
    holds the separator. *)
Lemma split_join sep l :
  l ≠ [] →
  Forall (λ x, includes (String sep "") x = false) l →
  split sep (array_join (String sep "") l) = l.
Proof.
  intros Hne Hall. induction Hall as [|x l Hx Hall IH]; [done|].
  destruct l as [|y l].
  - change (array_join (String sep "") [x]) with x.
    rewrite <- (string_app_nil_r x) at 1.
    rewrite (split_app_no_sep sep x "" "" []) by done.
    by rewrite string_app_nil_r.
  - rewrite array_join_cons.
    rewrite (split_app_no_sep sep x _ "" (y :: l)); [by rewrite string_app_nil_r|done|].
    change (String sep "" +:+ array_join (String sep "") (y :: l))
      with (String sep (array_join (String sep "") (y :: l))).
    rewrite split_cons_sep. by rewrite IH.
Qed.

End SubstringFacts.

Section PreloadLibraryFacts.
Import Js PreloadGenerator.

Lemma normalize_nonempty path : Path.normalize path ≠ "".
Proof.
  unfold Path.normalize. case_decide; [done|].
  set (res := Path.normalizeString path _).
  case_decide as Hres.
  - by repeat case_match.
  - destruct (startsWith Path.sep path), (endsWith Path.sep path); try done.
    intros Hempty. apply (f_equal String.length) in Hempty.
    rewrite !string_length_app in Hempty. simpl in Hempty. lia.
Qed.

Lemma join_nonempty dir file : file ≠ "" → Path.join [dir; file] ≠ "".
Proof.
  intros Hfile. unfold Path.join.
  destruct (decide (dir = "")) as [->|Hdir].
  - rewrite filter_cons_False by (simpl; auto).
    rewrite filter_cons_True by done. simpl. apply normalize_nonempty.
  - rewrite filter_cons_True by done. rewrite filter_cons_True by done.
    apply normalize_nonempty.
Qed.

Lemma possiblePaths_nonempty h libPath : libPath ∈ possiblePaths h → libPath ≠ "".
Proof.
  unfold possiblePaths. rewrite !elem_of_cons, elem_of_nil.
  intros [->|[->|[->|[->|[]]]]]; try done; by apply join_nonempty.
Qed.

(** The loop answers the first path that exists, and only probes the
    file system. *)
Lemma first_existing_spec h paths t :
  ∃ probed,
    first_existing h paths t
    = (Normal (find (existsSync h) paths), t ++ (ExistsSync <$> probed)).
Proof.
  revert t. induction paths as [|libPath paths IH]; intros t.
  - exists []. simpl. by rewrite app_nil_r.
  - simpl. unfold bind, modify. simpl.
    destruct (existsSync h libPath).
    + by exists [libPath].
    + destruct (IH (t ++ [ExistsSync libPath])) as [probed ->].
      exists (libPath :: probed). by rewrite <- app_assoc.
Qed.

Lemma find_elem_of {A} (f : A → bool) l x : find f l = Some x → x ∈ l ∧ f x = true.
Proof.
  induction l as [|y l IH]; [done|]. simpl. destruct (f y) eqn:Hy.
  - intros [= ->]. split; [by left|done].
  - intros [Hin Hx]%IH. split; [by right|done].
Qed.

End PreloadLibraryFacts.

Section PreloadExtras.
Import Js PreloadGenerator.

(** X10: the policy is the wildcard exactly when some package (an
    entry other than [__options__]) lists the wildcard in [allowed] or
    in [canWrite]; no list of other names is serialized to ["*"]. *)
Theorem X10_wildcard_policy_iff_wildcard_listed (config : Config) :
  generatePolicy config = "*"
  ↔ ∃ name pc, (name, pc) ∈ config ∧ name ≠ "__options__"
               ∧ "*" ∈ read_write_vars pc.
Proof.
  rewrite <- elem_of_union_over, generatePolicy_read_write.
  unfold read_write_policy, policy_of_union. case_decide as Hstar; [done|].
  split; [|done]. intros Hjoin%array_join_star. exfalso. apply Hstar.
  apply elem_of_remove_dups. unfold array_sort in Hjoin.
  rewrite <- (merge_sort_Permutation String.le), Hjoin. by left.
Qed.

(** X11: the policy string can be decoded: when no package lists the
    wildcard and no listed name holds a comma, splitting the policy at
    the commas gives the listed names, each once, in ascending order;
    when nothing is listed the policy is the empty string. *)
Theorem X11_policy_splits_into_the_variables (config : Config) :
  let union := union_over read_write_vars config in
  "*" ∉ union →
  (∀ v, v ∈ union → includes "," v = false) →
  (union = [] → generatePolicy config = "")
  ∧ (union ≠ [] →
     split "," (generatePolicy config) = array_sort (remove_dups union)).
Proof.
  intros union Hstar Hcomma.
  rewrite generatePolicy_read_write. unfold read_write_policy, policy_of_union.
  fold union. rewrite decide_False by done. split.
  - by intros ->.
  - intros Hne. apply split_join.
    + intros Hnil. apply Hne.
      assert (remove_dups union = []) as Hdups.
      { apply Permutation_nil_r. rewrite <- Hnil. unfold array_sort.
        by rewrite merge_sort_Permutation. }
      destruct union as [|v union']; [done|].
      assert (v ∈ remove_dups (v :: union')) as Hv
        by (apply elem_of_remove_dups; by left).
      rewrite Hdups in Hv. by apply elem_of_nil in Hv.
    + apply Forall_forall. intros v Hv. apply Hcomma.
      apply elem_of_remove_dups. unfold array_sort in Hv.
      by rewrite merge_sort_Permutation in Hv.
Qed.

(** X12: the policy of a package.json: the file is read once, and the
    policy is that of the variables of its [environmentWhitelist]
    entries, where an array counts as the [allowed] list, an object
    counts with its [allowed] and [canWrite] lists (its [canDelete] is
    not read), any other value counts for nothing, and the entries
    [__options__] and [__proto__] are left out. *)
Theorem X12_policy_of_package_json
    (h : Host) (pkgPath : string) (whitelist : Whitelist) (t : list Event) :
  read_whitelist h pkgPath = Normal whitelist →
  NoDup whitelist.*1 →
  generatePolicyFromPackageJson h pkgPath t
  = (Normal (policy_of_union (whitelist_vars whitelist)),
     t ++ [ReadPackageJson pkgPath]).
Proof.
  intros Hread Hkeys. unfold generatePolicyFromPackageJson, bind, modify, ret.
  simpl. rewrite Hread. do 2 f_equal.
  rewrite generatePolicy_read_write, normalizeConfig_distinct by done.
  unfold read_write_policy. simpl. by rewrite union_over_normalized.
Qed.

(** X13: the preload counts as active exactly when [LD_PRELOAD] holds
    the text [dotnope_preload] somewhere; the test for the full file
    name adds nothing. *)
Theorem X13_isPreloadActive_iff (h : Host) :
  isPreloadActive h = true
  ↔ ∃ pre post, LD_PRELOAD h = Some (pre +:+ "dotnope_preload" +:+ post).
Proof.
  unfold isPreloadActive.
  assert (∀ preload,
            includes "libdotnope_preload.so" preload
            || includes "dotnope_preload" preload = true
            ↔ ∃ pre post, preload = pre +:+ "dotnope_preload" +:+ post)
    as Hsub.
  { intros preload. rewrite <- includes_true, orb_true_iff. split; [|auto].
    intros [Hfull|Hpart]; [|done].
    by apply (includes_inner "lib" "dotnope_preload" ".so"). }
  destruct (LD_PRELOAD h) as [v|].
  - case_decide as Hv.
    + subst v. rewrite Hsub. split.
      * intros (pre & post & Heq). by exists pre, post; rewrite <- Heq.
      * intros (pre & post & [= Heq]). by exists pre, post.
    + rewrite Hsub. split.
      * intros (pre & post & ->). by exists pre, post.
      * intros (pre & post & [= ->]). by exists pre, post.
  - rewrite Hsub. split.
    + intros (pre & post & Heq). destruct pre; discriminate Heq.
    + intros (pre & post & [=]).
Qed.

(** X14: the environment of the launch.  Of the four places where the
    preload library may be, the first that exists becomes [LD_PRELOAD],
    and [DOTNOPE_POLICY] is the policy of the package.json; when the
    library is in none of them the call throws, and the package.json
    has not been read. *)
Theorem X14_generatePreloadEnv_needs_the_library
    (h : Host) (pkgPath : string) (t : list Event) :
  match find (existsSync h) (possiblePaths h) with
  | Some libPath =>
      libPath ∈ possiblePaths h
      ∧ existsSync h libPath = true
      ∧ (generatePreloadEnv h pkgPath t).1
        = match read_whitelist h pkgPath with
          | Normal whitelist =>
              Normal (mkPreloadEnv libPath
                        (generatePolicy (normalizeConfig whitelist [])))
          | Throw err => Throw err
          end
  | None =>
      (generatePreloadEnv h pkgPath t).1 = Throw library_not_found
      ∧ ReadPackageJson pkgPath ∉ events_of (generatePreloadEnv h pkgPath) t
  end.
Proof.
  unfold events_of, generatePreloadEnv, findPreloadLibrary.
  destruct (first_existing_spec h (possiblePaths h) t) as [probed Hfirst].
  rewrite !(bind_normal _ _ _ _ _ Hfirst).
  destruct (find (existsSync h) (possiblePaths h)) as [libPath|] eqn:Hfind.
  - apply find_elem_of in Hfind as [Hin Hexists].
    split; [done|]. split; [done|].
    rewrite decide_False by by apply (possiblePaths_nonempty h).
    unfold generatePolicyFromPackageJson, bind, modify, ret. simpl.
    by destruct (read_whitelist h pkgPath).
  - split; [done|]. unfold throw. simpl.
    rewrite drop_app_length. intros Hin.
    apply list_elem_of_fmap in Hin as (p & [=] & _).
Qed.

End PreloadExtras.

Section PreloadExtraRuns.
Import Js PreloadGenerator.

Lemma X11_policy_splits_into_the_variables_witness :
  split "," (generatePolicy scenario_config) = ["X"; "Y"; "Z"].
Proof.
  refine (proj2 (X11_policy_splits_into_the_variables scenario_config _ _) _).
  - compute_done.
  - intros v Hv. simpl in Hv.
    repeat (apply elem_of_cons in Hv as [->|Hv]; [done|]).
    by apply elem_of_nil in Hv.
  - done.
Defined.

Lemma X12_policy_of_package_json_witness :
  generatePolicyFromPackageJson example_host "/app/package.json" []
  = (Normal "HTTP_PROXY,NODE_ENV", [ReadPackageJson "/app/package.json"]).
Proof.
  refine (X12_policy_of_package_json example_host "/app/package.json" _ []
            eq_refl _).
  apply (bool_decide_unpack _). by vm_compute.
Defined.

End PreloadExtraRuns.

Section BridgeRunFacts.
Import Js NativeBridge.

Lemma load_fresh h st :
  native st = None → initializationError st = None →
  ∃ available st1 evs,
    loadNativeAddon h st = (Normal available, st1)
    ∧ tried st1
    ∧ nativeAvailable st1 = available
    ∧ (available = true ↔ is_Some (native st1))
    ∧ (available = true
       ↔ addon_exists h = true
         ∧ error (verifyAddonIntegrity h) = None
         ∧ ∃ addon, require_addon h = Normal addon
                    ∧ native_initialize addon (module_path h) = Normal tt)
    ∧ trace st1 = trace st ++ evs
    ∧ (integrityError st1 = integrityError st
       ∨ native st1 = None ∧ filter (λ ev, is_RequireAddon ev = true) evs = [])
    ∧ length (filter (λ ev, is_RequireAddon ev = true) evs) ≤ 1.
Proof.
  destruct st as [n a ie iv ierr tr]. simpl. intros -> ->.
  cbv [loadNativeAddon load_body bind try_catch set_native set_nativeAvailable
       set_initializationError set_integrityVerified set_integrityError
       log modify outcome ret gets]. simpl.
  destruct (addon_exists h) eqn:Hex; simpl.
  - destruct (verifyAddonIntegrity h) as [v w e]; simpl.
    destruct e as [err|]; simpl.
    { eexists _, _, _. split; [reflexivity|]. simpl. rewrite <- !app_assoc.
      unfold tried. simpl. repeat split; eauto; try done; naive_solver. }
    destruct w as [w0|]; [destruct (decide (w0 = ""))|]; simpl;
      (destruct (require_addon h) as [addon|e1] eqn:Hreq;
       [destruct (native_initialize addon (module_path h)) as [[]|e2] eqn:Hinit|]);
      (eexists _, _, _; split; [reflexivity|]; simpl; rewrite <- ?app_assoc;
       unfold tried; simpl; repeat split; eauto; try done; try naive_solver;
       try (intros (_ & _ & addon0 & [= <-] & Hok); congruence);
       cbv; lia).
  - eexists _, _, []. split; [reflexivity|]. simpl. rewrite app_nil_r.
    unfold tried. simpl. repeat split; eauto; try done; naive_solver.
Qed.

Lemma load_tried h st :
  tried st → loadNativeAddon h st = (Normal (nativeAvailable st), st).
Proof.
  intros Htried. unfold loadNativeAddon, bind, gets.
  destruct Htried as [[addon Hn]|[err Hi]].
  - by rewrite Hn.
  - rewrite Hi. by destruct (native st).
Qed.

(** [loadNativeAddon] does not throw. *)
Lemma loadNativeAddon_normal h st :
  ∃ st1, loadNativeAddon h st = (Normal (nativeAvailable st1), st1) ∧ tried st1.
Proof.
  destruct (native st) as [addon|] eqn:Hn;
    [|destruct (initializationError st) as [err|] eqn:Hi].
  - exists st. rewrite load_tried by (left; by rewrite Hn). split; [done|].
    left. by rewrite Hn.
  - exists st. rewrite load_tried by (right; by rewrite Hi). split; [done|].
    right. by rewrite Hi.
  - destruct (load_fresh h st Hn Hi) as (b & st1 & evs & -> & Ht & <- & _).
    by exists st1.
Qed.

Lemma isNativeAvailable_tried h st :
  tried st → isNativeAvailable h st = (Normal (nativeAvailable st), st).
Proof.
  intros Htried. unfold isNativeAvailable. unfold bind at 1, gets.
  destruct (native st); [done|].
  unfold bind. by rewrite load_tried.
Qed.

Lemma isNativeAvailable_fresh h st :
  native st = None →
  isNativeAvailable h st
  = (Normal (nativeAvailable (loadNativeAddon h st).2), (loadNativeAddon h st).2).
Proof.
  intros Hn. unfold isNativeAvailable. unfold bind at 1, gets. rewrite Hn.
  destruct (loadNativeAddon_normal h st) as (st1 & Hload & _).
  unfold bind. by rewrite Hload.
Qed.

(** [isNativeAvailable] does not throw, and settles the module. *)
Lemma isNativeAvailable_normal h st :
  ∃ st1, isNativeAvailable h st = (Normal (nativeAvailable st1), st1) ∧ tried st1
         ∧ (tried st → st1 = st)
         ∧ (native st = None → st1 = (loadNativeAddon h st).2).
Proof.
  destruct (native st) as [addon|] eqn:Hn.
  - exists st. assert (tried st) as Ht by (left; by rewrite Hn).
    by rewrite isNativeAvailable_tried.
  - destruct (loadNativeAddon_normal h st) as (st1 & Hload & Ht).
    exists st1. rewrite isNativeAvailable_fresh, Hload by done. simpl.
    split; [done|]. split; [done|]. split; [|done].
    intros Htried. rewrite load_tried in Hload by done. congruence.
Qed.

Lemma settled_after c st : settled st → bridge_after c st = st.
Proof.
  intros (Htried & Havail & _). destruct c as [h|h|h n|h]; simpl.
  - by rewrite load_tried.
  - by rewrite isNativeAvailable_tried.
  - unfold getCallerInfo. unfold bind at 1.
    rewrite isNativeAvailable_tried by done.
    destruct (nativeAvailable st); [|done].
    unfold bind, gets. by destruct (native st).
  - unfold getAsyncContext. unfold bind at 1.
    rewrite isNativeAvailable_tried by done.
    destruct (nativeAvailable st); [|done].
    unfold bind, gets. by destruct (native st).
Qed.

Lemma loaded_load_settled h : settled (loadNativeAddon h loaded).2.
Proof.
  destruct (load_fresh h loaded eq_refl eq_refl)
    as (b & st1 & evs & -> & Ht & <- & Hnative & _ & Htrace & Hintegrity & Hcount).
  simpl in *. unfold settled, require_count. rewrite Htrace.
  split; [done|]. split; [done|]. split; [done|].
  intros [err Herr]. destruct Hintegrity as [Hsame|[Hn Hnone]].
  - congruence.
  - by rewrite Hnone.
Qed.

Lemma loaded_after_settled c : settled (bridge_after c loaded).
Proof.
  destruct c as [h|h|h n|h]; simpl.
  - apply loaded_load_settled.
  - rewrite isNativeAvailable_fresh by done. apply loaded_load_settled.
  - unfold getCallerInfo. unfold bind at 1.
    rewrite isNativeAvailable_fresh by done.
    pose proof (loaded_load_settled h) as Hs.
    destruct (nativeAvailable (loadNativeAddon h loaded).2); [|done].
    unfold bind, gets. by destruct (native (loadNativeAddon h loaded).2).
  - unfold getAsyncContext. unfold bind at 1.
    rewrite isNativeAvailable_fresh by done.
    pose proof (loaded_load_settled h) as Hs.
    destruct (nativeAvailable (loadNativeAddon h loaded).2); [|done].
    unfold bind, gets. by destruct (native (loadNativeAddon h loaded).2).
Qed.

(** A module in a run of the program is as loaded, or settled. *)
Lemma bridge_reachable_settled st :
  bridge_reachable st → st = loaded ∨ settled st.
Proof.
  induction 1 as [|c st Hst [->|IH]].
  - by left.
  - right. apply loaded_after_settled.
  - right. by rewrite settled_after.
Qed.

End BridgeRunFacts.

Section BridgeExtras.
Import Js NativeBridge.

(** X15: loading is attempted once.  [loadNativeAddon] never throws;
    after a call, a further call (and [isNativeAvailable]) answers the
    same and changes nothing, whatever has become of the file system
    in between. *)
Theorem X15_loading_is_attempted_once (h h' : Host) (st : State) :
  ∃ available st1,
    loadNativeAddon h st = (Normal available, st1)
    ∧ loadNativeAddon h' st1 = (Normal available, st1)
    ∧ isNativeAvailable h' st1 = (Normal available, st1).
Proof.
  destruct (loadNativeAddon_normal h st) as (st1 & Hload & Htried).
  exists (nativeAvailable st1), st1. split; [done|].
  by rewrite load_tried, isNativeAvailable_tried.
Qed.

(** X16: in a run of the program, whatever is called on the bridge
    and whatever the file system holds at each call, the addon is
    required at most once, and when an integrity error is recorded it
    was never required and is not held. *)
Theorem X16_addon_is_required_at_most_once (st : State) :
  bridge_reachable st →
  require_count st ≤ 1
  ∧ (is_Some (integrityError st) →
     require_count st = 0 ∧ native st = None ∧ nativeAvailable st = false).
Proof.
  intros [->|(Htried & Havail & Hcount & Hintegrity)]%bridge_reachable_settled.
  - split; [cbv; lia|]. by intros [err Herr].
  - split; [done|]. intros Herr. destruct (Hintegrity Herr) as [Hn Hc].
    split; [done|]. split; [done|].
    destruct (nativeAvailable st); [|done].
    destruct (proj1 Havail eq_refl) as [addon Haddon]. congruence.
Qed.

(** X17: in a run of the program the wrappers never call a method of
    [null]: [getCallerInfo] and [getAsyncContext] complete normally,
    with [null] when the addon is not available, and the module is
    available exactly when it holds the addon. *)
Theorem X17_wrappers_complete_normally
    (st : State) (h : Host) (skipFrames : nat) :
  bridge_reachable st →
  (nativeAvailable st = true ↔ is_Some (native st))
  ∧ (∃ st1,
       getCallerInfo h skipFrames st
       = (Normal (addon ← native st1; native_getCallerInfo addon skipFrames), st1)
       ∧ getAsyncContext h st
         = (Normal (addon ← native st1; native_getAsyncContext addon), st1)).
Proof.
  intros Hst. split.
  - apply bridge_reachable_settled in Hst as [->|(_ & Havail & _)]; [|done].
    simpl. split; [done|]. by intros [addon Haddon].
  - assert (settled (bridge_after (CallIsNativeAvailable h) st))
      as (_ & Havail & _).
    { apply bridge_reachable_settled in Hst as [->|Hs].
      - apply loaded_after_settled.
      - by rewrite settled_after. }
    simpl in Havail.
    destruct (isNativeAvailable_normal h st) as (st1 & Hcall & _).
    rewrite Hcall in Havail. simpl in Havail.
    exists st1. unfold getCallerInfo, getAsyncContext.
    rewrite !(bind_normal _ _ _ _ _ Hcall).
    destruct (nativeAvailable st1).
    + destruct (proj1 Havail eq_refl) as [addon Haddon].
      unfold bind, gets. by rewrite Haddon.
    + destruct (native st1) as [addon|] eqn:Haddon; [|done].
      by pose proof (proj2 Havail (mk_is_Some _ _ eq_refl)).
Qed.

(** X18: the verdicts of [verifyAddonIntegrity].  The result is of
    exactly one of three kinds: verified, a warning, or an error.  It
    is verified exactly when the manifest exists and parses, the addon
    file is read and hashed, and both the recorded hash and the recorded
    size are those of the file. *)
Theorem X18_verified_iff_hash_and_size_match (h : Host) :
  let r := verifyAddonIntegrity h in
  ((verified r = true ∧ warning r = None ∧ error r = None)
   ∨ (verified r = false ∧ is_Some (warning r) ∧ error r = None)
   ∨ (verified r = false ∧ warning r = None ∧ is_Some (error r)))
  ∧ (verified r = true
     ↔ manifest_exists h = true
       ∧ ∃ manifest addon addonBuffer actualHash size,
           read_manifest h = Normal manifest
           ∧ manifest_addon manifest = Some addon
           ∧ read_addon h = Normal addonBuffer
           ∧ digest_hex h (algorithm_of addon) addonBuffer = Normal actualHash
           ∧ addon_hash addon = Some actualHash
           ∧ stat_size h = Normal size
           ∧ addon_size addon = Some size).
Proof.
  assert (∀ w : string, is_Some (Some w)) as Hsome by (intros w; by exists w).
  assert (∀ e : JsError, is_Some (Some e)) as Hsome' by (intros e; by exists e).
  unfold verifyAddonIntegrity, verify_body.
  destruct (manifest_exists h) eqn:Hexists; simpl;
    [|split; [right; left; by auto|split; [done|by intros [? _]]]].
  destruct (read_manifest h) as [manifest|e1] eqn:Hmanifest; simpl;
    [|split; [right; left; by auto|split; [done|]];
      intros (_ & ? & ? & ? & ? & ? & ? & ? & ? & ? & ? & ? & ?); simplify_eq; congruence].
  destruct (read_addon h) as [addonBuffer|e2] eqn:Hbuffer; simpl;
    [|split; [right; left; by auto|split; [done|]];
      intros (_ & ? & ? & ? & ? & ? & ? & ? & ? & ? & ? & ? & ?); simplify_eq; congruence].
  destruct (manifest_addon manifest) as [addon|] eqn:Haddon; simpl;
    [|split; [right; left; by auto|split; [done|]];
      intros (_ & ? & ? & ? & ? & ? & ? & ? & ? & ? & ? & ? & ?); simplify_eq; congruence].
  fold (algorithm_of addon).
  destruct (digest_hex h (algorithm_of addon) addonBuffer) as [actualHash|e3]
    eqn:Hdigest; simpl;
    [|split; [right; left; by auto|split; [done|]];
      intros (_ & ? & ? & ? & ? & ? & ? & ? & ? & ? & ? & ? & ?); simplify_eq; congruence].
  case_decide as Hhash; simpl;
    [split; [right; right; by auto|split; [done|]];
     intros (_ & ? & ? & ? & ? & ? & ? & ? & ? & ? & ? & ? & ?); simplify_eq; congruence|].
  destruct (stat_size h) as [size|e4] eqn:Hstat; simpl;
    [|split; [right; left; by auto|split; [done|]];
      intros (_ & ? & ? & ? & ? & ? & ? & ? & ? & ? & ? & ? & ?); simplify_eq; congruence].
  case_decide as Hsize; simpl;
    [split; [right; right; by auto|split; [done|]];
     intros (_ & ? & ? & ? & ? & ? & ? & ? & ? & ? & ? & ? & ?); simplify_eq; congruence|].
  split; [by left|]. split; [|done]. intros _. split; [done|].
  by exists manifest, addon, addonBuffer, actualHash, size.
Qed.

(** X19: when loading succeeds.  On a module that has not tried yet,
    [loadNativeAddon] answers [true] exactly when the addon file
    exists, verification reports no error, the addon can be required
    and its [initialize] returns; in every other case the module holds
    no addon, is not available, and keeps the reason as its
    initialization error. *)
Theorem X19_load_succeeds_iff (h : Host) (st : State) :
  native st = None →
  initializationError st = None →
  ∃ available st1,
    loadNativeAddon h st = (Normal available, st1)
    ∧ (available = true
       ↔ addon_exists h = true
         ∧ error (verifyAddonIntegrity h) = None
         ∧ ∃ addon, require_addon h = Normal addon
                    ∧ native_initialize addon (module_path h) = Normal tt)
    ∧ (available = false →
       native st1 = None ∧ nativeAvailable st1 = false
       ∧ is_Some (initializationError st1))
    ∧ (addon_exists h = false →
       initializationError st1 = Some (new_Error "Native addon not built")
       ∧ trace st1 = trace st).
Proof.
  intros Hn Hi.
  destruct (load_fresh h st Hn Hi)
    as (b & st1 & evs & Hload & Htried & Hb & Hnative & Hiff & _).
  exists b, st1. split; [done|]. split; [done|]. split.
  - intros ->. destruct (native st1) as [addon|] eqn:Haddon.
    + by pose proof (proj2 Hnative (mk_is_Some _ _ eq_refl)).
    + split; [done|]. split; [done|].
      destruct Htried as [[addon Hsome]|Herr]; [congruence|done].
  - intros Hex. revert Hload.
    destruct st as [n a ie iv ierr tr]. simpl in Hn, Hi. subst n ie.
    cbv [loadNativeAddon load_body bind try_catch set_nativeAvailable
         set_initializationError modify ret gets]. simpl.
    rewrite Hex. simpl. by intros [= _ <-].
Qed.

(** X20: the manifest that the build script writes is the one the
    bridge accepts: when the script has written a manifest and the addon
    file is unchanged, verification succeeds without warning or error.
    The process ends with status 0 exactly when a manifest was written,
    which is when the addon file is there, is read, hashed and measured,
    and the write succeeds; in every other case the status is 1, by
    [process.exit(1)] when the addon is missing and by the uncaught
    exception of the failing step otherwise. *)
Theorem X20_generated_manifest_verifies
    (h : Host) (writeFileSync : Manifest → Completion unit) :
  let outcome := GenerateAddonManifest.generateManifest h writeFileSync in
  (∀ manifest,
     outcome = GenerateAddonManifest.Written manifest →
     verifyAddonIntegrity (with_manifest h manifest)
     = mkIntegrityResult true None None)
  ∧ (GenerateAddonManifest.exit_status outcome = 0%Z
     ↔ ∃ manifest, outcome = GenerateAddonManifest.Written manifest)
  ∧ ((∃ manifest, outcome = GenerateAddonManifest.Written manifest)
     ↔ addon_exists h = true
       ∧ ∃ addonBuffer hash size,
           read_addon h = Normal addonBuffer
           ∧ digest_hex h "sha256" addonBuffer = Normal hash
           ∧ stat_size h = Normal size
           ∧ writeFileSync
               (mkManifest (Some (mkAddonEntry (Some "sha256") (Some hash)
                                    (Some size))))
             = Normal tt)
  ∧ (outcome = GenerateAddonManifest.Exited 1 ↔ addon_exists h = false)
  ∧ (GenerateAddonManifest.exit_status outcome ≠ 0%Z →
     GenerateAddonManifest.exit_status outcome = 1%Z
     ∧ (addon_exists h = true →
        ∃ err, outcome = GenerateAddonManifest.Uncaught err
               ∧ (read_addon h = Throw err
                  ∨ (∃ addonBuffer, read_addon h = Normal addonBuffer
                       ∧ digest_hex h "sha256" addonBuffer = Throw err)
                  ∨ stat_size h = Throw err
                  ∨ ∃ manifest, writeFileSync manifest = Throw err))).
Proof.
  unfold GenerateAddonManifest.generateManifest. cbv zeta.
  destruct (addon_exists h) eqn:Hexists; simpl.
  2:{ split; [done|]. split; [split; [done|by intros [? ?]]|].
      split; [split; [by intros [? ?]|by intros [? ?]]|].
      split; [by split|]. intros _. split; [done|]. done. }
  destruct (read_addon h) as [addonBuffer|e1] eqn:Hread; simpl.
  2:{ split; [done|]. split; [split; [done|by intros [? ?]]|].
      split; [split; [by intros [? ?]|by intros (_ & ? & ? & ? & ? & _)]|].
      split; [by split|]. intros _. split; [done|]. intros _.
      exists e1. split; [done|]. by left. }
  destruct (digest_hex h "sha256" addonBuffer) as [hash|e2] eqn:Hdigest; simpl.
  2:{ split; [done|]. split; [split; [done|by intros [? ?]]|].
      split; [split; [by intros [? ?]|]|].
      { intros (_ & ? & ? & ? & [= <-] & Hd & _). congruence. }
      split; [by split|]. intros _. split; [done|]. intros _.
      exists e2. split; [done|]. right. left. by exists addonBuffer. }
  destruct (stat_size h) as [size|e3] eqn:Hsize; simpl.
  2:{ split; [done|]. split; [split; [done|by intros [? ?]]|].
      split; [split; [by intros [? ?]|]|].
      { by intros (_ & ? & ? & ? & _ & _ & ? & _). }
      split; [by split|]. intros _. split; [done|]. intros _.
      exists e3. split; [done|]. right. right. by left. }
  destruct (writeFileSync _) as [[]|e4] eqn:Hwrite; simpl.
  2:{ split; [done|]. split; [split; [done|by intros [? ?]]|].
      split; [split; [by intros [? ?]|]|].
      { intros (_ & ? & ? & ? & [= <-] & Hd & [= <-] & Hw).
        rewrite Hdigest in Hd. injection Hd as <-. congruence. }
      split; [by split|]. intros _. split; [done|]. intros _.
      exists e4. split; [done|]. right. right. right. by eexists. }
  split.
  { intros manifest [= <-].
    unfold verifyAddonIntegrity, verify_body, with_manifest. simpl.
    rewrite Hread. simpl. rewrite Hdigest. simpl.
    rewrite decide_False by (intros Hne; by apply Hne).
    rewrite Hsize. by rewrite decide_False by (intros Hne; by apply Hne). }
  split; [split; [by eexists|done]|].
  split; [|split; [by split|done]].
  split; [|by eexists].
  intros _. split; [done|]. by exists addonBuffer, hash, size.
Qed.

End BridgeExtras.

Section BridgeExtraRuns.
Import Js NativeBridge.

Lemma X16_addon_is_required_at_most_once_witness :
  require_count
    (bridge_after (CallGetCallerInfo unparsable_manifest_host 1)
       (bridge_after (CallLoadNativeAddon tampered_host) loaded)) ≤ 1.
Proof.
  refine (proj1 (X16_addon_is_required_at_most_once _ _)).
  repeat constructor.
Defined.

Lemma X17_wrappers_complete_normally_witness :
  nativeAvailable (bridge_after (CallLoadNativeAddon built_host) loaded) = true
  ↔ is_Some (native (bridge_after (CallLoadNativeAddon built_host) loaded)).
Proof.
  refine (proj1 (X17_wrappers_complete_normally _ built_host 0 _)).
  repeat constructor.
Defined.

Lemma X19_load_succeeds_iff_witness :
  ∃ available st1,
    loadNativeAddon built_host loaded = (Normal available, st1)
    ∧ (available = true
       ↔ addon_exists built_host = true
         ∧ error (verifyAddonIntegrity built_host) = None
         ∧ ∃ addon, require_addon built_host = Normal addon
                    ∧ native_initialize addon (module_path built_host) = Normal tt)
    ∧ (available = false →
       native st1 = None ∧ nativeAvailable st1 = false
       ∧ is_Some (initializationError st1))
    ∧ (addon_exists built_host = false →
       initializationError st1 = Some (new_Error "Native addon not built")
       ∧ trace st1 = trace loaded).
Proof. exact (X19_load_succeeds_iff built_host loaded eq_refl eq_refl). Defined.

End BridgeExtraRuns.

Section StackRunFacts.
Import Js StackParser.

Lemma preserves_ret {S A} (P : S → Prop) (a : A) : preserves P (ret a).
Proof. by intros s. Qed.

Lemma preserves_bind {S A B} (P : S → Prop) (m : M S A) (k : A → M S B) :
  preserves P m → (∀ a, preserves P (k a)) → preserves P (bind m k).
Proof.
  intros Hm Hk s Hs. unfold bind. specialize (Hm s Hs).
  destruct (m s) as [[a|e] s1]; [by apply Hk|done].
Qed.

Lemma preserves_try_finally {S A} (P : S → Prop) (body : M S A) cleanup :
  preserves P body → preserves P cleanup → preserves P (try_finally body cleanup).
Proof.
  intros Hb Hc s Hs. unfold try_finally. specialize (Hb s Hs).
  destruct (body s) as [r s1]. specialize (Hc s1 Hb).
  by destruct (cleanup s1) as [[u|e] s2].
Qed.

(** What leaves the cache alone keeps it coherent. *)
Lemma preserves_keeps_cache {A} (m : M State A) :
  keeps packageCache m → preserves cache_coherent m.
Proof. intros Hm s Hs filePath name. rewrite Hm. apply Hs. Qed.

Lemma keeps_cache_set_stackTraceLimit v : keeps packageCache (set_stackTraceLimit v).
Proof. intros st. unfold set_stackTraceLimit. by case_match. Qed.

Lemma keeps_cache_set_prepareStackTrace v :
  keeps packageCache (set_prepareStackTrace v).
Proof. intros st. unfold set_prepareStackTrace. by case_match. Qed.

Lemma keeps_cache_in_bridge {A} (m : M NativeBridge.State A) :
  keeps packageCache (in_bridge m).
Proof. intros st. unfold in_bridge. by destruct (m (bridge st)). Qed.

Lemma preserves_walk h evalDetected frames :
  preserves cache_coherent (walk h evalDetected frames).
Proof.
  induction frames as [|frame rest IH]; simpl; [by intros ?|].
  destruct (getFileName frame) as [name|]; [|done].
  repeat case_match; try done;
    (apply preserves_bind; [|by intros ? ?]);
    intros st0 Hst0; by apply cache_coherent_extractPackageName.
Qed.

Lemma preserves_capture_with {A} limit (body : M State A) :
  preserves cache_coherent body →
  preserves cache_coherent (capture_with limit body).
Proof.
  intros Hbody. unfold capture_with.
  apply preserves_bind; [by intros ?|intros savedHook].
  apply preserves_bind; [by intros ?|intros savedLimit].
  apply preserves_try_finally.
  - apply preserves_bind;
      [apply preserves_keeps_cache, keeps_cache_set_stackTraceLimit|intros _].
    apply preserves_bind;
      [apply preserves_keeps_cache, keeps_cache_set_prepareStackTrace|done].
  - apply preserves_bind;
      [apply preserves_keeps_cache, keeps_cache_set_prepareStackTrace|intros _].
    apply preserves_keeps_cache, keeps_cache_set_stackTraceLimit.
Qed.

Lemma preserves_getCallingPackageJS h captured skipFrames :
  preserves cache_coherent (getCallingPackageJS h captured skipFrames).
Proof.
  rewrite getCallingPackageJS_capture_with. apply preserves_capture_with.
  apply preserves_bind;
    [apply preserves_keeps_cache, keeps_capture_stack|intros stack].
  case_match; [by intros ?|]. apply preserves_walk.
Qed.

Lemma preserves_getFormattedStack captured skipFrames :
  preserves cache_coherent (getFormattedStack captured skipFrames).
Proof.
  rewrite getFormattedStack_capture_with. apply preserves_capture_with.
  apply preserves_bind;
    [apply preserves_keeps_cache, keeps_capture_stack|by intros ? ?].
Qed.

Lemma preserves_getCallingPackage h captured skipFrames :
  preserves cache_coherent (getCallingPackage h captured skipFrames).
Proof.
  unfold getCallingPackage.
  apply preserves_bind;
    [apply preserves_keeps_cache, keeps_cache_in_bridge|intros available].
  apply preserves_bind.
  - destruct available; [|by intros ?].
    apply preserves_bind;
      [apply preserves_keeps_cache, keeps_cache_in_bridge|intros nativeResult].
    destruct nativeResult; [by intros ?|].
    apply preserves_bind;
      [apply preserves_keeps_cache, keeps_cache_in_bridge|intros asyncContext].
    destruct asyncContext; [|by intros ?]. by case_match; intros ?.
  - intros [info|]; [by intros ?|]. apply preserves_getCallingPackageJS.
Qed.

(** In a run of the program every cached name is the computed one. *)
Lemma parser_reachable_coherent E st : parser_reachable E st → cache_coherent st.
Proof.
  induction 1 as [|c st Hst IH]; [apply cache_coherent_load|].
  destruct c; simpl.
  - by apply cache_coherent_extractPackageName.
  - intros filePath name. simpl. by rewrite lookup_empty.
  - by apply preserves_getCallingPackage.
  - by apply preserves_getFormattedStack.
Qed.

(** The walk answers the first frame that is not skipped. *)
Lemma walk_find h evalDetected frames st :
  cache_coherent st →
  (walk h evalDetected frames st).1
  = Normal (info_of evalDetected <$> find (eligible h) frames).
Proof.
  intros Hst. induction frames as [|frame rest IH]; simpl; [done|].
  unfold eligible at 1.
  destruct (getFileName frame) as [name|] eqn:Hname; [|done].
  case_bool_decide; [done|]. simpl.
  destruct (startsWith "node:" name || startsWith "internal/" name); [done|].
  simpl. destruct (isInternalFile h name); [done|]. simpl.
  unfold bind. pose proof (extractPackageName_eq name st Hst) as Hextract.
  destruct (extractPackageName name st) as [[packageName|e] st1];
    simpl in Hextract; [|done].
  injection Hextract as ->. unfold info_of. by rewrite Hname.
Qed.

End StackRunFacts.

Section StackCaptureFacts.
Import Js StackParser.

(** When both properties are assignable, the completion of a capture
    routine is that of its body, run with the limit and the raw hook
    installed. *)
Lemma capture_with_result {A} limit (body : M State A) st :
  keeps Error_ body →
  assignable (Error_ st) →
  ∃ inner,
    limit_of inner = Some limit
    ∧ hook_of inner = Some RawHook
    ∧ packageCache inner = packageCache st
    ∧ (capture_with limit body st).1 = (body inner).1.
Proof.
  intros Hbody [Hhook Hlimit].
  unfold capture_with, try_finally, bind, gets, get_prepareStackTrace,
    get_stackTraceLimit, set_stackTraceLimit, set_prepareStackTrace,
    hook_of, limit_of, assign.
  destruct st as [[hook lim ext] t c b w]. simpl in *.
  destruct lim as [[lv lw lc]|], hook as [[hv hw hc]|]; simpl in *; subst; simpl;
    match goal with
    | |- context [body ?s] =>
        exists s; specialize (Hbody s);
        destruct (body s) as [[a|e] [E' t' c' b' w']]
    end; simpl in *; subst; simpl; done.
Qed.

(** The frames that the fallback backend walks over. *)
Lemma getCallingPackageJS_result h frames skipFrames st :
  assignable (Error_ st) →
  cache_coherent st →
  let stack := take 30 frames in
  (getCallingPackageJS h (Normal frames) skipFrames st).1
  = Normal (info_of (hasEvalInStack stack)
              <$> find (eligible h) (drop skipFrames stack)).
Proof.
  intros Hassign Hcache stack. rewrite getCallingPackageJS_capture_with.
  destruct (capture_with_result 30
              (let* stack := capture_stack (Normal frames) in
               if bool_decide (stack = []) then ret None
               else walk h (hasEvalInStack stack) (drop skipFrames stack))
              st) as (inner & Hlimit & _ & Hsame & ->); [|done|].
  { apply keeps_bind; [apply keeps_capture_stack|intros stack'].
    case_match; [done|]. by apply keeps_walk. }
  unfold capture_stack, bind, gets, get_stackTraceLimit.
  unfold limit_of in Hlimit. simpl. rewrite Hlimit. simpl.
  change (Z.to_nat 30) with 30. fold stack.
  case_bool_decide as Hempty.
  - rewrite Hempty. by rewrite drop_nil.
  - apply walk_find. intros filePath name. rewrite Hsame. apply Hcache.
Qed.

End StackCaptureFacts.

Section StackEntryFacts.
Import Js StackParser.

Lemma in_bridge_eq {A} (m : M NativeBridge.State A) st :
  in_bridge m st = ((m (bridge st)).1, with_bridge (m (bridge st)).2 st).
Proof. unfold in_bridge. by destruct (m (bridge st)). Qed.

(** How the entry point ends: with the answer of the addon, with the
    asynchronous context, with an exception of a call into the bridge,
    or as the fallback backend does; before the fallback runs only the
    state of the bridge has changed. *)
Lemma getCallingPackage_cases h captured skipFrames st :
  ∃ b,
    (∃ info, getCallingPackage h captured skipFrames st
             = (Normal (Some info), with_bridge b st)
             ∧ (isAsync info = true →
                packageName info ≠ "__main__" ∧ packageName info ≠ ""
                ∧ fileName info = "<async>"))
    ∨ (∃ e, getCallingPackage h captured skipFrames st
            = (Throw e, with_bridge b st))
    ∨ getCallingPackage h captured skipFrames st
      = getCallingPackageJS h captured skipFrames (with_bridge b st).
Proof.
  remember (getCallingPackage h captured skipFrames st) as res eqn:Hres.
  unfold getCallingPackage in Hres. unfold bind at 1 in Hres.
  rewrite in_bridge_eq in Hres.
  destruct (NativeBridge.isNativeAvailable (bridge_host h) (bridge st))
    as [[available|e] b1]; simpl in Hres;
    [|exists b1; right; left; by exists e].
  destruct available; [|exists b1; by right; right].
  unfold bind at 1 in Hres. unfold bind at 1 in Hres.
  rewrite in_bridge_eq in Hres. simpl in Hres.
  destruct (NativeBridge.getCallerInfo (bridge_host h) (skipFrames + 1) b1)
    as [[nativeResult|e] b2]; simpl in Hres;
    [|exists b2; right; left; by exists e].
  destruct nativeResult as [r|].
  { exists b2. left. eexists. split; [exact Hres|]. simpl. done. }
  unfold bind at 1 in Hres. rewrite in_bridge_eq in Hres. simpl in Hres.
  destruct (NativeBridge.getAsyncContext (bridge_host h) b2)
    as [[asyncContext|e] b3]; simpl in Hres;
    [|exists b3; right; left; by exists e].
  destruct asyncContext as [context|]; [|exists b3; by right; right].
  destruct (bool_decide (context = "")) eqn:Hempty; simpl in Hres;
    [exists b3; by right; right|].
  destruct (bool_decide (context = "__main__")) eqn:Hmain; simpl in Hres;
    [exists b3; by right; right|].
  apply bool_decide_eq_false in Hempty, Hmain.
  exists b3. left. eexists. split; [exact Hres|]. simpl. done.
Qed.

Lemma keeps_Error_set_stackTraceLimit_hook v st :
  own_prepareStackTrace (Error_ (set_stackTraceLimit v st).2)
  = own_prepareStackTrace (Error_ st)
  ∧ extensible (Error_ (set_stackTraceLimit v st).2) = extensible (Error_ st).
Proof. unfold set_stackTraceLimit. by case_match. Qed.

Lemma frozen_set_prepareStackTrace v st :
  hook_frozen (Error_ st) →
  set_prepareStackTrace v st = (Throw hook_TypeError, st).
Proof.
  unfold hook_frozen, set_prepareStackTrace, assign.
  destruct (own_prepareStackTrace (Error_ st)) as [d|]; by intros ->.
Qed.

(** With the hook frozen, a capture routine ends with the [TypeError]
    of the assignment in its [finally] block, whatever its body is, and
    the hook stays frozen. *)
Lemma frozen_capture_with {A} limit (body : M State A) st :
  hook_frozen (Error_ st) →
  ∃ st', capture_with limit body st = (Throw hook_TypeError, st')
         ∧ hook_frozen (Error_ st')
         ∧ packageCache st' = packageCache st
         ∧ tamperingDetected st' = tamperingDetected st
         ∧ hook_of st' = hook_of st.
Proof.
  intros Hfrozen. unfold capture_with, get_prepareStackTrace, get_stackTraceLimit.
  unfold bind at 1 2, gets. unfold try_finally.
  assert (hook_frozen (Error_ (set_stackTraceLimit (Some limit) st).2)) as Hnext.
  { destruct (keeps_Error_set_stackTraceLimit_hook (Some limit) st) as [Hp He].
    unfold hook_frozen. by rewrite Hp, He. }
  assert (packageCache (set_stackTraceLimit (Some limit) st).2 = packageCache st
          ∧ tamperingDetected (set_stackTraceLimit (Some limit) st).2
            = tamperingDetected st
          ∧ hook_of (set_stackTraceLimit (Some limit) st).2 = hook_of st)
    as (Hc & Ht & Hh).
  { unfold hook_of.
    rewrite (proj1 (keeps_Error_set_stackTraceLimit_hook (Some limit) st)).
    unfold set_stackTraceLimit. by case_match. }
  unfold bind at 1.
  destruct (set_stackTraceLimit (Some limit) st) as [[u|e] st1] eqn:Hset;
    simpl in *.
  - unfold bind at 1. rewrite (frozen_set_prepareStackTrace _ _ Hnext).
    unfold bind. rewrite (frozen_set_prepareStackTrace _ _ Hnext).
    by exists st1.
  - unfold bind. rewrite (frozen_set_prepareStackTrace _ _ Hnext).
    by exists st1.
Qed.

(** A load that detects no tampering leaves the hook frozen. *)
Lemma load_frozen E :
  tamperingDetected (load E) = false → hook_frozen (Error_ (load E)).
Proof.
  unfold load, hook_frozen, define_frozen_undefined, read.
  destruct E as [[[hv hw hc]|] lim ext]; simpl.
  - destruct hv as [hook|]; simpl; [done|]. intros _.
    by rewrite andb_false_r.
  - intros _. by destruct ext.
Qed.

End StackEntryFacts.

Section StackInvariantFacts.
Import Js StackParser.

(** What depends neither on [Error], nor on the cache, nor on the
    bridge is left alone by every function of the module. *)
Lemma keeps_outside {X} (f : State → X) c :
  (∀ E t c b w E' c' b', f (mkState E t c b w) = f (mkState E' t c' b' w)) →
  ∀ st, f (parser_after c st) = f st.
Proof.
  intros Hf.
  assert (∀ v, keeps f (set_stackTraceLimit v)) as Hlimit.
  { intros v st. unfold set_stackTraceLimit. case_match; [|done].
    destruct st. apply Hf. }
  assert (∀ v, keeps f (set_prepareStackTrace v)) as Hhook.
  { intros v st. unfold set_prepareStackTrace. case_match; [|done].
    destruct st. apply Hf. }
  assert (∀ A (body : M State A) limit, keeps f body →
            keeps f (capture_with limit body)) as Hcapture.
  { intros A body limit Hbody. unfold capture_with.
    apply keeps_bind; [done|intros savedHook].
    apply keeps_bind; [done|intros savedLimit].
    apply keeps_try_finally.
    - apply keeps_bind; [apply Hlimit|intros _].
      by apply keeps_bind; [apply Hhook|].
    - by apply keeps_bind; [apply Hhook|]. }
  assert (∀ h captured skipFrames,
            keeps f (getCallingPackageJS h captured skipFrames)) as Hjs.
  { intros h captured skipFrames. rewrite getCallingPackageJS_capture_with.
    apply Hcapture. apply keeps_bind; [apply keeps_capture_stack|intros stack].
    case_match; [done|]. apply keeps_walk. intros. apply Hf. }
  intros st. destruct c as [filePath| |h captured skipFrames|captured skipFrames];
    simpl.
  - apply keeps_extractPackageName. intros. apply Hf.
  - destruct st. apply Hf.
  - destruct (getCallingPackage_cases h captured skipFrames st)
      as [b [(info & -> & _)|[(e & ->)| ->]]].
    + destruct st. apply Hf.
    + destruct st. apply Hf.
    + rewrite Hjs. destruct st. apply Hf.
  - rewrite getFormattedStack_capture_with. apply Hcapture.
    by apply keeps_bind; [apply keeps_capture_stack|].
Qed.

(** A frozen hook stays frozen. *)
Lemma frozen_after c st :
  hook_frozen (Error_ st) → hook_frozen (Error_ (parser_after c st)).
Proof.
  intros Hfrozen.
  destruct c as [filePath| |h captured skipFrames|captured skipFrames]; simpl.
  - by rewrite (keeps_extractPackageName Error_ filePath) by done.
  - done.
  - destruct (getCallingPackage_cases h captured skipFrames st)
      as [b [(info & -> & _)|[(e & ->)| ->]]]; [done|done|].
    rewrite getCallingPackageJS_capture_with.
    by destruct (frozen_capture_with 30
                   (let* stack := capture_stack captured in
                    if bool_decide (stack = []) then ret None
                    else walk h (hasEvalInStack stack) (drop skipFrames stack))
                   (with_bridge b st) Hfrozen) as (st' & -> & Hst' & _).
  - rewrite getFormattedStack_capture_with.
    by destruct (frozen_capture_with 15
                   (let* stack := capture_stack captured in
                    ret (array_join NativeBridge.nl
                           (format_frame <$> take 10 (drop skipFrames stack))))
                   st Hfrozen) as (st' & -> & Hst' & _).
Qed.

Lemma parser_reachable_frozen E st :
  tamperingDetected (load E) = false →
  parser_reachable E st → hook_frozen (Error_ st).
Proof.
  intros Hload. induction 1 as [|c st Hst IH]; [by apply load_frozen|].
  by apply frozen_after.
Qed.

End StackInvariantFacts.

Section StackResultFacts.
Import Js StackParser.

Lemma bind_normal_inv {S A B} (m : M S A) (k : A → M S B) s b :
  (bind m k s).1 = Normal b →
  ∃ a s1, m s = (Normal a, s1) ∧ (k a s1).1 = Normal b.
Proof.
  unfold bind. destruct (m s) as [[a|e] s1]; [|done]. intros Hk.
  by exists a, s1.
Qed.

Lemma try_finally_normal_inv {S A} (body : M S A) cleanup s a :
  (try_finally body cleanup s).1 = Normal a → (body s).1 = Normal a.
Proof.
  unfold try_finally. destruct (body s) as [r s1].
  by destruct (cleanup s1) as [[u|e] s2].
Qed.

Lemma walk_not_async h evalDetected frames st info :
  (walk h evalDetected frames st).1 = Normal (Some info) → isAsync info = false.
Proof.
  induction frames as [|frame rest IH]; simpl; [done|].
  destruct (getFileName frame) as [name|]; [|done].
  repeat case_match; try done;
    unfold bind;
    (destruct (extractPackageName name st) as [[packageName|err] st1]; [|done]);
    simpl; by intros [= <-].
Qed.

(** The fallback backend never answers an asynchronous context. *)
Lemma getCallingPackageJS_not_async h captured skipFrames st info :
  (getCallingPackageJS h captured skipFrames st).1 = Normal (Some info) →
  isAsync info = false.
Proof.
  unfold getCallingPackageJS.
  intros (savedHook & s1 & _ & Hrest)%bind_normal_inv.
  apply bind_normal_inv in Hrest as (savedLimit & s2 & _ & Hrest).
  apply try_finally_normal_inv in Hrest.
  apply bind_normal_inv in Hrest as (u1 & s3 & _ & Hrest).
  apply bind_normal_inv in Hrest as (u2 & s4 & _ & Hrest).
  apply bind_normal_inv in Hrest as (stack & s5 & _ & Hrest).
  case_bool_decide; [done|]. by apply walk_not_async in Hrest.
Qed.

Lemma existsb_elem_of {A} (f : A → bool) l x :
  x ∈ l → f x = true → existsb f l = true.
Proof.
  intros Hin Hx. apply existsb_exists. exists x.
  split; [by apply list_elem_of_In|done].
Qed.

Lemma elem_of_drop_take {A} (l : list A) n x : x ∈ drop n l → x ∈ l.
Proof. intros Hin. rewrite <- (take_drop n l). apply elem_of_app. by right. Qed.

End StackResultFacts.

Section StackExtras.
Import Js StackParser.

(** X21: while both properties of [Error] can be assigned to, caller
    identification and stack formatting leave [Error.prepareStackTrace]
    and [Error.stackTraceLimit] as they found them, however they
    complete: the entry point with or without the addon, the fallback
    backend, and the formatting of the stack. *)
Theorem X21_capture_restores_assignable_Error
    (h : Host) (captured : Completion (list Frame)) (skipFrames : nat)
    (st : State) :
  assignable (Error_ st) →
  (hook_of (getCallingPackage h captured skipFrames st).2 = hook_of st
   ∧ limit_of (getCallingPackage h captured skipFrames st).2 = limit_of st)
  ∧ (hook_of (getCallingPackageJS h captured skipFrames st).2 = hook_of st
     ∧ limit_of (getCallingPackageJS h captured skipFrames st).2 = limit_of st)
  ∧ (hook_of (getFormattedStack captured skipFrames st).2 = hook_of st
     ∧ limit_of (getFormattedStack captured skipFrames st).2 = limit_of st).
Proof.
  intros Hassign. split; [|split].
  - destruct (getCallingPackage_cases h captured skipFrames st)
      as [b [(info & -> & _)|[(e & ->)| ->]]]; [done|done|].
    by apply (getCallingPackageJS_restores h captured skipFrames (with_bridge b st)).
  - by apply getCallingPackageJS_restores.
  - by apply getFormattedStack_restores.
Qed.

(** X22: the load decides once.  In a run of the program
    [wasTamperingDetected] answers whether [Error.prepareStackTrace]
    was set when the module loaded, whatever was called since.  When it
    was not set, the load has frozen the hook, and from then on the
    fallback backend and the formatting of the stack end with the
    [TypeError] of their own assignment to [Error.prepareStackTrace], on
    every call. *)
Theorem X22_load_decides_once
    (E : ErrorObject) (st : State) (h : Host)
    (captured : Completion (list Frame)) (skipFrames : nat) :
  parser_reachable E st →
  (wasTamperingDetected st).1
  = Normal (bool_decide (is_Some (read (own_prepareStackTrace E))))
  ∧ (read (own_prepareStackTrace E) = None →
     (getCallingPackageJS h captured skipFrames st).1 = Throw hook_TypeError
     ∧ (getFormattedStack captured skipFrames st).1 = Throw hook_TypeError).
Proof.
  intros Hst.
  assert (tamperingDetected st = tamperingDetected (load E)) as Hsame.
  { induction Hst as [|c st Hst IH]; [done|].
    by rewrite (keeps_outside tamperingDetected c). }
  assert (tamperingDetected (load E)
          = bool_decide (is_Some (read (own_prepareStackTrace E)))) as Hload.
  { unfold load. by destruct (read (own_prepareStackTrace E)) as [hook|]. }
  split.
  - unfold wasTamperingDetected, gets. simpl. congruence.
  - intros Hnone.
    assert (hook_frozen (Error_ st)) as Hfrozen.
    { apply (parser_reachable_frozen E); [|done]. rewrite Hload, Hnone.
      apply bool_decide_eq_false_2. by intros [hook Hhook]. }
    rewrite getCallingPackageJS_capture_with, getFormattedStack_capture_with.
    split.
    + by destruct (frozen_capture_with 30
                     (let* stack := capture_stack captured in
                      if bool_decide (stack = []) then ret None
                      else walk h (hasEvalInStack stack) (drop skipFrames stack))
                     st Hfrozen) as (st' & -> & _).
    + by destruct (frozen_capture_with 15
                     (let* stack := capture_stack captured in
                      ret (array_join NativeBridge.nl
                             (format_frame <$> take 10 (drop skipFrames stack))))
                     st Hfrozen) as (st' & -> & _).
Qed.

(** X23: whom the fallback backend answers.  In a run of the program,
    while [Error] can be assigned to, the caller is the first of the
    captured frames, at most thirty and from index [skipFrames] on, that
    has a file name which is neither of the runtime ([node:],
    [internal/]) nor of this package; its package is the one computed
    from that file name.  The answer is [null] when there is no such
    frame. *)
Theorem X23_fallback_answers_first_foreign_frame
    (E : ErrorObject) (st : State) (h : Host) (frames : list Frame)
    (skipFrames : nat) :
  parser_reachable E st →
  assignable (Error_ st) →
  let stack := take 30 frames in
  (getCallingPackageJS h (Normal frames) skipFrames st).1
  = Normal (info_of (hasEvalInStack stack)
              <$> find (eligible h) (drop skipFrames stack)).
Proof.
  intros Hst Hassign. apply getCallingPackageJS_result; [done|].
  by apply (parser_reachable_coherent E).
Qed.

(** X24: the [isEval] flag of the fallback's answer is a property of
    the stack, not of the caller: it is set exactly when some frame
    among the captured ones (at most thirty, the skipped and internal
    ones included) looks like evaluated code. *)
Theorem X24_isEval_is_about_the_whole_stack
    (st : State) (h : Host) (frames : list Frame) (skipFrames : nat)
    (info : CallerInfo) :
  assignable (Error_ st) →
  cache_coherent st →
  (getCallingPackageJS h (Normal frames) skipFrames st).1 = Normal (Some info) →
  callerIsEval info = hasEvalInStack (take 30 frames).
Proof.
  intros Hassign Hcache.
  rewrite getCallingPackageJS_result by done. simpl.
  destruct (find (eligible h) (drop skipFrames (take 30 frames)))
    as [frame|] eqn:Hfind; [|done].
  simpl. intros [= <-]. simpl.
  destruct (detectEvalContext frame) eqn:Heval; [|done]. simpl. symmetry.
  apply find_elem_of in Hfind as [Hin _].
  apply elem_of_drop_take in Hin.
  by apply (existsb_elem_of _ _ frame).
Qed.

(** X25: an answer that is marked asynchronous comes from the addon's
    promise tracking: it names a package (never the application
    [__main__], never the empty name) with the file [<async>], and the
    fallback backend has not run, so [Error] is untouched. *)
Theorem X25_async_answer_names_a_package
    (h : Host) (captured : Completion (list Frame)) (skipFrames : nat)
    (st st' : State) (info : CallerInfo) :
  getCallingPackage h captured skipFrames st = (Normal (Some info), st') →
  isAsync info = true →
  packageName info ≠ "__main__"
  ∧ packageName info ≠ ""
  ∧ fileName info = "<async>"
  ∧ Error_ st' = Error_ st
  ∧ packageCache st' = packageCache st.
Proof.
  intros Hcall Hasync.
  destruct (getCallingPackage_cases h captured skipFrames st)
    as [b [(info' & Heq & Hinfo)|[(e & Heq)|Heq]]]; rewrite Heq in Hcall.
  - injection Hcall as <- <-. by destruct (Hinfo Hasync) as (? & ? & ?).
  - done.
  - apply (f_equal fst) in Hcall.
    apply getCallingPackageJS_not_async in Hcall. congruence.
Qed.

(** X26: the cache never changes an answer.  In a run of the program
    [extractPackageName] answers the name computed from the path,
    whether the path is cached or not; a repeated call is a lookup that
    changes nothing; and after [clearCache] the answer is the same. *)
Theorem X26_cache_is_transparent
    (E : ErrorObject) (st : State) (filePath : string) :
  parser_reachable E st →
  let st1 := (extractPackageName filePath st).2 in
  (extractPackageName filePath st).1 = Normal (packageNameOf filePath)
  ∧ extractPackageName filePath st1 = (Normal (packageNameOf filePath), st1)
  ∧ (extractPackageName filePath (clearCache st).2).1
    = Normal (packageNameOf filePath).
Proof.
  intros Hst%parser_reachable_coherent st1.
  split; [by apply extractPackageName_eq|]. split.
  - subst st1. unfold extractPackageName.
    destruct (packageCache st !! filePath) as [cached|] eqn:Hlook; simpl.
    + rewrite Hlook. by rewrite (Hst _ _ Hlook).
    + by rewrite lookup_insert_eq.
  - unfold extractPackageName, clearCache, modify. simpl.
    by rewrite lookup_empty.
Qed.

(** X27: which files count as this package's own.  A file is internal
    only if its normalized path ends in one of the five library files
    or in [dotnope/index.js] or [dotnope/index.mjs]; and for a path that
    holds [node_modules] anywhere the verdict does not depend on any
    package.json. *)
Theorem X27_isInternalFile_by_suffix (h h' : Host) (filePath : string) :
  let normalized := Path.normalize filePath in
  (isInternalFile h filePath = true →
   (∃ internalPath, internalPath ∈ INTERNAL_PATHS
                    ∧ endsWith internalPath normalized = true)
   ∨ endsWith "dotnope/index.js" normalized = true
   ∨ endsWith "dotnope/index.mjs" normalized = true)
  ∧ (includes "node_modules" normalized = true →
     isInternalFile h filePath = isInternalFile h' filePath).
Proof.
  intros normalized. unfold isInternalFile. fold normalized.
  set (in_dotnope := includes _ normalized).
  split.
  - destruct (existsb _ INTERNAL_PATHS) eqn:Hfirst.
    { intros _. left. apply existsb_exists in Hfirst as (ip & Hin & Hip).
      apply andb_true_iff in Hip as [_ Hip]. exists ip.
      split; [by apply list_elem_of_In|done]. }
    destruct (in_dotnope && _) eqn:Hsecond.
    { intros _. right. apply andb_true_iff in Hsecond as [_ Hsecond].
      by apply orb_true_iff in Hsecond. }
    destruct (endsWith _ (Path.dirname normalized) && _ && existsb _ _)
      eqn:Hthird; [|done].
    intros _. left. apply andb_true_iff in Hthird as [_ Hthird].
    apply existsb_exists in Hthird as (ip & Hin & Hip). exists ip.
    split; [by apply list_elem_of_In|done].
  - intros Hnm. rewrite Hnm. simpl. by rewrite !andb_false_r.
Qed.

End StackExtras.

Section DirnameFacts.
Import Js.





End DirnameFacts.

Section LauncherFacts.
Import Js DotnopeRun.



(** The directories that the loop visits, and what it answers. *)
Lemma findPackageJson_from_spec fuel h dir t :
  ∃ found probed,
    findPackageJson_from fuel h dir t
    = (Normal found, t ++ (PreloadGenerator.ExistsSync <$> probed))
    ∧ ∀ pkgPath, found = Some pkgPath →
        ∃ n, let d := Nat.iter n Path.dirname dir in
             pkgPath = Path.join [d; "package.json"]
             ∧ PreloadGenerator.existsSync (preload_host h) pkgPath = true
             ∧ d ≠ Path.dirname d
             ∧ ∀ m, m < n →
                 PreloadGenerator.existsSync (preload_host h)
                   (Path.join [Nat.iter m Path.dirname dir; "package.json"])
                 = false.
Proof.
  revert dir t. induction fuel as [|fuel IH]; intros dir t; simpl.
  - exists None, []. simpl. by rewrite app_nil_r.
  - case_decide as Hdir.
    + exists None, []. simpl. by rewrite app_nil_r.
    + unfold bind, modify. simpl.
      destruct (PreloadGenerator.existsSync (preload_host h)
                  (Path.join [dir; "package.json"])) eqn:Hexists.
      * eexists (Some _), [_]. split; [done|]. intros pkgPath [= <-].
        exists 0. simpl. split; [done|]. split; [done|]. split; [done|].
        intros m Hm. lia.
      * destruct (IH (Path.dirname dir)
                    (t ++ [PreloadGenerator.ExistsSync
                             (Path.join [dir; "package.json"])]))
          as (found & probed & -> & Hfound).
        exists found, (Path.join [dir; "package.json"] :: probed).
        split; [by rewrite <- app_assoc|].
        intros pkgPath Hsome. destruct (Hfound pkgPath Hsome)
          as (n & Hpath & Hthere & Hnotroot & Hearlier).
        exists (S n). rewrite Nat.iter_succ_r.
        split; [done|]. split; [done|]. split; [done|].
        intros m Hm. destruct m as [|m]; [done|].
        rewrite Nat.iter_succ_r. apply Hearlier. lia.
Qed.

(** The flags and the arguments that the loop adds to those it starts
    with. *)
Lemma parse_flags_sublist n args flags :
  length args ≤ n →
  ∃ added, filteredArgs (parse_flags args flags) = filteredArgs flags ++ added
           ∧ added `sublist_of` args.
Proof.
  revert args flags. induction n as [|n IH]; intros args flags Hlen.
  { destruct args; [|simpl in Hlen; lia]. exists []. simpl.
    by rewrite app_nil_r. }
  destruct args as [|arg rest].
  { exists []. simpl. by rewrite app_nil_r. }
  simpl in Hlen.
  assert (∀ fl, filteredArgs fl = filteredArgs flags ++ [arg] →
            ∃ added, filteredArgs (parse_flags rest fl)
                     = filteredArgs flags ++ added
                     ∧ added `sublist_of` arg :: rest) as Hpush.
  { intros fl Hfl. destruct (IH rest fl) as (added & -> & Hsub); [lia|].
    exists (arg :: added). rewrite Hfl, <- app_assoc. split; [done|].
    by apply sublist_skip. }
  assert (∀ fl args', filteredArgs fl = filteredArgs flags →
            args' `sublist_of` rest → length args' ≤ n →
            ∃ added, filteredArgs (parse_flags args' fl)
                     = filteredArgs flags ++ added
                     ∧ added `sublist_of` arg :: rest) as Hdrop.
  { intros fl args' Hfl Hsub Hlen'.
    destruct (IH args' fl Hlen') as (added & -> & Hadded).
    exists added. rewrite Hfl. split; [done|].
    apply sublist_cons. by etrans. }
  simpl. case_decide as Hverbose; [by apply Hdrop; [| |lia]|].
  case_decide as Hlog.
  { destruct rest as [|next rest']; [by apply Hpush|].
    case_decide as Hnext; [by apply Hpush|].
    apply Hdrop; [done|by apply sublist_cons|simpl in Hlen; lia]. }
  case_decide as Hsep; [|by apply Hpush].
  exists rest. split; [done|]. by apply sublist_cons.
Qed.

(** Before the separator, without [--log]: the verbose flags are
    taken out, the rest is kept, and what follows the separator is kept
    as it is. *)
Lemma parse_flags_separator before after flags :
  "--" ∉ before → "--log" ∉ before →
  parse_flags (before ++ "--" :: after) flags
  = mkFlags (verbose flags || bool_decide (Exists is_verbose_flag before))
      (logFile flags)
      (filteredArgs flags ++ filter (λ arg, ¬ is_verbose_flag arg) before
       ++ after).
Proof.
  revert flags. induction before as [|arg before IH]; intros flags Hsep Hlog.
  - simpl. by rewrite orb_false_r.
  - apply not_elem_of_cons in Hsep as [Hsep1 Hsep].
    apply not_elem_of_cons in Hlog as [Hlog1 Hlog].
    simpl. case_decide as Hverbose.
    + rewrite IH by done. simpl.
      rewrite filter_cons_False by (intros Hn; by apply Hn).
      rewrite (bool_decide_eq_true_2 (Exists _ (arg :: before)))
        by (by apply Exists_cons_hd).
      by rewrite orb_true_r.
    + rewrite decide_False by done. rewrite decide_False by done.
      rewrite IH by done. simpl.
      rewrite filter_cons_True by done. rewrite <- app_assoc. simpl.
      f_equal. f_equal. apply bool_decide_ext. rewrite Exists_cons.
      split; [by right|]. by intros [Hflag|Hrest]; [destruct Hverbose|].
Qed.

End LauncherFacts.

Section LauncherMainFacts.
Import Js DotnopeRun.

Lemma generatePreloadEnv_Normal_inv ph pkgPath t preloadEnv t' :
  PreloadGenerator.generatePreloadEnv ph pkgPath t = (Normal preloadEnv, t') →
  find (PreloadGenerator.existsSync ph) (PreloadGenerator.possiblePaths ph)
  = Some (PreloadGenerator.env_LD_PRELOAD preloadEnv).
Proof.
  unfold PreloadGenerator.generatePreloadEnv, PreloadGenerator.findPreloadLibrary.
  destruct (first_existing_spec ph (PreloadGenerator.possiblePaths ph) t)
    as [probed Hfirst].
  rewrite (bind_normal _ _ _ _ _ Hfirst).
  destruct (find _ _) as [libPath|]; [|done].
  case_decide; [done|].
  unfold PreloadGenerator.generatePolicyFromPackageJson, bind, modify, ret. simpl.
  destruct (PreloadGenerator.read_whitelist ph pkgPath); [|done].
  by intros [= <- _].
Qed.

Lemma findPreloadLibrary_normal ph t :
  ∃ found t', PreloadGenerator.findPreloadLibrary ph t = (Normal found, t').
Proof.
  unfold PreloadGenerator.findPreloadLibrary.
  destruct (first_existing_spec ph (PreloadGenerator.possiblePaths ph) t)
    as [probed ->]. by eexists _, _.
Qed.

(** The child's environment is the launcher's, but for the three
    variables of the preload. *)
Lemma child_env_lookup h preloadEnv log :
  child_env h preloadEnv log !! "LD_PRELOAD"
  = Some (PreloadGenerator.env_LD_PRELOAD preloadEnv)
  ∧ child_env h preloadEnv log !! "DOTNOPE_POLICY"
    = Some (PreloadGenerator.env_DOTNOPE_POLICY preloadEnv)
  ∧ ∀ key, key ≠ "LD_PRELOAD" → key ≠ "DOTNOPE_POLICY" → key ≠ "DOTNOPE_LOG" →
      child_env h preloadEnv log !! key = env h !! key.
Proof.
  unfold child_env.
  destruct log as [file|]; [case_decide|]; split_and!;
    try (intros key H1 H2 H3); by simplify_map_eq.
Qed.

(** What a start of the child tells about the run. *)
Lemma main_Spawn_inv h args t command commandArgs childEnv t' :
  main h args t = (Normal (Spawn command commandArgs childEnv), t') →
  platform h = "linux"
  ∧ ("--help" ∉ args) ∧ ("-h" ∉ args) ∧ ("--check" ∉ args)
  ∧ ("--status" ∉ args)
  ∧ (∃ preloadEnv,
       find (PreloadGenerator.existsSync (preload_host h))
         (PreloadGenerator.possiblePaths (preload_host h))
       = Some (PreloadGenerator.env_LD_PRELOAD preloadEnv)
       ∧ childEnv
         = child_env h preloadEnv (logFile (parse_flags args no_flags)))
  ∧ (let filtered := filteredArgs (parse_flags args no_flags) in
     (command = execPath h ∧ commandArgs = filtered)
     ∨ filtered = command :: commandArgs).
Proof.
  unfold main. fold no_flags.
  destruct (bool_decide (args = []) || bool_decide ("--help" ∈ args)
            || bool_decide ("-h" ∈ args)) eqn:Hfirst; [by intros [=]|].
  apply orb_false_iff in Hfirst as [Hfirst Hh].
  apply orb_false_iff in Hfirst as [_ Hhelp].
  destruct (bool_decide ("--check" ∈ args)) eqn:Hcheck.
  { destruct (findPreloadLibrary_normal (preload_host h) t) as (found & t1 & Hf).
    rewrite (bind_normal _ _ _ _ _ Hf).
    destruct found as [libPath|]; [destruct (decide (libPath = ""))|];
      by intros [=]. }
  destruct (bool_decide ("--status" ∈ args)) eqn:Hstatus.
  { destruct (findPreloadLibrary_normal (preload_host h) t) as (found & t1 & Hf).
    rewrite (bind_normal _ _ _ _ _ Hf). by intros [=]. }
  destruct (bool_decide (platform h = "linux")) eqn:Hlinux; [|by intros [=]].
  apply bool_decide_eq_false in Hhelp, Hh, Hcheck, Hstatus.
  apply bool_decide_eq_true in Hlinux. simpl.
  destruct (filteredArgs (parse_flags args no_flags)) as [|first rest];
    [by intros [=]|].
  unfold findPackageJson.
  destruct (findPackageJson_from_spec
              (2 * String.length (cwd h) + 4) h (cwd h) t)
    as (found & probed & Hfound & _).
  rewrite (bind_normal _ _ _ _ _ Hfound).
  destruct found as [pkgPath|]; [|by intros [=]].
  destruct (decide (pkgPath = "")); [by intros [=]|].
  unfold bind at 1, try_catch. unfold bind at 1.
  destruct (PreloadGenerator.generatePreloadEnv (preload_host h) pkgPath _)
    as [[preloadEnv|err] t2] eqn:Hgen; [|by intros [=]].
  apply generatePreloadEnv_Normal_inv in Hgen. simpl.
  destruct (endsWith ".js" first || endsWith ".mjs" first
            || endsWith ".cjs" first);
    intros [= <- <- <- _]; split_and!; try done; eauto.
Qed.

(** The script exits or reaches the start of the child; nothing before
    it throws. *)
Lemma main_normal h args t : ∃ outcome t', main h args t = (Normal outcome, t').
Proof.
  unfold main.
  destruct (bool_decide (args = []) || bool_decide ("--help" ∈ args)
            || bool_decide ("-h" ∈ args)); [by eexists _, _|].
  destruct (bool_decide ("--check" ∈ args)).
  { destruct (findPreloadLibrary_normal (preload_host h) t) as (found & t1 & Hf).
    rewrite (bind_normal _ _ _ _ _ Hf).
    destruct found as [libPath|]; [destruct (decide (libPath = ""))|];
      by eexists _, _. }
  destruct (bool_decide ("--status" ∈ args)).
  { destruct (findPreloadLibrary_normal (preload_host h) t) as (found & t1 & Hf).
    rewrite (bind_normal _ _ _ _ _ Hf). by eexists _, _. }
  destruct (bool_decide (platform h = "linux")); [|by eexists _, _].
  simpl.
  destruct (filteredArgs (parse_flags args (mkFlags false None [])))
    as [|first rest]; [by eexists _, _|].
  unfold findPackageJson.
  destruct (findPackageJson_from_spec
              (2 * String.length (cwd h) + 4) h (cwd h) t)
    as (found & probed & Hfound & _).
  rewrite (bind_normal _ _ _ _ _ Hfound).
  destruct found as [pkgPath|]; [|by eexists _, _].
  destruct (decide (pkgPath = "")); [by eexists _, _|].
  unfold bind at 1, try_catch. unfold bind at 1.
  destruct (PreloadGenerator.generatePreloadEnv (preload_host h) pkgPath _)
    as [[preloadEnv|err] t2]; simpl; [|by eexists _, _].
  destruct (endsWith ".js" first || endsWith ".mjs" first
            || endsWith ".cjs" first); by eexists _, _.
Qed.

End LauncherMainFacts.

Section LauncherExtras.
Import Js DotnopeRun.

(** X28: the flags of the launcher.  The arguments that are passed on
    are arguments that were given, in their order.  Before the
    separator [--] (and without [--log]) the verbose flags are taken
    out and everything else is passed on; what follows the separator is
    passed on as it is, flags included.  A separator that directly
    follows [--log] is not a separator: it is taken as the name of the
    log file, and what follows it is parsed for flags. *)
Theorem X28_launcher_flags (args before after : list string) :
  filteredArgs (parse_flags args no_flags) `sublist_of` args
  ∧ (("--" ∉ before) → ("--log" ∉ before) →
     parse_flags (before ++ "--" :: after) no_flags
     = mkFlags (bool_decide (Exists is_verbose_flag before)) None
         (filter (λ arg, ¬ is_verbose_flag arg) before ++ after))
  ∧ parse_flags ("--log" :: "--" :: after) no_flags
    = parse_flags after (mkFlags false (Some "--") []).
Proof.
  split; [|split].
  - destruct (parse_flags_sublist (length args) args no_flags)
      as (added & -> & Hsub); [done|]. done.
  - intros Hsep Hlog. by rewrite parse_flags_separator.
  - done.
Qed.


(** X30: the runs of the launcher.  The script exits with a status or
    reaches the call that starts the child; nothing before it throws.
    Without arguments, or with [--help] or [-h] anywhere among them
    (also behind the separator), it exits with status 0 and touches
    nothing.  When it starts the child, the platform is Linux, none of
    the command flags was given, [LD_PRELOAD] of the child is the first
    existing one of the places of the preload library and
    [DOTNOPE_POLICY] is set, whatever the launcher's own environment
    held for them; every variable other than these two and
    [DOTNOPE_LOG] is inherited.  The command is the running node binary
    with all passed arguments, or the first passed argument with the
    rest. *)
Theorem X30_launcher_runs
    (h : Host) (args : list string) (t : list PreloadGenerator.Event) :
  (∃ outcome t', main h args t = (Normal outcome, t'))
  ∧ (args = [] ∨ "--help" ∈ args ∨ "-h" ∈ args →
     main h args t = (Normal (Exit 0), t))
  ∧ ∀ command commandArgs childEnv t',
      main h args t = (Normal (Spawn command commandArgs childEnv), t') →
      platform h = "linux"
      ∧ ("--help" ∉ args) ∧ ("-h" ∉ args) ∧ ("--check" ∉ args)
      ∧ ("--status" ∉ args)
      ∧ (∃ libPath,
           find (PreloadGenerator.existsSync (preload_host h))
             (PreloadGenerator.possiblePaths (preload_host h)) = Some libPath
           ∧ PreloadGenerator.existsSync (preload_host h) libPath = true
           ∧ childEnv !! "LD_PRELOAD" = Some libPath)
      ∧ is_Some (childEnv !! "DOTNOPE_POLICY")
      ∧ (∀ key, key ≠ "LD_PRELOAD" → key ≠ "DOTNOPE_POLICY" →
                key ≠ "DOTNOPE_LOG" → childEnv !! key = env h !! key)
      ∧ (let filtered := filteredArgs (parse_flags args no_flags) in
         (command = execPath h ∧ commandArgs = filtered)
         ∨ filtered = command :: commandArgs).
Proof.
  split; [apply main_normal|]. split.
  - intros Hhelp. unfold main.
    replace (bool_decide (args = []) || bool_decide ("--help" ∈ args)
             || bool_decide ("-h" ∈ args)) with true; [done|].
    symmetry. destruct Hhelp as [->|[Hin|Hin]].
    + done.
    + rewrite (bool_decide_eq_true_2 _ Hin). by rewrite orb_true_r.
    + rewrite (bool_decide_eq_true_2 _ Hin). by rewrite orb_true_r.
  - intros command commandArgs childEnv t' Hmain.
    apply main_Spawn_inv in Hmain
      as (Hlinux & Hhelp & Hh & Hcheck & Hstatus & (preloadEnv & Hfind & ->) & Hcmd).
    destruct (child_env_lookup h preloadEnv (logFile (parse_flags args no_flags)))
      as (Hlib & Hpolicy & Hinherit).
    split_and!; try done; try (by rewrite Hpolicy).
    exists (PreloadGenerator.env_LD_PRELOAD preloadEnv).
    split; [done|]. split; [|done].
    by apply find_elem_of in Hfind as [_ Hexists].
Qed.

End LauncherExtras.

Section LauncherExtraRuns.
Import Js DotnopeRun.

(** A run: the script of the application is started with the running
    node binary, and the inherited [LD_PRELOAD] is replaced. *)
Lemma launcher_example :
  ∃ childEnv,
    (main linux_host ["--verbose"; "server.js"; "--port"; "80"] []).1
    = Normal (Spawn "/usr/bin/node" ["server.js"; "--port"; "80"] childEnv)
    ∧ childEnv !! "LD_PRELOAD" = Some "/usr/lib/libdotnope_preload.so"
    ∧ childEnv !! "DOTNOPE_POLICY" = Some "HTTP_PROXY"
    ∧ childEnv !! "PATH" = Some "/usr/bin".
Proof.
  eexists. split; [vm_compute; reflexivity|]. by vm_compute.
Qed.

End LauncherExtraRuns.

Section StackExtraRuns.
Import Js StackParser.

Lemma X21_capture_restores_assignable_Error_witness :
  hook_of (getCallingPackage plain_host (Normal example_stack) 0
             (load hooked_Error)).2
  = Some (UserHook 0).
Proof.
  refine (proj1 (proj1 (X21_capture_restores_assignable_Error plain_host
                          (Normal example_stack) 0 (load hooked_Error) _))).
  split; reflexivity.
Defined.

Lemma X22_load_decides_once_witness :
  (getCallingPackageJS plain_host (Normal example_stack) 0
     (parser_after (CallExtractPackageName "/app/server.js")
        (load pristine_Error))).1
  = Throw hook_TypeError.
Proof.
  refine (proj1 (proj2 (X22_load_decides_once pristine_Error _ plain_host
                          (Normal example_stack) 0 _) eq_refl)).
  repeat constructor.
Defined.

Lemma X23_fallback_answers_first_foreign_frame_witness :
  (getCallingPackageJS plain_host (Normal example_stack) 0 (load hooked_Error)).1
  = Normal (Some (mkCallerInfo "axios" "/app/node_modules/axios/lib/axios.js"
                    (Some 1%Z) (Some 1%Z) "request" false (Some false) false)).
Proof.
  refine (eq_trans (X23_fallback_answers_first_foreign_frame hooked_Error
                      (load hooked_Error) plain_host example_stack 0 _ _) _).
  - constructor.
  - split; reflexivity.
  - by vm_compute.
Defined.

Lemma X24_isEval_is_about_the_whole_stack_witness :
  callerIsEval
    (mkCallerInfo "axios" "/app/node_modules/axios/lib/axios.js"
       (Some 1%Z) (Some 1%Z) "request" false (Some false) false)
  = hasEvalInStack (take 30 example_stack).
Proof.
  refine (X24_isEval_is_about_the_whole_stack (load hooked_Error) plain_host
            example_stack 0 _ _ _ _).
  - split; reflexivity.
  - apply cache_coherent_load.
  - by vm_compute.
Defined.

Lemma X25_async_answer_names_a_package_witness :
  ∃ info st',
    getCallingPackage async_host (Normal []) 0 (load pristine_Error)
    = (Normal (Some info), st')
    ∧ packageName info ≠ "__main__"
    ∧ Error_ st' = Error_ (load pristine_Error).
Proof.
  assert (∃ info st',
            getCallingPackage async_host (Normal []) 0 (load pristine_Error)
            = (Normal (Some info), st')
            ∧ isAsync info = true) as (info & st' & Hcall & Hasync).
  { eexists _, _. split; vm_compute; reflexivity. }
  exists info, st'. split; [exact Hcall|].
  destruct (X25_async_answer_names_a_package async_host (Normal []) 0
              (load pristine_Error) st' info Hcall Hasync)
    as (Hmain & _ & _ & HError & _).
  split; [exact Hmain|exact HError].
Defined.

Lemma X26_cache_is_transparent_witness :
  (extractPackageName "/app/node_modules/axios/index.js"
     (clearCache (load pristine_Error)).2).1
  = Normal (packageNameOf "/app/node_modules/axios/index.js").
Proof.
  refine (proj2 (proj2 (X26_cache_is_transparent pristine_Error
                          (load pristine_Error)
                          "/app/node_modules/axios/index.js" _))).
  constructor.
Defined.

End StackExtraRuns.
